(** * CRPML: variant resolution and file merge engine

    A shallow embedding of the engine of [crpml] (the TypeScript entry
    module together with its JSON schemas) and the properties its
    specification states about it.

    Conventions of the embedding.

    - A JavaScript string is a [string]; the character with code [c]
      stands for the UTF-16 code unit [c], so the embedding covers
      strings whose code units are below 256.  The default order of
      [Array.prototype.sort] (code unit order) is then [String.compare].
    - A plain JavaScript object is the list of its own enumerable
      properties in enumeration order ([obj]).  Property creation follows
      the order of ordinary objects: array-index keys first, ascending,
      then the other keys in creation order ([obj_set]).
    - Code that may throw returns a [result]: [Ok], [Throw] with the
      exception, or [Unmodelled] when the run leaves the fragment that
      the embedding covers (a number that is not a safe integer, a code
      unit above 255, a changed prototype, a credited variant that is no
      string).  Nothing is claimed about an [Unmodelled] run.
    - The host (file system, [path] module, dynamic [import]) is a
      record of functions, [Host]; every theorem holds for every host.
      The calls of the write loop, whose outcome depends on what the
      loop did before, take the number of the round ([Output]).
    - A custom merger is called with the sources array itself: it is
      modelled by what it returns and by the array as it leaves it. *)

From Stdlib Require Import String Ascii List ZArith NArith Bool Lia Arith.
From Stdlib Require Import DecimalString Permutation Sorted.
Import ListNotations.

Local Open Scope list_scope.
Local Open Scope string_scope.

(** ** Results and exceptions *)

Inductive exn : Type :=
| Error (message : string)            (* throw new Error(message) *)
| AssertionError (message : string)   (* assert(false, message) *)
| ValidationError (message : string)  (* assert(isValid(x), message + ajv's error list) *)
| TypeError (message : string)        (* raised by the engine *)
| SyntaxError                         (* raised by JSON.parse *)
| SystemError.                        (* a rejected host promise, or foreign code that throws *)

Inductive result (A : Type) : Type :=
| Ok (a : A)
| Throw (e : exn)
| Unmodelled.

Arguments Ok {A} a.
Arguments Throw {A} e.
Arguments Unmodelled {A}.

Definition bind {A B : Type} (r : result A) (k : A -> result B) : result B :=
  match r with
  | Ok a => k a
  | Throw e => Throw e
  | Unmodelled => Unmodelled
  end.

Notation "x <- r ;; k" := (bind r (fun x => k))
  (at level 61, r at next level, right associativity).
Notation "' p <- r ;; k" := (bind r (fun x => let p := x in k))
  (at level 61, p pattern, r at next level, right associativity).

(** [assert(cond, message)] *)
Definition assert (cond : bool) (message : string) : result unit :=
  if cond then Ok tt else Throw (AssertionError message).

(** The [message] property of a thrown exception, where the embedding
    has its text.  For a [ValidationError] it is the part before the
    validator's error list; a [TypeError] carries the wording of V8. *)
Definition exn_message (e : exn) : option string :=
  match e with
  | Error m | AssertionError m | ValidationError m | TypeError m => Some m
  | SyntaxError | SystemError => None
  end.

Fixpoint mapM {A B : Type} (f : A -> result B) (l : list A) : result (list B) :=
  match l with
  | [] => Ok []
  | a :: l' => b <- f a ;; bs <- mapM f l' ;; Ok (b :: bs)
  end.

(** ** Characters and strings *)

Definition dquote : ascii := "034"%char.
Definition newline : ascii := "010"%char.
Definition str (c : ascii) : string := String c EmptyString.

Definition code (c : ascii) : N := N_of_ascii c.

(** [s.startsWith(p)] *)
Definition startsWith (p s : string) : bool := String.prefix p s.

(** [s.substring(n)] *)
Fixpoint substring_from (n : nat) (s : string) : string :=
  match n, s with
  | O, _ => s
  | S n', String _ r => substring_from n' r
  | S _, EmptyString => EmptyString
  end.

(** [l.join(sep)] for a list of strings *)
Fixpoint join (sep : string) (l : list string) : string :=
  match l with
  | [] => EmptyString
  | [x] => x
  | x :: l' => x ++ sep ++ join sep l'
  end.

(** [l.includes(x)] *)
Definition includes (x : string) (l : list string) : bool :=
  existsb (String.eqb x) l.

(** ** Ordinary objects *)

Definition obj (A : Type) : Type := list (string * A).

Section Objects.
Context {A : Type}.

Fixpoint obj_get (k : string) (o : obj A) : option A :=
  match o with
  | [] => None
  | (k', v) :: o' => if String.eqb k k' then Some v else obj_get k o'
  end.

Definition obj_has (k : string) (o : obj A) : bool :=
  match obj_get k o with Some _ => true | None => false end.

Definition obj_keys (o : obj A) : list string := map fst o.

Fixpoint obj_replace (k : string) (v : A) (o : obj A) : obj A :=
  match o with
  | [] => []
  | (k', v') :: o' =>
      if String.eqb k k' then (k', v) :: o' else (k', v') :: obj_replace k v o'
  end.
End Objects.

(** A property key is an array index when it is the canonical decimal
    form of an integer below 2^32 - 1: converting it to a number and
    back gives the key again. *)
Definition array_index (k : string) : option N :=
  match NilZero.uint_of_string k with
  | Some d =>
      let n := N.of_uint d in
      if String.eqb (NilZero.string_of_uint (N.to_uint n)) k && (n <? 4294967295)%N
      then Some n
      else None
  | None => None
  end.

Section ObjectUpdate.
Context {A : Type}.

(** Position of a new array-index key: after the smaller indices. *)
Fixpoint obj_insert_index (n : N) (k : string) (v : A) (o : obj A) : obj A :=
  match o with
  | [] => [(k, v)]
  | (k', v') :: o' =>
      match array_index k' with
      | Some n' =>
          if (n' <? n)%N then (k', v') :: obj_insert_index n k v o'
          else (k, v) :: o
      | None => (k, v) :: o
      end
  end.

(** CreateDataProperty on an ordinary object. *)
Definition obj_set (k : string) (v : A) (o : obj A) : obj A :=
  if obj_has k o then obj_replace k v o
  else match array_index k with
       | Some n => obj_insert_index n k v o
       | None => (o ++ [(k, v)])%list
       end.

(** [Object.fromEntries(l)] *)
Definition obj_fromEntries (l : list (string * A)) : obj A :=
  fold_left (fun o kv => obj_set (fst kv) (snd kv) o) l [].

(** [o[k] = v] on an object whose prototype is [Object.prototype]:
    the key [__proto__] reaches the inherited setter and creates no
    own property. *)
Definition obj_assign (k : string) (v : A) (o : obj A) : obj A :=
  if String.eqb k "__proto__" then o else obj_set k v o.
End ObjectUpdate.

(** ** JSON values *)

#[local] Unset Elimination Schemes.
Inductive json : Type :=
| JNull
| JBool (b : bool)
| JNumber (n : Z)
| JString (s : string)
| JArray (l : list json)
| JObject (o : list (string * json)).
#[local] Set Elimination Schemes.

Section JsonInduction.
Variable P : json -> Prop.
Hypothesis Hnull : P JNull.
Hypothesis Hbool : forall b, P (JBool b).
Hypothesis Hnumber : forall n, P (JNumber n).
Hypothesis Hstring : forall s, P (JString s).
Hypothesis Harray : forall l, Forall P l -> P (JArray l).
Hypothesis Hobject : forall o, Forall (fun kv => P (snd kv)) o -> P (JObject o).

Fixpoint json_ind' (v : json) : P v :=
  match v with
  | JNull => Hnull
  | JBool b => Hbool b
  | JNumber n => Hnumber n
  | JString s => Hstring s
  | JArray l =>
      Harray l
        ((fix go (l : list json) : Forall P l :=
            match l with
            | [] => Forall_nil _
            | x :: l' => Forall_cons x (json_ind' x) (go l')
            end) l)
  | JObject o =>
      Hobject o
        ((fix go (o : list (string * json)) : Forall (fun kv => P (snd kv)) o :=
            match o with
            | [] => Forall_nil _
            | kv :: o' => Forall_cons kv (json_ind' (snd kv)) (go o')
            end) o)
  end.
End JsonInduction.

(** JavaScript truthiness of a JSON value. *)
Definition truthy (v : json) : bool :=
  match v with
  | JNull => false
  | JBool b => b
  | JNumber n => negb (n =? 0)%Z
  | JString s => negb (String.eqb s EmptyString)
  | JArray _ | JObject _ => true
  end.

(** ** JSON.stringify *)

Definition hex_digit (n : N) : ascii :=
  match n with
  | 0 => "0" | 1 => "1" | 2 => "2" | 3 => "3" | 4 => "4" | 5 => "5"
  | 6 => "6" | 7 => "7" | 8 => "8" | 9 => "9" | 10 => "a" | 11 => "b"
  | 12 => "c" | 13 => "d" | 14 => "e" | _ => "f"
  end%N%char.

Definition quote_char (c : ascii) : string :=
  let n := code c in
  if Ascii.eqb c dquote then String "\" (str dquote)
  else if Ascii.eqb c "\" then "\\"
  else if (n =? 8)%N then "\b"
  else if (n =? 9)%N then "\t"
  else if (n =? 10)%N then "\n"
  else if (n =? 12)%N then "\f"
  else if (n =? 13)%N then "\r"
  else if (n <? 32)%N then
    "\u00" ++ String (hex_digit (n / 16)) (str (hex_digit (n mod 16)))
  else str c.

Fixpoint quote_chars (s : string) : string :=
  match s with
  | EmptyString => EmptyString
  | String c r => quote_char c ++ quote_chars r
  end.

Definition quote (s : string) : string :=
  String dquote (quote_chars s ++ str dquote).

Definition number_to_string (n : Z) : string :=
  NilZero.string_of_int (Z.to_int n).

(** [JSON.stringify(v)] *)
Fixpoint JSON_stringify (v : json) : string :=
  match v with
  | JNull => "null"
  | JBool true => "true"
  | JBool false => "false"
  | JNumber n => number_to_string n
  | JString s => quote s
  | JArray l => "[" ++ join "," (map JSON_stringify l) ++ "]"
  | JObject o =>
      "{" ++ join "," (map (fun kv => quote (fst kv) ++ ":" ++ JSON_stringify (snd kv)) o)
          ++ "}"
  end.

(** [JSON.stringify(v, null, 2)] at the indentation [ind]. *)
Fixpoint stringify_indent (ind : string) (v : json) : string :=
  let ind' := ind ++ "  " in
  let sep := String "," (String newline ind') in
  match v with
  | JArray [] => "[]"
  | JArray l =>
      "[" ++ String newline ind' ++ join sep (map (stringify_indent ind') l)
          ++ String newline ind ++ "]"
  | JObject [] => "{}"
  | JObject o =>
      "{" ++ String newline ind'
          ++ join sep (map (fun kv => quote (fst kv) ++ ": " ++ stringify_indent ind' (snd kv)) o)
          ++ String newline ind ++ "}"
  | _ => JSON_stringify v
  end.

Definition JSON_stringify_2 (v : json) : string := stringify_indent EmptyString v.

(** ** JSON.parse *)

Definition is_ws (c : ascii) : bool :=
  let n := code c in
  (n =? 32)%N || (n =? 9)%N || (n =? 10)%N || (n =? 13)%N.

Fixpoint skip_ws (s : string) : string :=
  match s with
  | String c r => if is_ws c then skip_ws r else s
  | EmptyString => s
  end.

Definition hex_value (c : ascii) : option N :=
  let n := code c in
  if (48 <=? n)%N && (n <=? 57)%N then Some (n - 48)%N
  else if (97 <=? n)%N && (n <=? 102)%N then Some (n - 87)%N
  else if (65 <=? n)%N && (n <=? 70)%N then Some (n - 55)%N
  else None.

Definition hex4 (a b c d : ascii) : option N :=
  match hex_value a, hex_value b, hex_value c, hex_value d with
  | Some x, Some y, Some z, Some w => Some (((x * 16 + y) * 16 + z) * 16 + w)%N
  | _, _, _, _ => None
  end.

(** The characters of a string literal after its opening quote; [acc] is
    the text read so far.  Returns the text and the input after the
    closing quote. *)
Fixpoint parse_chars (s : string) (acc : string) : result (string * string) :=
  match s with
  | EmptyString => Throw SyntaxError
  | String c r =>
      if Ascii.eqb c dquote then Ok (acc, r)
      else if Ascii.eqb c "\" then
        match r with
        | EmptyString => Throw SyntaxError
        | String e r' =>
            if Ascii.eqb e dquote then parse_chars r' (acc ++ str dquote)
            else if Ascii.eqb e "\" then parse_chars r' (acc ++ "\")
            else if Ascii.eqb e "/" then parse_chars r' (acc ++ "/")
            else if Ascii.eqb e "b" then parse_chars r' (acc ++ str "008")
            else if Ascii.eqb e "f" then parse_chars r' (acc ++ str "012")
            else if Ascii.eqb e "n" then parse_chars r' (acc ++ str "010")
            else if Ascii.eqb e "r" then parse_chars r' (acc ++ str "013")
            else if Ascii.eqb e "t" then parse_chars r' (acc ++ str "009")
            else if Ascii.eqb e "u" then
              match r' with
              | String h1 (String h2 (String h3 (String h4 r''))) =>
                  match hex4 h1 h2 h3 h4 with
                  | Some n =>
                      if (n <? 256)%N then parse_chars r'' (acc ++ str (ascii_of_N n))
                      else Unmodelled
                  | None => Throw SyntaxError
                  end
              | _ => Throw SyntaxError
              end
            else Throw SyntaxError
        end
      else if (code c <? 32)%N then Throw SyntaxError
      else parse_chars r (acc ++ str c)
  end.

Definition digit_of (c : ascii) : option N :=
  let n := code c in
  if (48 <=? n)%N && (n <=? 57)%N then Some (n - 48)%N else None.

(** The digits of an integer literal; returns their value and the rest. *)
Fixpoint parse_digits (s : string) (acc : N) : N * string :=
  match s with
  | String c r =>
      match digit_of c with
      | Some d => parse_digits r (10 * acc + d)%N
      | None => (acc, s)
      end
  | EmptyString => (acc, s)
  end.

Definition max_safe_integer : N := 9007199254740991.

(** The input after the character [c], when the input starts with it. *)
Definition after (c : ascii) (s : string) : option string :=
  match s with
  | String x r => if Ascii.eqb x c then Some r else None
  | EmptyString => None
  end.

Definition starts_fraction (s : string) : bool :=
  match s with
  | String x _ => Ascii.eqb x "." || Ascii.eqb x "e" || Ascii.eqb x "E"
  | EmptyString => false
  end.

(** Numbers: integer literals whose value is a safe integer are read
    exactly; a fraction, an exponent or a larger magnitude leaves the
    fragment. *)
Definition parse_number (negative : bool) (s : string) : result (json * string) :=
  match s with
  | EmptyString => Throw SyntaxError
  | String c r =>
      match digit_of c with
      | None => Throw SyntaxError
      | Some d =>
          let '(n, rest) := if (d =? 0)%N then (0%N, r) else parse_digits r d in
          if starts_fraction rest then Unmodelled
          else if (n <=? max_safe_integer)%N
          then Ok (JNumber (if negative then - Z.of_N n else Z.of_N n), rest)
          else Unmodelled
      end
  end.

Definition expect (lit : string) (v : json) (s : string) : result (json * string) :=
  if String.prefix lit s then Ok (v, substring_from (String.length lit) s)
  else Throw SyntaxError.

(** A value that is neither an object nor an array. *)
Definition parse_scalar (c : ascii) (r : string) : result (json * string) :=
  if Ascii.eqb c dquote then '(t, r') <- parse_chars r EmptyString ;; Ok (JString t, r')
  else if Ascii.eqb c "-" then parse_number true r
  else if Ascii.eqb c "t" then expect "true" (JBool true) (String c r)
  else if Ascii.eqb c "f" then expect "false" (JBool false) (String c r)
  else if Ascii.eqb c "n" then expect "null" JNull (String c r)
  else parse_number false (String c r).

(** The key of a member and the input after its colon. *)
Definition parse_key (s : string) : result (string * string) :=
  match after dquote (skip_ws s) with
  | Some r =>
      '(k, r1) <- parse_chars r EmptyString ;;
      match after ":" (skip_ws r1) with
      | Some r2 => Ok (k, r2)
      | None => Throw SyntaxError
      end
  | None => Throw SyntaxError
  end.

(** Recursive descent with fuel; [None] is an exhausted fuel. *)
Fixpoint parse_value (fuel : nat) (s : string) : option (result (json * string)) :=
  match fuel with
  | O => None
  | S fuel' =>
      match skip_ws s with
      | EmptyString => Some (Throw SyntaxError)
      | String c r =>
          if Ascii.eqb c "{" then
            match after "}" (skip_ws r) with
            | Some r' => Some (Ok (JObject [], r'))
            | None => parse_members fuel' r []
            end
          else if Ascii.eqb c "[" then
            match after "]" (skip_ws r) with
            | Some r' => Some (Ok (JArray [], r'))
            | None => parse_elements fuel' r []
            end
          else Some (parse_scalar c r)
      end
  end

with parse_elements (fuel : nat) (s : string) (acc : list json)
  : option (result (json * string)) :=
  match fuel with
  | O => None
  | S fuel' =>
      match parse_value fuel' s with
      | None => None
      | Some (Ok (v, r)) =>
          match after "," (skip_ws r) with
          | Some r' => parse_elements fuel' r' (acc ++ [v])%list
          | None =>
              match after "]" (skip_ws r) with
              | Some r' => Some (Ok (JArray (acc ++ [v])%list, r'))
              | None => Some (Throw SyntaxError)
              end
          end
      | Some (Throw e) => Some (Throw e)
      | Some Unmodelled => Some Unmodelled
      end
  end

with parse_members (fuel : nat) (s : string) (acc : obj json)
  : option (result (json * string)) :=
  match fuel with
  | O => None
  | S fuel' =>
      match parse_key s with
      | Ok (k, r2) =>
          match parse_value fuel' r2 with
          | None => None
          | Some (Ok (v, r3)) =>
              match after "," (skip_ws r3) with
              | Some r4 => parse_members fuel' r4 (obj_set k v acc)
              | None =>
                  match after "}" (skip_ws r3) with
                  | Some r4 => Some (Ok (JObject (obj_set k v acc), r4))
                  | None => Some (Throw SyntaxError)
                  end
              end
          | Some (Throw e) => Some (Throw e)
          | Some Unmodelled => Some Unmodelled
          end
      | Throw e => Some (Throw e)
      | Unmodelled => Some Unmodelled
      end
  end.

(** [JSON.parse(text)] *)
Definition JSON_parse (text : string) : result json :=
  match parse_value (2 * String.length text + 2) text with
  | Some (Ok (v, rest)) =>
      match skip_ws rest with
      | EmptyString => Ok v
      | _ => Throw SyntaxError
      end
  | Some (Throw e) => Throw e
  | Some Unmodelled | None => Unmodelled
  end.

(** ** Own properties of a value *)

Definition index_key (i : nat) : string := NilZero.string_of_uint (Nat.to_uint i).

Definition index_entries {A : Type} (l : list A) : obj A :=
  combine (map index_key (seq 0 (length l))) l.

(** The own enumerable string-keyed properties of [ToObject(v)], as
    [Object.keys] and [Object.assign] read them; [None] for [null], which
    has no object form. *)
Definition own_entries (v : json) : option (obj json) :=
  match v with
  | JNull => None
  | JBool _ | JNumber _ => Some []
  | JString s => Some (index_entries (map (fun c => JString (str c)) (list_ascii_of_string s)))
  | JArray l => Some (index_entries l)
  | JObject o => Some o
  end.

(** [dest[k] = v] where the prototype of [dest] is [Object.prototype].
    On the key [__proto__] the inherited setter runs: it ignores a
    primitive and installs an object or [null] as the prototype, after
    which property lookups on [dest] leave the embedding. *)
Definition assign_dest (k : string) (v : json) (dest : obj json) : result (obj json) :=
  if String.eqb k "__proto__" then
    match v with
    | JNull | JArray _ | JObject _ => Unmodelled
    | _ => Ok dest
    end
  else Ok (obj_set k v dest).

(** ** Array.prototype.sort on strings *)

Fixpoint sort_insert (x : string) (l : list string) : list string :=
  match l with
  | [] => [x]
  | y :: l' => if String.leb x y then x :: l else y :: sort_insert x l'
  end.

(** [l.sort()]: ascending code unit order. *)
Fixpoint js_sort (l : list string) : list string :=
  match l with
  | [] => []
  | x :: l' => sort_insert x (js_sort l')
  end.

(** ** The deepmerge package

    [deepmerge] is imported from the package of that name; what follows
    transcribes its algorithm under the default options, which the
    engine uses: [deepmerge.all] folds [deepmerge] from [{}]; two arrays
    are concatenated ([defaultArrayMerge]); two non-arrays go through
    [mergeObject], which skips the keys it calls unsafe (found on the
    target's prototype chain but not among its own properties); every
    value that enters the result is cloned. *)

Definition proto_members : list string :=
  [ "constructor"; "__defineGetter__"; "__defineSetter__"; "hasOwnProperty";
    "__lookupGetter__"; "__lookupSetter__"; "isPrototypeOf";
    "propertyIsEnumerable"; "toString"; "valueOf"; "__proto__";
    "toLocaleString" ].

(** [k in {}] *)
Definition on_prototype (k : string) : bool := includes k proto_members.

Definition isMergeableObject (v : json) : bool :=
  match v with
  | JArray _ | JObject _ => true
  | _ => false
  end.

Fixpoint cloneUnlessOtherwiseSpecified (v : json) : json :=
  match v with
  | JArray l => JArray (map cloneUnlessOtherwiseSpecified l)
  | JObject o =>
      JObject
        (obj_fromEntries
           (filter (fun kv => negb (on_prototype (fst kv)))
              (map (fun kv => (fst kv, cloneUnlessOtherwiseSpecified (snd kv))) o)))
  | _ => v
  end.

(** [propertyIsUnsafe(target, k)]; [in] throws on a primitive, which the
    package catches and reads as an absent property. *)
Definition propertyIsUnsafe (target : json) (k : string) : bool :=
  match target with
  | JObject t => (obj_has k t || on_prototype k) && negb (obj_has k t)
  | _ => false
  end.

(** The own property [target[k]] that [mergeObject] merges into. *)
Definition own_property (target : json) (k : string) : option json :=
  match target with
  | JObject t => obj_get k t
  | _ => None
  end.

(** First loop of [mergeObject]: the clone of the target. *)
Definition clone_target (target : json) : result (obj json) :=
  match target with
  | JObject t =>
      fold_left
        (fun acc kv => d <- acc ;; assign_dest (fst kv) (cloneUnlessOtherwiseSpecified (snd kv)) d)
        t (Ok [])
  | _ => Ok []
  end.

Section MergeObject.
Variable merge : json -> json -> result json.
Variable target : json.

(** Second loop of [mergeObject], over the own properties of the source;
    [merge] is the merge function for the values of a common key. *)
Fixpoint mergeKeys (source : list (string * json)) (destination : obj json)
  : result (obj json) :=
  match source with
  | [] => Ok destination
  | (k, sv) :: source' =>
      d <- (if propertyIsUnsafe target k then Ok destination
            else match own_property target k with
                 | Some tv =>
                     if isMergeableObject sv
                     then r <- merge tv sv ;; assign_dest k r destination
                     else assign_dest k (cloneUnlessOtherwiseSpecified sv) destination
                 | None => assign_dest k (cloneUnlessOtherwiseSpecified sv) destination
                 end) ;;
      mergeKeys source' d
  end.
End MergeObject.

Fixpoint deepmerge (target source : json) {struct source} : result json :=
  match source with
  | JArray ss =>
      match target with
      | JArray ts => Ok (JArray (map cloneUnlessOtherwiseSpecified (ts ++ ss)%list))
      | _ => Ok (cloneUnlessOtherwiseSpecified source)
      end
  | JObject so =>
      match target with
      | JArray _ => Ok (cloneUnlessOtherwiseSpecified source)
      | _ =>
          d0 <- clone_target target ;;
          d <- mergeKeys deepmerge target so d0 ;;
          Ok (JObject d)
      end
  | JNull =>
      match target with
      | JArray _ => Ok JNull
      | _ => Throw (TypeError "Cannot convert undefined or null to object")
      end
  | JString s =>
      match target with
      | JArray _ => Ok source
      | _ =>
          d0 <- clone_target target ;;
          d <- fold_left
                 (fun acc kv =>
                    d <- acc ;;
                    if propertyIsUnsafe target (fst kv) then Ok d
                    else assign_dest (fst kv) (snd kv) d)
                 (index_entries (map (fun c => JString (str c)) (list_ascii_of_string s)))
                 (Ok d0) ;;
          Ok (JObject d)
      end
  | JBool _ | JNumber _ =>
      match target with
      | JArray _ => Ok source
      | _ => d0 <- clone_target target ;; Ok (JObject d0)
      end
  end.

(** [deepmerge.all(array)] *)
Definition deepmerge_all (array : list json) : result json :=
  fold_left (fun acc next => prev <- acc ;; deepmerge prev next) array (Ok (JObject [])).

(** [Object.assign({}, ...sources)] *)
Definition Object_assign (sources : list json) : result json :=
  d <- fold_left
         (fun acc source =>
            match own_entries source with
            | None => acc
            | Some es =>
                fold_left (fun acc kv => d <- acc ;; assign_dest (fst kv) (snd kv) d) es acc
            end)
         sources (Ok []) ;;
  Ok (JObject d).

(** ** sortByKeys *)

(** [Object.keys(src).sort().reduce((obj, key) => { obj[key] = src[key];
    return obj }, {})].  A prototype that the assignment to [__proto__]
    installs holds data properties only, which leave the later
    assignments and the serialization as they are, so [obj_assign] is
    exact here. *)
Definition sortByKeys (src : json) : result json :=
  match own_entries src with
  | None => Throw (TypeError "Cannot convert undefined or null to object")
  | Some es =>
      Ok (JObject
            (fold_left
               (fun o key =>
                  match obj_get key es with
                  | Some v => obj_assign key v o
                  | None => o
                  end)
               (js_sort (obj_keys es)) []))
  end.

(** ** Data model *)

Module Config.
Record t : Type := mk { outDir : option string; scope : option string }.
End Config.

Module TemplateVariant.
Record t : Type := mk {
  displayName : string;
  description : option string;
  required : option bool;
  scripts : option (list string);
  files : list string
}.
End TemplateVariant.

Module TemplateFiles.
Record t : Type := mk { mergeMethod : option string }.
End TemplateFiles.

Module Template.
Record t : Type := mk {
  displayName : string;
  description : option string;
  variants : obj TemplateVariant.t;
  (* optional in the schema, so absent at run time for some templates *)
  files : option (obj TemplateFiles.t)
}.
End Template.

Module LoadedTemplate.
Record t : Type := mk {
  config : Template.t;
  id : string;
  directory : string;
  variantFiles : obj (obj string)
}.
Definition variants (x : t) := Template.variants (config x).
Definition files (x : t) := Template.files (config x).
End LoadedTemplate.

Module SourceFileInfo.
Record t : Type := mk { variant : string; sourceText : string }.
End SourceFileInfo.

Module MergedFileInfo.
Record t : Type := mk { contributingVariants : list string; sourceText : string }.
End MergedFileInfo.

(** ** The host *)

(** What a custom merger hands back: a value with the shape of a JSON
    value, or something that has none ([undefined], a function, ...). *)
Inductive custom_value : Type :=
| Data (v : json)
| NotData.

(** An element of the [sources] array as a custom merger leaves it: an
    object whose [variant] is a string, [null], [undefined], or anything
    else. *)
Inductive left_source : Type :=
| Variant (variant : string)
| Null
| Undefined
| Foreign.

(** The default export of a merger module.  A callable export is
    called with the [sources] array itself, which it may change: it
    yields what it returns together with the array as it leaves it;
    [None] is a call that throws. *)
Inductive export : Type :=
| NotCallable
| Callable (f : list SourceFileInfo.t -> option (custom_value * list left_source)).


Record Host : Type := {
  existsSync : string -> bool;
  (* [(await stat(p)).isDirectory()]; [None] when [stat] rejects *)
  stat_isDirectory : string -> option bool;
  readdir : string -> option (list string);
  readFile : string -> option string;
  path_join : string -> string -> string;
  path_resolve : string -> string -> string;
  (* [(await import(p)).default]; [None] when the import rejects *)
  import_default : string -> option export
}.

Definition host_call {A : Type} (r : option A) : result A :=
  match r with
  | Some a => Ok a
  | None => Throw SystemError
  end.

(** ** Schema of a custom merger's result *)

Definition is_string (v : json) : bool :=
  match v with JString _ => true | _ => false end.

Definition is_string_array (v : json) : bool :=
  match v with JArray l => forallb is_string l | _ => false end.

(** A property that is absent satisfies the [properties] keyword. *)
Definition property_ok (check : json -> bool) (k : string) (o : obj json) : bool :=
  match obj_get k o with
  | Some v => check v
  | None => true
  end.

(** [ajv.compile(customResultSchema)] *)
Definition isValid_customResult (v : json) : bool :=
  match v with
  | JString _ => true
  | JObject o =>
      obj_has "sourceText" o && obj_has "contributingVariants" o
      && property_ok is_string "sourceText" o
      && property_ok is_string_array "contributingVariants" o
  | _ => false
  end.

Definition strings_of (l : list json) : list string :=
  flat_map (fun v => match v with JString s => [s] | _ => [] end) l.

(** A validated object result read as a [MergedFileInfo]. *)
Definition as_MergedFileInfo (o : obj json) : MergedFileInfo.t :=
  MergedFileInfo.mk
    (match obj_get "contributingVariants" o with
     | Some (JArray l) => strings_of l
     | _ => []
     end)
    (match obj_get "sourceText" o with
     | Some (JString s) => s
     | _ => EmptyString
     end).

(** ** The merge engine *)

Definition getFullName (config : Config.t) (input : string) : string :=
  match Config.scope config with
  | Some scope =>
      if String.eqb scope EmptyString then input else scope ++ "/" ++ input
  | None => input
  end.

Definition isCustomMergeMethod (mergeMethod : string) : bool :=
  startsWith "custom:" mergeMethod.

(** [template.files[path]?.mergeMethod]; without a [files] section the
    index expression itself throws. *)
Definition lookup_mergeMethod (template : LoadedTemplate.t) (path : string)
  : result (option string) :=
  match LoadedTemplate.files template with
  | None =>
      Throw (TypeError ("Cannot read properties of undefined (reading '" ++ path ++ "')"))
  | Some files =>
      Ok (match obj_get path files with
          | Some f => TemplateFiles.mergeMethod f
          | None => None
          end)
  end.

Definition string_truthy (s : option string) : bool :=
  match s with
  | Some s => negb (String.eqb s EmptyString)
  | None => false
  end.

Definition variants_of (sources : list SourceFileInfo.t) : list string :=
  map SourceFileInfo.variant sources.

Definition parse_sources (sources : list SourceFileInfo.t) : result (list json) :=
  mapM (fun source => JSON_parse (SourceFileInfo.sourceText source)) sources.

(** [sources.map(source => source.variant)] on the array that a custom
    merger was called with.  Reading [variant] off [null] or [undefined]
    throws; a value read that is no string leaves the fragment. *)
Definition variants_left (sources : list left_source) : result (list string) :=
  mapM (fun source =>
          match source with
          | Variant variant => Ok variant
          | Null => Throw (TypeError "Cannot read properties of null (reading 'variant')")
          | Undefined =>
              Throw (TypeError "Cannot read properties of undefined (reading 'variant')")
          | Foreign => Unmodelled
          end)
    sources.

Definition mergeCustom (h : Host) (template : LoadedTemplate.t)
    (mergeMethod : string) (sources : list SourceFileInfo.t)
  : result MergedFileInfo.t :=
  let customMerger := substring_from (String.length "custom:") mergeMethod in
  let modulePath := path_join h (LoadedTemplate.directory template) customMerger in
  module <- host_call (import_default h modulePath) ;;
  match module with
  | NotCallable =>
      Throw (AssertionError
               ("Invalid custom merger `" ++ customMerger
                  ++ "`: default export is not a function"))
  | Callable f =>
      called <- host_call (f sources) ;;
      let result := fst called in
      (* from here on [sources] is the array as the call left it *)
      let sources := snd called in
      let invalid :=
        ValidationError ("Invalid custom merger `" ++ customMerger ++ "`: invalid result: ") in
      match result with
      | NotData => Throw invalid
      | Data v =>
          if isValid_customResult v then
            match v with
            | JString text =>
                contributingVariants <- variants_left sources ;;
                Ok (MergedFileInfo.mk contributingVariants text)
            | JObject o => Ok (as_MergedFileInfo o)
            | _ => Throw invalid
            end
          else Throw invalid
      end
  end.

Definition mergeFiles (h : Host) (template : LoadedTemplate.t) (path : string)
    (sources : list SourceFileInfo.t) : result MergedFileInfo.t :=
  match sources with
  | [] => Throw (Error "Sources length is zero. This shouldn't happen D:")
  | [source] =>
      Ok (MergedFileInfo.mk [SourceFileInfo.variant source]
            (SourceFileInfo.sourceText source))
  | source0 :: _ =>
      declared <- lookup_mergeMethod template path ;;
      _ <- assert (string_truthy declared) ("Missing merge method for " ++ path) ;;
      let mergeMethod := match declared with Some m => m | None => EmptyString end in
      if String.eqb mergeMethod "json" then
        jsonSources <- parse_sources sources ;;
        merged <- deepmerge_all jsonSources ;;
        Ok (MergedFileInfo.mk (variants_of sources) (JSON_stringify_2 merged))
      else if String.eqb mergeMethod "json-shallow" then
        jsonSources <- parse_sources sources ;;
        merged <- Object_assign jsonSources ;;
        Ok (MergedFileInfo.mk (variants_of sources) (JSON_stringify_2 merged))
      else if String.eqb mergeMethod "last" then
        let source := last sources source0 in
        Ok (MergedFileInfo.mk [SourceFileInfo.variant source]
              (SourceFileInfo.sourceText source))
      else if isCustomMergeMethod mergeMethod then
        mergeCustom h template mergeMethod sources
      else Throw (Error ("Invalid merge method for " ++ path))
  end.

(** ** Variant activation *)

Definition is_required (v : TemplateVariant.t) : bool :=
  match TemplateVariant.required v with
  | Some b => b
  | None => false
  end.

Definition required_ids (template : LoadedTemplate.t) : list string :=
  map fst (filter (fun kv => is_required (snd kv)) (LoadedTemplate.variants template)).

Definition getVariantIdsWithRequired (variantIds : list string)
    (template : LoadedTemplate.t) : list string :=
  (variantIds ++ required_ids template)%list.

(** ** Collection and the merge loop of [run] *)

(** The [files] map of [run]: paths in first-insertion order, each with
    the array its sources are pushed on. *)
Definition file_map : Type := list (string * list SourceFileInfo.t).

Fixpoint push_source (path : string) (s : SourceFileInfo.t) (files : file_map) : file_map :=
  match files with
  | [] => [(path, [s])]
  | (p, arr) :: files' =>
      if String.eqb path p then (p, (arr ++ [s])%list) :: files'
      else (p, arr) :: push_source path s files'
  end.

Definition appliedVariantFiles (template : LoadedTemplate.t)
    (variantIdsWithRequired : list string) : obj (obj string) :=
  filter (fun kv => includes (fst kv) variantIdsWithRequired)
    (LoadedTemplate.variantFiles template).

Definition collect_variant (variantName : string) (variantFiles : obj string)
    (files : file_map) : file_map :=
  fold_left
    (fun files kv => push_source (fst kv) (SourceFileInfo.mk variantName (snd kv)) files)
    variantFiles files.

(** Lines 727-740 of [run]: the map after both loops. *)
Definition collect (template : LoadedTemplate.t) (variantIdsWithRequired : list string)
  : file_map :=
  fold_left (fun files kv => collect_variant (fst kv) (snd kv) files)
    (appliedVariantFiles template variantIdsWithRequired) [].

Definition internal_node (config : Config.t) (packageName : string) : SourceFileInfo.t :=
  SourceFileInfo.mk "internal.node"
    (JSON_stringify
       (JObject [ ("name", JString (getFullName config packageName));
                  ("version", JString "0.1.0") ])).

(** The sources handed to [mergeFiles] for one entry of the map. *)
Definition merge_input (config : Config.t) (packageName : string)
    (entry : string * list SourceFileInfo.t) : list SourceFileInfo.t :=
  if String.eqb (fst entry) "package.json"
  then internal_node config packageName :: snd entry
  else snd entry.

(** [if (json[key]) json[key] = sortByKeys(json[key])] *)
Definition sort_category (key : string) (o : obj json) : result (obj json) :=
  match obj_get key o with
  | Some v =>
      if truthy v then sorted <- sortByKeys v ;; Ok (obj_replace key sorted o)
      else Ok o
  | None => Ok o
  end.

Definition dependency_categories : list string :=
  [ "dependencies"; "devDependencies"; "peerDependencies"; "optionalDependencies" ].

(** Lines 761-785 of [run] on the parsed manifest. *)
Definition sort_dependencies (fileSourceJson : json) : result json :=
  match fileSourceJson with
  | JNull => Throw (TypeError "Cannot read properties of null (reading 'dependencies')")
  | JObject o =>
      o' <- fold_left (fun acc key => o <- acc ;; sort_category key o)
              dependency_categories (Ok o) ;;
      Ok (JObject o')
  | _ => Ok fileSourceJson
  end.

(** Lines 760-788: the text written for [path] after the merge. *)
Definition finish_file (path : string) (fileSource : MergedFileInfo.t)
  : result MergedFileInfo.t :=
  if String.eqb path "package.json" then
    fileSourceJson <- JSON_parse (MergedFileInfo.sourceText fileSource) ;;
    sorted <- sort_dependencies fileSourceJson ;;
    Ok (MergedFileInfo.mk (MergedFileInfo.contributingVariants fileSource)
          (JSON_stringify_2 sorted))
  else Ok fileSource.

(** Lines 744-788 for one entry of the map: the key of the entry and
    [fileSource] as it is when the output path is computed. *)
Definition run_file (h : Host) (config : Config.t) (template : LoadedTemplate.t)
    (packageName : string) (entry : string * list SourceFileInfo.t)
  : result (string * MergedFileInfo.t) :=
  fileSource <- mergeFiles h template (fst entry) (merge_input config packageName entry) ;;
  written <- finish_file (fst entry) fileSource ;;
  Ok (fst entry, written).

(** The output side of a run: the output directory ([saveLocation],
    line 708), [dirname] of the [path] module, and the calls whose
    outcome depends on what the loop did before.  These take the number
    of the round, counted from 0: the [import] of a merger, the [mkdir]
    and the [writeFile] of round [n] see the disk as the rounds before
    left it. *)
Record Output : Type := {
  saveLocation : string;
  dirname : string -> string;
  (* [(await import(p)).default]; [None] when the import rejects *)
  import_in_round : nat -> string -> option export;
  (* [await mkdir(dir, {recursive: true})]; [None] when it rejects *)
  mkdir_recursive : nat -> string -> option unit;
  (* [await writeFile(p, text)]; [None] when it rejects *)
  writeFile : nat -> string -> string -> option unit
}.

(** The host as round [n] of the loop finds it. *)
Definition host_in_round (h : Host) (out : Output) (n : nat) : Host :=
  {| existsSync := existsSync h;
     stat_isDirectory := stat_isDirectory h;
     readdir := readdir h;
     readFile := readFile h;
     path_join := path_join h;
     path_resolve := path_resolve h;
     import_default := import_in_round out n |}.

(** A file that a run wrote: the key it has in the file map, the path
    it was written to, the variants credited for it and its text. *)
Module OutputFile.
Record t : Type := mk { path : string; outputPath : string; file : MergedFileInfo.t }.
End OutputFile.

(** Lines 790-794 in round [n]. *)
Definition write_file (h : Host) (out : Output) (n : nat) (path : string)
    (fileSource : MergedFileInfo.t) : result OutputFile.t :=
  let outputPath := path_join h (saveLocation out) path in
  _ <- host_call (mkdir_recursive out n (dirname out outputPath)) ;;
  _ <- host_call (writeFile out n outputPath (MergedFileInfo.sourceText fileSource)) ;;
  Ok (OutputFile.mk path outputPath fileSource).

(** One round of the loop of lines 744-795. *)
Definition run_round (h : Host) (out : Output) (config : Config.t)
    (template : LoadedTemplate.t) (packageName : string)
    (round : nat * (string * list SourceFileInfo.t)) : result OutputFile.t :=
  merged <- run_file (host_in_round h out (fst round)) config template packageName
              (snd round) ;;
  write_file h out (fst round) (fst merged) (snd merged).

(** The entries of a map, each with the number of its round. *)
Definition rounds {A : Type} (l : list A) : list (nat * A) :=
  combine (seq 0 (length l)) l.

(** Lines 720-795 of [run], from the answers of the prompt: the files
    written under the output directory, in writing order. *)
Definition run (h : Host) (out : Output) (config : Config.t) (template : LoadedTemplate.t)
    (packageName : string) (variantIds : list string)
  : result (list OutputFile.t) :=
  let variantIdsWithRequired := getVariantIdsWithRequired variantIds template in
  mapM (run_round h out config template packageName)
    (rounds (collect template variantIdsWithRequired)).

(** ** Schema of a template definition *)

Definition is_boolean (v : json) : bool :=
  match v with JBool _ => true | _ => false end.

(** The [oneOf] of [mergeMethod]: its four branches exclude one
    another, so exactly one holds as soon as one does. *)
Definition isValid_mergeMethod (v : json) : bool :=
  match v with
  | JString s =>
      let branches :=
        [ String.eqb s "json"; String.eqb s "json-shallow"; String.eqb s "last";
          startsWith "custom:" s ] in
      Nat.eqb (length (filter (fun b => b) branches)) 1
  | _ => false
  end.

Definition isValid_variant (v : json) : bool :=
  match v with
  | JObject o =>
      obj_has "displayName" o && obj_has "files" o
      && property_ok is_string "displayName" o
      && property_ok is_string "description" o
      && property_ok is_boolean "required" o
      && property_ok is_string_array "scripts" o
      && property_ok is_string_array "files" o
  | _ => false
  end.

Definition isValid_files (v : json) : bool :=
  match v with
  | JObject o => property_ok isValid_mergeMethod "mergeMethod" o
  | _ => false
  end.

Definition all_properties (check : json -> bool) (v : json) : bool :=
  match v with
  | JObject o => forallb (fun kv => check (snd kv)) o
  | _ => false
  end.

(** [ajv.compile(templateSchema)] *)
Definition isValid_template (v : json) : bool :=
  match v with
  | JObject o =>
      obj_has "displayName" o && obj_has "variants" o
      && property_ok is_string "displayName" o
      && property_ok is_string "description" o
      && property_ok
           (fun vs =>
              all_properties isValid_variant vs
              && match vs with JObject p => Nat.leb 1 (length p) | _ => false end)
           "variants" o
      && property_ok (all_properties isValid_files) "files" o
  | _ => false
  end.

(** A validated definition read at its TypeScript type. *)
Definition get_string (k : string) (o : obj json) : option string :=
  match obj_get k o with
  | Some (JString s) => Some s
  | _ => None
  end.

Definition get_strings (k : string) (o : obj json) : option (list string) :=
  match obj_get k o with
  | Some (JArray l) => Some (strings_of l)
  | _ => None
  end.

Definition or_default {A : Type} (d : A) (x : option A) : A :=
  match x with Some a => a | None => d end.

Definition as_TemplateVariant (v : json) : TemplateVariant.t :=
  let o := match v with JObject o => o | _ => [] end in
  TemplateVariant.mk
    (or_default EmptyString (get_string "displayName" o))
    (get_string "description" o)
    (match obj_get "required" o with Some (JBool b) => Some b | _ => None end)
    (get_strings "scripts" o)
    (or_default [] (get_strings "files" o)).

Definition as_TemplateFiles (v : json) : TemplateFiles.t :=
  let o := match v with JObject o => o | _ => [] end in
  TemplateFiles.mk (get_string "mergeMethod" o).

Definition map_values {A B : Type} (f : A -> B) (o : obj A) : obj B :=
  map (fun kv => (fst kv, f (snd kv))) o.

Definition as_Template (v : json) : Template.t :=
  let o := match v with JObject o => o | _ => [] end in
  Template.mk
    (or_default EmptyString (get_string "displayName" o))
    (get_string "description" o)
    (match obj_get "variants" o with
     | Some (JObject vs) => map_values as_TemplateVariant vs
     | _ => []
     end)
    (match obj_get "files" o with
     | Some (JObject fs) => Some (map_values as_TemplateFiles fs)
     | _ => None
     end).

(** ** The template loader *)

(** [Map.prototype.set]: entries stay in first-insertion order. *)
Definition map_set {A : Type} (k : string) (v : A) (m : list (string * A))
  : list (string * A) :=
  if obj_has k m then obj_replace k v m else (m ++ [(k, v)])%list.

Definition variantLabel (variantId id : string) : string :=
  "variant `" ++ variantId ++ "` for template `" ++ id ++ "`".

(** The files of one variant.  The callbacks of [variant.files.map] run
    up to their first [await] before any read settles, so a missing
    file is reported before a failed read. *)
Definition load_files (h : Host) (label variantDirectory : string) (files : list string)
  : result (obj string) :=
  _ <- mapM (fun path =>
               assert (existsSync h (path_join h variantDirectory path))
                 ("Invalid " ++ label ++ ": the file " ++ path ++ " doesn't exist"))
         files ;;
  entries <- mapM (fun path =>
                     text <- host_call (readFile h (path_join h variantDirectory path)) ;;
                     Ok (path, text))
               files ;;
  Ok (obj_fromEntries entries).

(** One round of the loop over [Object.entries(templateConfig.variants)];
    the state is [variantFiles] and [usedVariantDisplayNames]. *)
Definition load_variant (h : Host) (id templateDirectory : string)
    (state : list (string * obj string) * list string)
    (entry : string * TemplateVariant.t)
  : result (list (string * obj string) * list string) :=
  let '(variantFiles, usedVariantDisplayNames) := state in
  let '(variantId, variant) := entry in
  let label := variantLabel variantId id in
  _ <- assert (negb (includes (TemplateVariant.displayName variant) usedVariantDisplayNames))
         ("Invalid " ++ label ++ ": the display name is already being used") ;;
  let used := TemplateVariant.displayName variant :: usedVariantDisplayNames in
  let variantDirectory := path_join h templateDirectory variantId in
  _ <- assert (existsSync h variantDirectory)
         ("Invalid " ++ label ++ ": its directory does not exist") ;;
  isDirectory <- host_call (stat_isDirectory h variantDirectory) ;;
  _ <- assert isDirectory ("Invalid " ++ label ++ ": its directory is not a directory") ;;
  files <- load_files h label variantDirectory (TemplateVariant.files variant) ;;
  Ok (map_set variantId files variantFiles, used).

Fixpoint foldM {S A : Type} (f : S -> A -> result S) (l : list A) (s : S) : result S :=
  match l with
  | [] => Ok s
  | a :: l' => s' <- f s a ;; foldM f l' s'
  end.

(** One round of the loop over the template directories; the state is
    [result] and [usedTemplateDisplayNames]. *)
Definition load_template (h : Host) (dir : string)
    (state : list (string * LoadedTemplate.t) * list string) (id : string)
  : result (list (string * LoadedTemplate.t) * list string) :=
  let '(loaded, usedTemplateDisplayNames) := state in
  let templateDirectory := path_resolve h dir id in
  isDirectory <- host_call (stat_isDirectory h templateDirectory) ;;
  _ <- assert isDirectory ("invalid template " ++ id ++ ": not a directory") ;;
  let configPath := path_join h templateDirectory "template.json" in
  _ <- assert (existsSync h configPath)
         ("Invalid template `" ++ id ++ "`: template.json does not exist") ;;
  templateConfigSource <- host_call (readFile h configPath) ;;
  parsed <- JSON_parse templateConfigSource ;;
  if isValid_template parsed then
    let templateConfig := as_Template parsed in
    _ <- assert (negb (includes (Template.displayName templateConfig) usedTemplateDisplayNames))
           ("Invalid template `" ++ id ++ "`: duplicate display name") ;;
    let used := Template.displayName templateConfig :: usedTemplateDisplayNames in
    '(variantFiles, _) <- foldM (load_variant h id templateDirectory)
                            (Template.variants templateConfig) ([], []) ;;
    Ok (map_set id
          (LoadedTemplate.mk templateConfig id templateDirectory (obj_fromEntries variantFiles))
          loaded,
        used)
  else Throw (ValidationError ("Invalid template `" ++ id ++ "`: invalid configuration: ")).

Definition readTemplates (h : Host) (dir : string) : result (obj LoadedTemplate.t) :=
  _ <- assert (existsSync h dir)
         "templates directory is missing in create-rpm-library configuration" ;;
  templateDirectories <- host_call (readdir h dir) ;;
  '(loaded, _) <- foldM (load_template h dir) templateDirectories ([], []) ;;
  Ok (obj_fromEntries loaded).

(** ** Reference notions used by the statements *)

(** The merge method declared for [path], when the template has a
    [files] section with an entry for [path] that carries one. *)
Definition declared_mergeMethod (template : LoadedTemplate.t) (path : string)
  : option string :=
  match LoadedTemplate.files template with
  | Some files =>
      match obj_get path files with
      | Some f => TemplateFiles.mergeMethod f
      | None => None
      end
  | None => None
  end.

(** The message of [e] names [path]: the path occurs in it. *)
Definition names_path (e : exn) (path : string) : Prop :=
  exists before after, exn_message e = Some (before ++ path ++ after).

(** [id] is the key of a variant of [template] flagged [required]. *)
(** Whether the variant that [template] has under the key [id] is
    flagged required. *)
Definition flagged_required (template : LoadedTemplate.t) (id : string) : bool :=
  match obj_get id (LoadedTemplate.variants template) with
  | Some v => is_required v
  | None => false
  end.

Definition required_variant (template : LoadedTemplate.t) (id : string) : Prop :=
  exists v, In (id, v) (LoadedTemplate.variants template) /\ is_required v = true.

(** The contributions to [path], read off a catalog: its variants in
    catalog order, the active ones kept, each with its text for [path]. *)
Definition contributions_of (active : list string) (path : string)
    (catalog : obj (obj string)) : list SourceFileInfo.t :=
  flat_map
    (fun kv =>
       if includes (fst kv) active
       then map (fun f => SourceFileInfo.mk (fst kv) (snd f))
              (filter (fun f => String.eqb path (fst f)) (snd kv))
       else [])
    catalog.

Definition contributions (template : LoadedTemplate.t) (active : list string)
    (path : string) : list SourceFileInfo.t :=
  contributions_of active path (LoadedTemplate.variantFiles template).

(** The array stored for [path], empty when the map has no entry. *)
Definition sources_at (path : string) (files : file_map) : list SourceFileInfo.t :=
  or_default [] (obj_get path files).

(** Every array in the map holds at least one source. *)
Definition nonempty_arrays (files : file_map) : Prop :=
  Forall (fun e => snd e <> []) files.

(** The catalog is a JavaScript object of JavaScript objects: no key
    occurs twice. *)
Definition catalog_ok (template : LoadedTemplate.t) : Prop :=
  NoDup (obj_keys (LoadedTemplate.variantFiles template))
  /\ Forall (fun kv => NoDup (obj_keys (snd kv))) (LoadedTemplate.variantFiles template).

(** ** Sample data *)

Module Sample.
Inductive node : Type :=
| File (text : string)
| Directory (entries : list string).

Definition join (a b : string) : string := a ++ "/" ++ b.

(** A host over a table of paths and a table of merger modules. *)
Definition host (disk : list (string * node)) (modules : list (string * export)) : Host :=
  {| existsSync := fun p => obj_has p disk;
     stat_isDirectory := fun p =>
       match obj_get p disk with
       | Some (Directory _) => Some true
       | Some (File _) => Some false
       | None => None
       end;
     readdir := fun p =>
       match obj_get p disk with
       | Some (Directory l) => Some l
       | _ => None
       end;
     readFile := fun p =>
       match obj_get p disk with
       | Some (File t) => Some t
       | _ => None
       end;
     path_join := join;
     path_resolve := join;
     import_default := fun p => obj_get p modules |}.

Definition bare : Host := host [] [].

Definition variant (name : string) (required : bool) (files : list string)
  : TemplateVariant.t :=
  TemplateVariant.mk name None (Some required) None files.

(** The manifests of two variants. *)
Definition base_manifest : string :=
  JSON_stringify
    (JObject [ ("dependencies", JObject [ ("b", JString "1"); ("a", JString "2") ]);
               ("keywords", JArray [ JString "x" ]) ]).

Definition extra_manifest : string :=
  JSON_stringify
    (JObject [ ("dependencies", JObject [ ("10", JString "3"); ("9", JString "4") ]);
               ("keywords", JArray [ JString "y" ]) ]).

(** A template with a required [base] variant and an optional [extra]
    one; both supply [package.json], [base] also a readme. *)
Definition template (files : option (obj TemplateFiles.t)) : LoadedTemplate.t :=
  LoadedTemplate.mk
    (Template.mk "Library" None
       [ ("base", variant "Base" true [ "package.json"; "README.md" ]);
         ("extra", variant "Extra" false [ "package.json" ]) ]
       files)
    "lib" "templates/lib"
    [ ("base", [ ("package.json", base_manifest); ("README.md", "# readme") ]);
      ("extra", [ ("package.json", extra_manifest) ]) ].

Definition method (m : string) : option (obj TemplateFiles.t) :=
  Some [ ("package.json", TemplateFiles.mk (Some m)) ].

(** A template with two required variants around an optional one. *)
Definition layered_template : LoadedTemplate.t :=
  LoadedTemplate.mk
    (Template.mk "Layered" None
       [ ("base", variant "Base" true [ "README.md" ]);
         ("extra", variant "Extra" false [ "README.md" ]);
         ("lint", variant "Lint" true [ "README.md" ]) ]
       (Some [ ("README.md", TemplateFiles.mk (Some "last")) ]))
    "layered" "templates/layered"
    [ ("base", [ ("README.md", "# base") ]);
      ("extra", [ ("README.md", "# extra") ]);
      ("lint", [ ("README.md", "# lint") ]) ].

(** A template whose only variant supplies no manifest. *)
Definition docs_template : LoadedTemplate.t :=
  LoadedTemplate.mk
    (Template.mk "Docs" None [ ("docs", variant "Docs" true [ "README.md" ]) ] None)
    "docs" "templates/docs"
    [ ("docs", [ ("README.md", "# docs") ]) ].

Definition config : Config.t := Config.mk None (Some "@acme").

Definition two_sources : list SourceFileInfo.t :=
  [ SourceFileInfo.mk "base" "one"; SourceFileInfo.mk "extra" "two" ].




(** A definition file and two configuration trees: one template, and
    two templates that carry the same definition. *)
Definition definition_text : string :=
  JSON_stringify
    (JObject
       [ ("displayName", JString "Library");
         ("variants",
          JObject
            [ ("base",
               JObject [ ("displayName", JString "Base");
                         ("required", JBool true);
                         ("files", JArray [ JString "package.json" ]) ]) ]);
         ("files",
          JObject [ ("package.json", JObject [ ("mergeMethod", JString "json") ]) ]) ]).

Definition template_tree (id : string) : list (string * node) :=
  [ (join "templates" id, Directory [ "template.json"; "base" ]);
    (join (join "templates" id) "template.json", File definition_text);
    (join (join "templates" id) "base", Directory [ "package.json" ]);
    (join (join (join "templates" id) "base") "package.json", File "{}") ].

Definition one_template : Host :=
  host (("templates", Directory [ "lib" ]) :: template_tree "lib") [].

Definition twin_templates : Host :=
  host (("templates", Directory [ "a"; "b" ]) :: template_tree "a" ++ template_tree "b")%list [].

(** The two manifests as sources of a merge, and as [JSON.parse]
    reads them. *)
Definition manifest_sources : list SourceFileInfo.t :=
  [ SourceFileInfo.mk "base" base_manifest; SourceFileInfo.mk "extra" extra_manifest ].

Definition manifest_objects : list (obj json) :=
  [ [ ("dependencies", JObject [ ("b", JString "1"); ("a", JString "2") ]);
      ("keywords", JArray [ JString "x" ]) ];
    [ ("dependencies", JObject [ ("9", JString "4"); ("10", JString "3") ]);
      ("keywords", JArray [ JString "y" ]) ] ].

Definition keyword_objects : list json :=
  [ JObject [ ("keywords", JArray [ JString "x" ]) ];
    JObject [ ("keywords", JArray [ JString "y" ]) ] ].

Definition keyword_sources : list SourceFileInfo.t :=
  [ SourceFileInfo.mk "base" (JSON_stringify (JObject [ ("keywords", JArray [ JString "x" ]) ]));
    SourceFileInfo.mk "extra" (JSON_stringify (JObject [ ("keywords", JArray [ JString "y" ]) ])) ].

(** A merged manifest with an index-keyed category beside an ordinary
    one. *)
Definition mixed_manifest : MergedFileInfo.t :=
  MergedFileInfo.mk [ "internal.node"; "base" ]
    (JSON_stringify
       (JObject [ ("dependencies", JObject [ ("10", JString "3"); ("9", JString "4") ]);
                  ("devDependencies", JObject [ ("b", JString "1"); ("a", JString "2") ]) ])).


Fixpoint has_slash (p : string) : bool :=
  match p with
  | EmptyString => false
  | String c r => Ascii.eqb c "/" || has_slash r
  end.

Fixpoint before_last_slash (p : string) : string :=
  match p with
  | EmptyString => EmptyString
  | String c r => if has_slash r then String c (before_last_slash r) else EmptyString
  end.

(** [dirname] on a relative path that does not end in a slash. *)
Definition parent (p : string) : string :=
  if has_slash p then before_last_slash p else ".".

(** A definition that declares the variant [b] before the variant [1];
    both supply [notes.txt], which is merged by [last]. *)
Definition numbered_definition : string :=
  JSON_stringify
    (JObject
       [ ("displayName", JString "Numbered");
         ("variants",
          JObject
            [ ("b",
               JObject [ ("displayName", JString "B");
                         ("files", JArray [ JString "notes.txt" ]) ]);
              ("1",
               JObject [ ("displayName", JString "One");
                         ("files", JArray [ JString "notes.txt" ]) ]) ]);
         ("files",
          JObject [ ("notes.txt", JObject [ ("mergeMethod", JString "last") ]) ]) ]).

Definition numbered : Host :=
  host
    [ ("templates", Directory [ "num" ]);
      ("templates/num", Directory [ "template.json"; "b"; "1" ]);
      ("templates/num/template.json", File numbered_definition);
      ("templates/num/b", Directory [ "notes.txt" ]);
      ("templates/num/b/notes.txt", File "from b");
      ("templates/num/1", Directory [ "notes.txt" ]);
      ("templates/num/1/notes.txt", File "from 1") ]
    [].

(** A template whose variant lists one file under two spellings, and a
    host whose [join] drops a leading [./] as [path.join] does. *)
Definition respelled_template : LoadedTemplate.t :=
  LoadedTemplate.mk
    (Template.mk "Respelled" None
       [ ("base", variant "Base" true [ "a.txt"; "./a.txt" ]) ] None)
    "respelled" "templates/respelled"
    [ ("base", [ ("a.txt", "first"); ("./a.txt", "second") ]) ].

Definition normalising : Host :=
  {| existsSync := fun _ => false;
     stat_isDirectory := fun _ => None;
     readdir := fun _ => None;
     readFile := fun _ => None;
     path_join := fun a b =>
       match b with
       | String "." (String "/" rest) => join a rest
       | _ => join a b
       end;
     path_resolve := join;
     import_default := fun _ => None |}.

(** An output directory in which every call succeeds, over the merger
    modules of a host. *)
Definition output (h : Host) : Output :=
  {| saveLocation := "packages/pkg";
     dirname := parent;
     import_in_round := fun _ => import_default h;
     mkdir_recursive := fun _ _ => Some tt;
     writeFile := fun _ _ _ => Some tt |}.
End Sample.

(** ** Enumeration order *)

(** [a] may come before [b] among the keys of an ordinary object: array
    indices ascending, then the other keys. *)
Definition key_before (a b : string) : Prop :=
  match array_index a, array_index b with
  | Some n, Some m => (n < m)%N
  | Some _, None => True
  | None, Some _ => False
  | None, None => True
  end.

(** A property list as an ordinary object enumerates it: no key twice,
    keys in enumeration order. *)
Definition canonical {A : Type} (o : obj A) : Prop :=
  NoDup (obj_keys o) /\ StronglySorted key_before (obj_keys o).


(** ** Sorted dependency objects *)

(** Ascending code unit order. *)
Definition str_le (a b : string) : Prop := String.leb a b = true.

(** A key that keeps the position [sortByKeys] gives it: no array index,
    which an object enumerates first whatever the insertion order, and
    not [__proto__], which an assignment does not create. *)
Definition sortable_key (k : string) : bool :=
  negb (String.eqb k "__proto__")
  && match array_index k with Some _ => false | None => true end.

(** The properties of [d] with the keys in ascending order and the
    values as they were. *)
Definition sorted_entries (d : obj json) : obj json :=
  map (fun k => (k, or_default JNull (obj_get k d))) (js_sort (obj_keys d)).

(** What lines 763-785 of [run] leave in a dependency category. *)
Definition sort_value (v : json) : json :=
  if truthy v then match sortByKeys v with Ok s => s | _ => v end else v.


(** ** Well-formed and plain values *)

(** Every object inside the value is in enumeration order; this is so
    for what [JSON.parse] returns. *)
Fixpoint wf (v : json) : Prop :=
  match v with
  | JArray l =>
      (fix all (l : list json) : Prop :=
         match l with
         | [] => True
         | x :: r => wf x /\ all r
         end) l
  | JObject o =>
      canonical o
      /\ (fix all (o : list (string * json)) : Prop :=
            match o with
            | [] => True
            | kv :: r => wf (snd kv) /\ all r
            end) o
  | _ => True
  end.

(** No key inside the value is the name of a member of
    [Object.prototype]. *)
Fixpoint plain (v : json) : bool :=
  match v with
  | JArray l => forallb plain l
  | JObject o => forallb (fun kv => negb (on_prototype (fst kv)) && plain (snd kv)) o
  | _ => true
  end.

(** ** The deep merge in the words of its description

    Two objects merge key by key: a key of both holds the merge of the
    two values, a key of one holds its value; the keys of the earlier
    object keep their places and the new keys of the later one follow.
    Two arrays are concatenated.  In every other case the later value
    stands. *)

Section MergeMembers.
Variable merge : json -> json -> json.
Variable earlier : obj json.

Fixpoint merge_members (later : list (string * json)) (acc : obj json) : obj json :=
  match later with
  | [] => acc
  | (k, lv) :: later' =>
      merge_members later'
        (obj_set k
           (match obj_get k earlier with
            | Some ev => merge ev lv
            | None => lv
            end)
           acc)
  end.
End MergeMembers.

Fixpoint json_merge (earlier later : json) {struct later} : json :=
  match later with
  | JObject lo =>
      match earlier with
      | JObject eo => JObject (merge_members json_merge eo lo eo)
      | _ => later
      end
  | JArray ll =>
      match earlier with
      | JArray el => JArray (el ++ ll)%list
      | _ => later
      end
  | _ => later
  end.

(** The same with arrays treated like every other value, as the
    specification describes the merge. *)
Fixpoint json_merge_replacing (earlier later : json) {struct later} : json :=
  match later with
  | JObject lo =>
      match earlier with
      | JObject eo => JObject (merge_members json_merge_replacing eo lo eo)
      | _ => later
      end
  | _ => later
  end.


(** An object that is in enumeration order, with plain keys and
    well-formed plain values. *)
Definition clean_object (o : obj json) : Prop :=
  canonical o
  /\ Forall (fun kv => wf (snd kv)) o
  /\ Forall (fun kv => on_prototype (fst kv) = false /\ plain (snd kv) = true) o.

(** What the merge does on a well-formed, plain later value that is an
    object or an array. *)
Definition merges_as_described (later : json) : Prop :=
  wf later -> plain later = true -> isMergeableObject later = true ->
  forall earlier, wf earlier -> plain earlier = true ->
    deepmerge earlier later = Ok (json_merge earlier later)
    /\ wf (json_merge earlier later)
    /\ plain (json_merge earlier later) = true.


(** ** The checks of the loader *)

(** A variant passes the loader: its directory is there and is a
    directory, and each file it declares is there and can be read. *)
Definition variant_loads (h : Host) (templateDirectory : string)
    (entry : string * TemplateVariant.t) : Prop :=
  let variantDirectory := path_join h templateDirectory (fst entry) in
  existsSync h variantDirectory = true
  /\ stat_isDirectory h variantDirectory = Some true
  /\ Forall
       (fun path =>
          existsSync h (path_join h variantDirectory path) = true
          /\ readFile h (path_join h variantDirectory path) <> None)
       (TemplateVariant.files (snd entry)).

Definition variant_displayNames (variants : obj TemplateVariant.t) : list string :=
  map (fun kv => TemplateVariant.displayName (snd kv)) variants.

(** A template directory passes the loader with the definition
    [definition]: it is a directory, its [template.json] is there, can
    be read, parses as [definition] and passes the schema, the display
    names of its variants are distinct, and every variant passes. *)
Definition template_loads (h : Host) (dir id : string) (definition : json) : Prop :=
  let templateDirectory := path_resolve h dir id in
  let configPath := path_join h templateDirectory "template.json" in
  stat_isDirectory h templateDirectory = Some true
  /\ existsSync h configPath = true
  /\ (exists text, readFile h configPath = Some text /\ JSON_parse text = Ok definition)
  /\ isValid_template definition = true
  /\ NoDup (variant_displayNames (Template.variants (as_Template definition)))
  /\ Forall (variant_loads h templateDirectory) (Template.variants (as_Template definition)).

Definition template_displayNames (definitions : list json) : list string :=
  map (fun d => Template.displayName (as_Template d)) definitions.

(** The templates directory passes the loader: it is there, it can be
    listed, every entry passes, and the display names of the templates
    are distinct. *)
Definition templates_load (h : Host) (dir : string) : Prop :=
  existsSync h dir = true
  /\ exists ids definitions,
       readdir h dir = Some ids
       /\ Forall2 (template_loads h dir) ids definitions
       /\ NoDup (template_displayNames definitions).

(** Every definition file under [dir] stays within the numbers and
    strings that the embedding of [JSON.parse] covers. *)
Definition definitions_modelled (h : Host) (dir : string) : Prop :=
  forall ids id text,
    readdir h dir = Some ids -> In id ids ->
    readFile h (path_join h (path_resolve h dir id) "template.json") = Some text ->
    JSON_parse text <> Unmodelled.

(** A declared file of some variant of some template under [dir] is
    absent. *)
Definition declared_file_absent (h : Host) (dir : string) : Prop :=
  exists ids id text definition variantId variant path,
    readdir h dir = Some ids /\ In id ids
    /\ readFile h (path_join h (path_resolve h dir id) "template.json") = Some text
    /\ JSON_parse text = Ok definition
    /\ In (variantId, variant) (Template.variants (as_Template definition))
    /\ In path (TemplateVariant.files variant)
    /\ existsSync h
         (path_join h (path_join h (path_resolve h dir id) variantId) path) = false.

(** The definition of some template under [dir] fails the schema. *)
Definition definition_invalid (h : Host) (dir : string) : Prop :=
  exists ids id text definition,
    readdir h dir = Some ids /\ In id ids
    /\ readFile h (path_join h (path_resolve h dir id) "template.json") = Some text
    /\ JSON_parse text = Ok definition
    /\ isValid_template definition = false.


(** A template as the loader builds it: the catalog lists the variants
    of the definition, in the order the definition enumerates them, and
    no key occurs twice in it. *)
Definition loaded_ok (template : LoadedTemplate.t) : Prop :=
  obj_keys (LoadedTemplate.variantFiles template) = obj_keys (LoadedTemplate.variants template)
  /\ catalog_ok template.


(** The variant [id] of the catalog supplies [path]. *)
Definition supplies (template : LoadedTemplate.t) (id path : string) : bool :=
  match obj_get id (LoadedTemplate.variantFiles template) with
  | Some files => obj_has path files
  | None => false
  end.


(** A string literal as [quote] writes it, followed by [rest]. *)
Definition quoted (s rest : string) : string :=
  String dquote (quote_chars s ++ String dquote rest).

(** ** Shortened path names *)

(** [s.endsWith(t)]: some suffix of [s] is [t]. *)
Fixpoint endsWith (t s : string) : bool :=
  String.eqb t s
  || match s with
     | String _ r => endsWith t r
     | EmptyString => false
     end.

(** [s.split(sep)] for a separator of one character. *)
Fixpoint split (sep : ascii) (s : string) : list string :=
  match s with
  | EmptyString => [EmptyString]
  | String c r =>
      let parts := split sep r in
      if Ascii.eqb c sep then EmptyString :: parts
      else String c (hd EmptyString parts) :: tl parts
  end.

(** [getShortPathName]; [pathSeparator] is [path.sep], a slash or a
    backslash with the platform. *)
Definition getShortPathName (pathSeparator : ascii) (absolutePath : string) : string :=
  let endsWithSlash := endsWith (str pathSeparator) absolutePath in
  let normalisedPath :=
    if endsWithSlash
    then substring 0 (String.length absolutePath - 1) absolutePath
    else absolutePath in
  let parts := split pathSeparator normalisedPath in
  if Nat.ltb (length parts) 7 then absolutePath
  else
    let firstParts := firstn 4 parts in
    let lastParts := skipn (length parts - 3) parts in
    let result := join (str pathSeparator) (firstParts ++ "..." :: lastParts)%list in
    if endsWithSlash then result ++ "/" else result.

(** The path that [getShortPathName] splits, and its segments. *)
Definition normalised (sep : ascii) (path : string) : string :=
  if endsWith (str sep) path then substring 0 (String.length path - 1) path else path.

Definition segments (sep : ascii) (path : string) : list string :=
  split sep (normalised sep path).

(** No character of [s] is [sep]. *)
Fixpoint sep_free (sep : ascii) (s : string) : bool :=
  match s with
  | EmptyString => true
  | String c r => negb (Ascii.eqb c sep) && sep_free sep r
  end.

(** ** Locating and reading the configuration *)

(** What the loader reads besides the file system: [process.cwd()] and
    [path.dirname]. *)
Record Process : Type := {
  cwd : string;
  path_dirname : string -> string
}.

(** The loop of [findConfig] from [directory]; [fuel] bounds the number
    of directories visited. *)
Fixpoint findConfig_from (h : Host) (p : Process) (fuel : nat) (directory : string)
  : option (result string) :=
  match fuel with
  | O => None
  | S fuel' =>
      match host_call (readdir h directory) with
      | Ok files =>
          if includes ".crpml" files then
            let crpmlPath := path_resolve h directory ".crpml" in
            Some (isDirectory <- host_call (stat_isDirectory h crpmlPath) ;;
                  _ <- assert isDirectory
                         ("Found .crpml that is not a directory, in " ++ directory) ;;
                  Ok crpmlPath)
          else
            let next := path_dirname p directory in
            if String.eqb directory next
            then Some (Throw (Error "Could not find create-rpm-library configuration"))
            else findConfig_from h p fuel' next
      | Throw e => Some (Throw e)
      | Unmodelled => Some Unmodelled
      end
  end.

Definition findConfig (h : Host) (p : Process) (fuel : nat) : option (result string) :=
  findConfig_from h p fuel (cwd p).

(** [ajv.compile(configSchema)]: [nullable] lets [null] pass beside a
    string, and [pattern] constrains strings only. *)
Definition isValid_config (v : json) : bool :=
  match v with
  | JObject o =>
      property_ok
        (fun x => match x with JNull | JString _ => true | _ => false end) "outDir" o
      && property_ok
           (fun x => match x with
                     | JNull => true
                     | JString s => startsWith "@" s
                     | _ => false
                     end)
           "scope" o
  | _ => false
  end.

(** A validated configuration read at its TypeScript type; a [null]
    counts as absent, which is how [??] and a truth test take it. *)
Definition as_Config (v : json) : Config.t :=
  let o := match v with JObject o => o | _ => [] end in
  Config.mk (get_string "outDir" o) (get_string "scope" o).

Definition readConfigFile (h : Host) (path : string) : result Config.t :=
  _ <- assert (existsSync h path)
         "config.json is missing in create-rpm-library configuration" ;;
  source <- host_call (readFile h path) ;;
  config <- JSON_parse source ;;
  if isValid_config config then Ok (as_Config config)
  else Throw (ValidationError "Invalid configuration: ").

Module LoadedConfig.
Record t : Type := mk {
  directory : string;
  config : Config.t;
  templates : obj LoadedTemplate.t
}.
End LoadedConfig.

Definition loadConfig (h : Host) (p : Process) (fuel : nat)
  : option (result LoadedConfig.t) :=
  match findConfig h p fuel with
  | None => None
  | Some found =>
      Some (directory <- found ;;
            config <- readConfigFile h (path_join h directory "config.json") ;;
            templates <- readTemplates h (path_join h directory "templates") ;;
            Ok (LoadedConfig.mk (path_dirname p directory) config templates))
  end.

(** The directory [i] levels above [directory]. *)
Definition ancestor (p : Process) (i : nat) (directory : string) : string :=
  Nat.iter i (path_dirname p) directory.

(** Whether the listing of [directory] holds a [.crpml] entry. *)
Definition lists_config (h : Host) (directory : string) : option bool :=
  option_map (includes ".crpml") (readdir h directory).

(** A field of a configuration object as the schema lets it be: absent
    or [null], which reads as no value, or a string that passes [ok]. *)
Definition config_field (o : obj json) (k : string) (ok : string -> bool)
    (field : option string) : Prop :=
  match obj_get k o with
  | None | Some JNull => field = None
  | Some (JString s) => ok s = true /\ field = Some s
  | Some _ => False
  end.

(** A workspace on disk: a configuration directory two levels above the
    working directory, with one template. *)
Module Workspace.
Definition config_text : string :=
  JSON_stringify (JObject [ ("scope", JString "@acme"); ("outDir", JNull) ]).

Definition disk : list (string * Sample.node) :=
  [ ("/", Sample.Directory [ "ws" ]);
    ("/ws", Sample.Directory [ ".crpml"; "packages" ]);
    ("/ws/packages", Sample.Directory [ "old" ]);
    ("/ws/packages/old", Sample.Directory []);
    ("/ws/.crpml", Sample.Directory [ "config.json"; "templates" ]);
    ("/ws/.crpml/config.json", Sample.File config_text);
    ("/ws/.crpml/templates", Sample.Directory [ "lib" ]);
    ("/ws/.crpml/templates/lib", Sample.Directory [ "template.json"; "base" ]);
    ("/ws/.crpml/templates/lib/template.json", Sample.File Sample.definition_text);
    ("/ws/.crpml/templates/lib/base", Sample.Directory [ "package.json" ]);
    ("/ws/.crpml/templates/lib/base/package.json", Sample.File "{}") ].

Definition host : Host := Sample.host disk [].

Definition parents : list (string * string) :=
  [ ("/ws/packages/old", "/ws/packages"); ("/ws/packages", "/ws"); ("/ws", "/");
    ("/ws/.crpml", "/ws") ].

Definition process : Process :=
  {| cwd := "/ws/packages/old";
     path_dirname := fun d => or_default d (obj_get d parents) |}.

(** The same tree seen from a process that starts outside it. *)
Definition outside : Process :=
  {| cwd := "/"; path_dirname := fun d => or_default d (obj_get d parents) |}.
End Workspace.

(** ** What the loader leaves in a template *)

(** The catalog entry [files] of a variant holds the files that the
    variant declares, each with its text on disk. *)
Definition variant_catalogued (h : Host) (templateDirectory : string)
    (entry : string * TemplateVariant.t) (files : obj string) : Prop :=
  (forall path, In path (obj_keys files) <-> In path (TemplateVariant.files (snd entry)))
  /\ forall path text,
       obj_get path files = Some text ->
       readFile h (path_join h (path_join h templateDirectory (fst entry)) path) = Some text.

(** The catalog of a template follows its variants one by one. *)
Definition template_catalogued (h : Host) (t : LoadedTemplate.t) : Prop :=
  Forall2
    (fun entry e =>
       fst e = fst entry
       /\ variant_catalogued h (LoadedTemplate.directory t) entry (snd e))
    (LoadedTemplate.variants t) (LoadedTemplate.variantFiles t).

(** An entry of the loaded templates: the template carries its key and
    its directory, a definition that passed the schema, and a catalog
    that follows it. *)
Definition template_entry (h : Host) (dir : string) (kv : string * LoadedTemplate.t) : Prop :=
  LoadedTemplate.id (snd kv) = fst kv
  /\ LoadedTemplate.directory (snd kv) = path_resolve h dir (fst kv)
  /\ (exists definition,
        isValid_template definition = true
        /\ LoadedTemplate.config (snd kv) = as_Template definition)
  /\ template_catalogued h (snd kv).

(** ** Scripts and run configurations *)

(** [getScripts]: the scripts of the selected variants, the variants in
    the order of the definition. *)
Definition getScripts (template : LoadedTemplate.t) (selectedVariants : list string)
  : list string :=
  flat_map (fun kv => or_default [] (TemplateVariant.scripts (snd kv)))
    (filter (fun kv => includes (fst kv) selectedVariants)
       (LoadedTemplate.variants template)).

(** The class [[a-zA-Z0-9]]. *)
Definition is_alnum (c : ascii) : bool :=
  let n := nat_of_ascii c in
  (Nat.leb 97 n && Nat.leb n 122) || (Nat.leb 65 n && Nat.leb n 90)
  || (Nat.leb 48 n && Nat.leb n 57).

(** [s.replace(/[^a-zA-Z0-9]+/g, "_")]; [inside] tells that the
    character before this suffix was outside the class, so that the run
    it belongs to has its underscore already. *)
Fixpoint replace_runs (inside : bool) (s : string) : string :=
  match s with
  | EmptyString => EmptyString
  | String c r =>
      if is_alnum c then String c (replace_runs false r)
      else if inside then replace_runs true r
      else String "_" (replace_runs true r)
  end.

(** Lines 804 and 824 of [run]: the name of a run configuration and the
    last segment of the path it is written to. *)
Definition runConfiguration_name (packageName script : string) : string :=
  packageName ++ ":" ++ script.

Definition runConfiguration_fileName (packageName script : string) : string :=
  replace_runs false (runConfiguration_name packageName script) ++ ".xml".

(** A character that [replace_runs] may write. *)
Definition is_word (c : ascii) : bool := is_alnum c || Ascii.eqb c "_".

(** No two underscores in a row. *)
Fixpoint single_underscores (s : string) : bool :=
  match s with
  | String a ((String b _) as r) =>
      negb (Ascii.eqb a "_" && Ascii.eqb b "_") && single_underscores r
  | _ => true
  end.

(** ** Reference notions for the merge methods *)

(** The value of [k] in the last of the objects that has it. *)
Fixpoint shallow_lookup (k : string) (objects : list (obj json)) : option json :=
  match objects with
  | [] => None
  | o :: rest =>
      match shallow_lookup k rest with
      | Some v => Some v
      | None => obj_get k o
      end
  end.

(** A merge method that [mergeFiles] has a branch for. *)
Definition known_method (m : string) : Prop :=
  m = "json" \/ m = "json-shallow" \/ m = "last" \/ isCustomMergeMethod m = true.


(** The merge of two sources or more by the method [m]. *)
Definition merge_by (h : Host) (template : LoadedTemplate.t) (path m : string)
    (sources : list SourceFileInfo.t) : result MergedFileInfo.t :=
  if String.eqb m "json" then
    jsonSources <- parse_sources sources ;;
    merged <- deepmerge_all jsonSources ;;
    Ok (MergedFileInfo.mk (variants_of sources) (JSON_stringify_2 merged))
  else if String.eqb m "json-shallow" then
    jsonSources <- parse_sources sources ;;
    merged <- Object_assign jsonSources ;;
    Ok (MergedFileInfo.mk (variants_of sources) (JSON_stringify_2 merged))
  else if String.eqb m "last" then
    let source := last sources (SourceFileInfo.mk EmptyString EmptyString) in
    Ok (MergedFileInfo.mk [SourceFileInfo.variant source]
          (SourceFileInfo.sourceText source))
  else if isCustomMergeMethod m then mergeCustom h template m sources
  else Throw (Error ("Invalid merge method for " ++ path)).

(** ** The engine's own errors *)

(** An exception made by [new Error(...)]: the two internal errors of
    [mergeFiles] and the failed search of [findConfig]. *)
Definition is_Error (e : exn) : bool :=
  match e with
  | Error _ => true
  | _ => false
  end.

(** Every merge method that [template] declares has a branch in
    [mergeFiles]. *)
Definition methods_known (template : LoadedTemplate.t) : Prop :=
  forall path m, declared_mergeMethod template path = Some m -> known_method m.

(** ** Keys that are no array index *)

Definition non_index (k : string) : bool :=
  match array_index k with
  | None => true
  | Some _ => false
  end.

(** The keys of [o] that are no array index, in enumeration order. *)
Definition named_keys {A : Type} (o : obj A) : list string :=
  filter non_index (obj_keys o).

(** One step of the [reduce] of [sortByKeys] over the own properties
    [es] of its argument. *)
Definition sort_step (es : obj json) (o : obj json) (key : string) : obj json :=
  match obj_get key es with
  | Some v => obj_assign key v o
  | None => o
  end.

(** ** Values that the serializer and the parser agree on *)

From Stdlib Require Import DecimalPos DecimalN.

(** Every number inside the value is a safe integer, every object is in
    enumeration order. *)
Fixpoint safe_numbers (v : json) : Prop :=
  match v with
  | JNumber n => (Z.abs n <= Z.of_N max_safe_integer)%Z
  | JArray l =>
      (fix all (l : list json) : Prop :=
         match l with
         | [] => True
         | x :: r => safe_numbers x /\ all r
         end) l
  | JObject o =>
      (fix all (o : list (string * json)) : Prop :=
         match o with
         | [] => True
         | kv :: r => safe_numbers (snd kv) /\ all r
         end) o
  | _ => True
  end.

(** White space only. *)
Fixpoint blank (s : string) : bool :=
  match s with
  | EmptyString => true
  | String c r => is_ws c && blank r
  end.

(** What may follow a value in a serialized text: nothing, or a
    character that ends a number. *)
Definition delimited (rest : string) : bool :=
  match rest with
  | EmptyString => true
  | String c _ =>
      match digit_of c with
      | Some _ => false
      | None => negb (starts_fraction rest)
      end
  end.

(** The value of a digit sequence read after [acc]. *)
Fixpoint horner (d : Decimal.uint) (acc : N) : N :=
  match d with
  | Decimal.Nil => acc
  | Decimal.D0 l => horner l (10 * acc)
  | Decimal.D1 l => horner l (10 * acc + 1)
  | Decimal.D2 l => horner l (10 * acc + 2)
  | Decimal.D3 l => horner l (10 * acc + 3)
  | Decimal.D4 l => horner l (10 * acc + 4)
  | Decimal.D5 l => horner l (10 * acc + 5)
  | Decimal.D6 l => horner l (10 * acc + 6)
  | Decimal.D7 l => horner l (10 * acc + 7)
  | Decimal.D8 l => horner l (10 * acc + 8)
  | Decimal.D9 l => horner l (10 * acc + 9)
  end%N.

(** The parser reads [v] back from its indented serialization, whatever
    the indentation and whatever delimited text follows. *)
Definition reads_back (v : json) : Prop :=
  forall ind rest,
    blank ind = true -> delimited rest = true ->
    exists fuel0,
      forall fuel, fuel0 <= fuel ->
        parse_value fuel (stringify_indent ind v ++ rest) = Some (Ok (v, rest)).

(** ** The manifest of a run *)

(** The object behind the synthetic source. *)
Definition internal_object (config : Config.t) (packageName : string) : obj json :=
  [ ("name", JString (getFullName config packageName)); ("version", JString "0.1.0") ].

(** The value of [k] along the sources of a deep merge: each source
    that has the key merges its value into the one reached so far. *)
Definition merged_value (k : string) (objects : list (obj json)) (start : option json)
  : option json :=
  fold_left
    (fun current o =>
       match obj_get k o with
       | Some later =>
           Some (match current with
                 | Some earlier => json_merge earlier later
                 | None => later
                 end)
       | None => current
       end)
    objects start.

(** * Properties *)

(** ** Strings *)


(** ** The merge engine: one source, or no method *)

(** C6. A path with exactly one contribution is returned verbatim, with
    that one variant credited, whatever the host, the template and its
    [files] section: no merge method is looked up.  In a run this is
    every path with one supplier other than the manifest, which always
    has the synthetic source beside it. *)
Theorem mergeFiles_single_source (h : Host) (template : LoadedTemplate.t)
    (path : string) (source : SourceFileInfo.t) :
  mergeFiles h template path [source]
  = Ok (MergedFileInfo.mk [SourceFileInfo.variant source]
          (SourceFileInfo.sourceText source))
  /\ forall config packageName,
       run_file h config template packageName (path, [source])
       = if String.eqb path "package.json"
         then fileSource <- mergeFiles h template path
                              [internal_node config packageName; source] ;;
              written <- finish_file path fileSource ;;
              Ok (path, written)
         else Ok (path,
                  MergedFileInfo.mk [SourceFileInfo.variant source]
                    (SourceFileInfo.sourceText source)).
Proof.
  split; [reflexivity|]. intros config packageName.
  unfold run_file, merge_input, finish_file. simpl fst. simpl snd.
  destruct (String.eqb path "package.json"); reflexivity.
Qed.

(** C7. With two or more contributions and no merge method declared for
    the path, the merge throws, and the message of the exception names
    the path. *)
Theorem mergeFiles_missing_method (h : Host) (template : LoadedTemplate.t)
    (path : string) (sources : list SourceFileInfo.t) :
  2 <= length sources ->
  declared_mergeMethod template path = None ->
  exists e, mergeFiles h template path sources = Throw e /\ names_path e path.
Proof.
  intros Hlen Hnone.
  destruct sources as [|s0 [|s1 rest]]; simpl in Hlen; try lia.
  unfold mergeFiles, lookup_mergeMethod.
  unfold declared_mergeMethod in Hnone.
  destruct (LoadedTemplate.files template) as [files|].
  - eexists. simpl. rewrite Hnone. simpl. split; [reflexivity|].
    exists "Missing merge method for ", EmptyString. simpl.
    do 2 f_equal. clear. induction path; simpl; congruence.
  - eexists. simpl. split; [reflexivity|].
    exists "Cannot read properties of undefined (reading '", "')". reflexivity.
Qed.

Lemma mergeFiles_missing_method_witness :
  exists e, mergeFiles Sample.bare (Sample.template (Some [])) "package.json" Sample.two_sources
            = Throw e
            /\ names_path e "package.json".
Proof.
  apply mergeFiles_missing_method; [simpl; lia | reflexivity].
Defined.

(** ** Variant activation *)

Lemma includes_In (x : string) (l : list string) : includes x l = true <-> In x l.
Proof.
  unfold includes. rewrite existsb_exists. split.
  - intros [y [Hy E]]. apply String.eqb_eq in E. now subst.
  - intros H. exists x. split; [assumption | apply String.eqb_refl].
Qed.

Lemma required_ids_spec (template : LoadedTemplate.t) (id : string) :
  In id (required_ids template) <-> required_variant template id.
Proof.
  unfold required_ids, required_variant. rewrite in_map_iff. split.
  - intros [[k v] [E H]]. simpl in E. subst k.
    apply filter_In in H as [Hin Hreq]. now exists v.
  - intros [v [Hin Hreq]]. exists (id, v). split; [reflexivity|].
    apply filter_In. now split.
Qed.

Lemma obj_keys_filter_NoDup {V : Type} (keep : string * V -> bool) (o : obj V) :
  NoDup (obj_keys o) -> NoDup (obj_keys (filter keep o)).
Proof.
  unfold obj_keys. induction o as [|[k v] o IH]; simpl; intros Hkeys.
  - constructor.
  - apply NoDup_cons_iff in Hkeys as [Hfresh Hrest].
    destruct (keep (k, v)); simpl; [|now apply IH].
    apply NoDup_cons; [|now apply IH].
    rewrite in_map_iff. intros [[k' v'] [E Hin]]. simpl in E. subst k'.
    apply filter_In in Hin as [Hin _]. apply Hfresh.
    rewrite in_map_iff. now exists (k, v').
Qed.

Lemma filter_by_lookup {A : Type} (keep : string -> A -> bool) (o : obj A) :
  NoDup (obj_keys o) ->
  obj_keys (filter (fun kv => keep (fst kv) (snd kv)) o)
  = filter (fun id => match obj_get id o with Some v => keep id v | None => false end)
      (obj_keys o).
Proof.
  unfold obj_keys. induction o as [|[k v] o IH]; intros Hnodup; [reflexivity|].
  simpl in Hnodup. apply NoDup_cons_iff in Hnodup as [Hk Hnodup]. simpl.
  rewrite String.eqb_refl.
  assert (Hrest : filter (fun id => match (if String.eqb id k then Some v else obj_get id o) with
                                    | Some x => keep id x
                                    | None => false
                                    end) (map fst o)
                  = filter (fun id => match obj_get id o with
                                      | Some x => keep id x
                                      | None => false
                                      end) (map fst o)).
  { apply filter_ext_in. intros id Hid. destruct (String.eqb id k) eqn:E; [|reflexivity].
    apply String.eqb_eq in E. subst. contradiction. }
  rewrite Hrest, <- (IH Hnodup). now destruct (keep k v).
Qed.

(** C3, as the code has it.  The active list is the chosen IDs, in
    their order, followed by the required variants in catalog order:
    the keys of the template's variants, as the object enumerates them,
    that hold a variant flagged required.  As a set the list is the
    union of the two, so every required variant is active whatever is
    chosen.  Nothing is removed from it: it is free of repetitions when
    the chosen list is, the catalog keys are distinct, and no chosen ID
    is a required variant. *)
Theorem getVariantIdsWithRequired_union (variantIds : list string)
    (template : LoadedTemplate.t) :
  let active := getVariantIdsWithRequired variantIds template in
  firstn (length variantIds) active = variantIds
  /\ skipn (length variantIds) active = required_ids template
  /\ (NoDup (obj_keys (LoadedTemplate.variants template)) ->
      skipn (length variantIds) active
      = filter (flagged_required template) (obj_keys (LoadedTemplate.variants template)))
  /\ (forall id, In id (required_ids template) <-> required_variant template id)
  /\ (forall id, In id active <-> In id variantIds \/ required_variant template id)
  /\ (forall id, required_variant template id -> In id active)
  /\ (NoDup variantIds ->
      NoDup (obj_keys (LoadedTemplate.variants template)) ->
      (forall id, In id variantIds -> ~ required_variant template id) ->
      NoDup active).
Proof.
  unfold getVariantIdsWithRequired. cbv zeta.
  assert (Hskip : skipn (length variantIds) (variantIds ++ required_ids template)
                  = required_ids template)
    by (rewrite skipn_app, Nat.sub_diag, skipn_all; reflexivity).
  split; [|split; [|split; [|split; [|split; [|split]]]]].
  - rewrite firstn_app, Nat.sub_diag, firstn_all. simpl. apply app_nil_r.
  - exact Hskip.
  - intros Hkeys. rewrite Hskip. unfold required_ids, flagged_required.
    exact (filter_by_lookup (fun _ v => is_required v) _ Hkeys).
  - apply required_ids_spec.
  - intros id. rewrite in_app_iff, required_ids_spec. reflexivity.
  - intros id H. apply in_or_app. right. now apply required_ids_spec.
  - intros Hids Hkeys Hdisjoint. clear Hskip.
    assert (Hreq : NoDup (required_ids template))
      by (unfold required_ids; now apply obj_keys_filter_NoDup).
    revert Hids Hdisjoint. induction variantIds as [|x l IH]; simpl; intros Hids Hdisjoint.
    + assumption.
    + inversion Hids; subst. constructor.
      * intros Hin. apply in_app_or in Hin as [Hin|Hin]; [contradiction|].
        apply (Hdisjoint x); [now left | now apply required_ids_spec].
      * apply IH; [assumption | intros id Hid; apply Hdisjoint; now right].
Qed.

Lemma getVariantIdsWithRequired_union_witness :
  getVariantIdsWithRequired [ "extra" ] Sample.layered_template = [ "extra"; "base"; "lint" ]
  /\ skipn 1 (getVariantIdsWithRequired [ "extra" ] Sample.layered_template)
     = [ "base"; "lint" ]
  /\ NoDup (getVariantIdsWithRequired [ "extra" ] Sample.layered_template).
Proof.
  assert (Hkeys : NoDup (obj_keys (LoadedTemplate.variants Sample.layered_template)))
    by (repeat constructor; simpl; intuition discriminate).
  pose proof (getVariantIdsWithRequired_union [ "extra" ] Sample.layered_template)
    as (_ & _ & Horder & _ & _ & _ & Hnodup).
  split; [reflexivity|]. split; [exact (eq_trans (Horder Hkeys) eq_refl)|].
  apply Hnodup.
  - repeat constructor; simpl; tauto.
  - exact Hkeys.
  - intros id [E|[]] [v [Hin Hreq]]. subst id. simpl in Hin.
    destruct Hin as [E|[E|[E|[]]]]; inversion E; subst; discriminate.
Defined.

(** C3 as stated fails: a required variant that is also chosen occurs
    twice in the active list. *)
Lemma getVariantIdsWithRequired_repeats :
  getVariantIdsWithRequired [ "base" ] (Sample.template None) = [ "base"; "base" ]
  /\ ~ NoDup (getVariantIdsWithRequired [ "base" ] (Sample.template None)).
Proof.
  split; [reflexivity|].
  intros H. inversion H as [|? ? Hnotin _]; subst. apply Hnotin. now left.
Qed.

(** ** Collection *)

Lemma sources_at_push (path p : string) (s : SourceFileInfo.t) (files : file_map) :
  sources_at path (push_source p s files)
  = if String.eqb path p then (sources_at path files ++ [s])%list
    else sources_at path files.
Proof.
  unfold sources_at. induction files as [|[q arr] files IH]; simpl.
  - destruct (String.eqb path p) eqn:E; simpl.
    + reflexivity.
    + reflexivity.
  - destruct (String.eqb p q) eqn:Epq; simpl.
    + apply String.eqb_eq in Epq. subst q.
      destruct (String.eqb path p); reflexivity.
    + destruct (String.eqb path q) eqn:Eq; simpl.
      * apply String.eqb_eq in Eq. subst q.
        rewrite String.eqb_sym in Epq. now rewrite Epq.
      * apply IH.
Qed.

Lemma nonempty_push (p : string) (s : SourceFileInfo.t) (files : file_map) :
  nonempty_arrays files -> nonempty_arrays (push_source p s files).
Proof.
  unfold nonempty_arrays. induction files as [|[q arr] files IH]; simpl; intros H.
  - repeat constructor. discriminate.
  - inversion H; subst. destruct (String.eqb p q).
    + constructor; [|assumption]. simpl. now destruct arr.
    + constructor; [assumption | now apply IH].
Qed.

Lemma collect_variant_spec (name : string) (vfs : obj string) (path : string)
    (files : file_map) :
  sources_at path (collect_variant name vfs files)
  = (sources_at path files
       ++ map (fun f => SourceFileInfo.mk name (snd f))
            (filter (fun f => String.eqb path (fst f)) vfs))%list.
Proof.
  unfold collect_variant. revert files.
  induction vfs as [|[p text] vfs IH]; simpl; intros files.
  - now rewrite app_nil_r.
  - rewrite IH, sources_at_push. destruct (String.eqb path p); simpl.
    + now rewrite <- app_assoc.
    + reflexivity.
Qed.

Lemma collect_variant_nonempty (name : string) (vfs : obj string) (files : file_map) :
  nonempty_arrays files -> nonempty_arrays (collect_variant name vfs files).
Proof.
  unfold collect_variant. revert files.
  induction vfs as [|[p text] vfs IH]; simpl; intros files H; [assumption|].
  apply IH. now apply nonempty_push.
Qed.

Lemma collect_fold_spec (active : list string) (catalog : obj (obj string))
    (path : string) (files : file_map) :
  sources_at path
    (fold_left (fun files kv => collect_variant (fst kv) (snd kv) files)
       (filter (fun kv => includes (fst kv) active) catalog) files)
  = (sources_at path files
       ++ flat_map
            (fun kv =>
               if includes (fst kv) active
               then map (fun f => SourceFileInfo.mk (fst kv) (snd f))
                      (filter (fun f => String.eqb path (fst f)) (snd kv))
               else [])
            catalog)%list.
Proof.
  revert files. induction catalog as [|[k vfs] catalog IH]; simpl; intros files.
  - now rewrite app_nil_r.
  - destruct (includes k active); simpl.
    + rewrite IH, collect_variant_spec. now rewrite <- app_assoc.
    + apply IH.
Qed.

Lemma collect_fold_nonempty (l : obj (obj string)) (files : file_map) :
  nonempty_arrays files ->
  nonempty_arrays (fold_left (fun files kv => collect_variant (fst kv) (snd kv) files) l files).
Proof.
  revert files. induction l as [|[k vfs] l IH]; simpl; intros files H; [assumption|].
  apply IH. now apply collect_variant_nonempty.
Qed.

Lemma sources_at_collect (template : LoadedTemplate.t) (active : list string)
    (path : string) :
  sources_at path (collect template active) = contributions template active path.
Proof.
  unfold collect, appliedVariantFiles, contributions, contributions_of.
  now rewrite collect_fold_spec.
Qed.

Lemma obj_get_In {A : Type} (k : string) (o : obj A) (v : A) :
  obj_get k o = Some v -> In (k, v) o.
Proof.
  induction o as [|[k' v'] o IH]; simpl; [discriminate|].
  destruct (String.eqb k k') eqn:E.
  - apply String.eqb_eq in E. subst. intros [= ->]. now left.
  - intros H. right. now apply IH.
Qed.

Lemma collect_lookup (template : LoadedTemplate.t) (active : list string) (path : string) :
  obj_get path (collect template active)
  = match contributions template active path with
    | [] => None
    | l => Some l
    end.
Proof.
  rewrite <- sources_at_collect. unfold sources_at.
  destruct (obj_get path (collect template active)) as [l|] eqn:E; simpl; [|reflexivity].
  assert (Hne : nonempty_arrays (collect template active))
    by (apply collect_fold_nonempty; constructor).
  apply obj_get_In in E. unfold nonempty_arrays in Hne.
  rewrite Forall_forall in Hne. specialize (Hne _ E). simpl in Hne.
  destruct l; [contradiction | reflexivity].
Qed.

Lemma includes_ext (l l' : list string) :
  (forall id, In id l <-> In id l') -> forall id, includes id l = includes id l'.
Proof.
  intros H id. destruct (includes id l) eqn:E.
  - symmetry. apply includes_In, H, includes_In, E.
  - destruct (includes id l') eqn:E'; [|reflexivity].
    apply includes_In, H, includes_In in E'. congruence.
Qed.

Lemma filter_eqb_NoDup {A : Type} (path : string) (o : obj A) :
  NoDup (obj_keys o) -> length (filter (fun f => String.eqb path (fst f)) o) <= 1.
Proof.
  induction o as [|[k v] o IH]; simpl; intros H; [lia|].
  inversion H as [|? ? Hnotin Hnodup]; subst.
  destruct (String.eqb path k) eqn:E; [|now apply IH].
  apply String.eqb_eq in E. subst k. simpl.
  replace (filter (fun f => String.eqb path (fst f)) o) with (@nil (string * A)); [simpl; lia|].
  symmetry. clear IH H Hnodup. induction o as [|[k' v'] o IH]; simpl; [reflexivity|].
  destruct (String.eqb path k') eqn:E'.
  - apply String.eqb_eq in E'. subst. exfalso. apply Hnotin. now left.
  - apply IH. intros Hin. apply Hnotin. now right.
Qed.

Lemma contributions_of_keys (active : list string) (path : string)
    (catalog : obj (obj string)) (id : string) :
  In id (variants_of (contributions_of active path catalog)) -> In id (obj_keys catalog).
Proof.
  unfold variants_of, contributions_of, obj_keys.
  induction catalog as [|[k vfs] catalog IH]; simpl; [tauto|].
  rewrite map_app, in_app_iff. intros [H|H]; [left | right; now apply IH].
  destruct (includes k active); [|contradiction].
  rewrite map_map in H. simpl in H. apply in_map_iff in H as [f [E _]]. exact E.
Qed.

Lemma contributions_of_NoDup (active : list string) (path : string)
    (catalog : obj (obj string)) :
  NoDup (obj_keys catalog) ->
  Forall (fun kv => NoDup (obj_keys (snd kv))) catalog ->
  NoDup (variants_of (contributions_of active path catalog)).
Proof.
  induction catalog as [|[k vfs] catalog IH]; intros Hkeys Hinner.
  - constructor.
  - inversion Hkeys as [|? ? Hnotin Hnodup]; subst.
    inversion Hinner as [|? ? Hk Hrest]; subst. simpl in Hk.
    specialize (IH Hnodup Hrest).
    pose proof (filter_eqb_NoDup path vfs Hk) as Hlen.
    unfold contributions_of, variants_of in *. simpl. rewrite map_app.
    destruct (includes k active); [|exact IH].
    destruct (filter (fun f => String.eqb path (fst f)) vfs) as [|f [|f' fs]];
      simpl in Hlen; try lia; simpl; [exact IH|].
    constructor; [|exact IH].
    intros Hin. apply Hnotin.
    now apply (contributions_of_keys active path catalog k).
Qed.

(** C10. In the contribution list of a path no variant occurs twice,
    however often its ID occurs in the active list: the catalog is
    walked once and each of its entries is tested for membership. *)
Theorem collect_once_per_variant (template : LoadedTemplate.t) (active : list string)
    (path : string) (sources : list SourceFileInfo.t) :
  catalog_ok template ->
  obj_get path (collect template active) = Some sources ->
  NoDup (variants_of sources).
Proof.
  intros [Hkeys Hinner] Hget. rewrite collect_lookup in Hget.
  assert (E : sources = contributions template active path)
    by (destruct (contributions template active path); congruence).
  subst sources. now apply contributions_of_NoDup.
Qed.

Lemma collect_once_per_variant_witness :
  getVariantIdsWithRequired [ "base"; "extra"; "base" ] (Sample.template None)
  = [ "base"; "extra"; "base"; "base" ]
  /\ NoDup (variants_of
              [ SourceFileInfo.mk "base" Sample.base_manifest;
                SourceFileInfo.mk "extra" Sample.extra_manifest ]).
Proof.
  split; [reflexivity|].
  apply (collect_once_per_variant (Sample.template None)
           (getVariantIdsWithRequired [ "base"; "extra"; "base" ] (Sample.template None))
           "package.json").
  - split; simpl.
    + repeat constructor; simpl; intuition discriminate.
    + repeat constructor; simpl; intuition discriminate.
  - reflexivity.
Defined.

(** ** Custom mergers *)









(** ** Ordinary objects *)

Lemma array_index_inj (a b : string) (n : N) :
  array_index a = Some n -> array_index b = Some n -> a = b.
Proof.
  unfold array_index. intros Ha Hb.
  destruct (NilZero.uint_of_string a) as [da|]; [|discriminate].
  destruct (NilZero.uint_of_string b) as [db|]; [|discriminate].
  cbv zeta in Ha, Hb.
  destruct (String.eqb _ a) eqn:Ea; simpl in Ha; [|discriminate].
  destruct (String.eqb _ b) eqn:Eb; simpl in Hb; [|discriminate].
  apply String.eqb_eq in Ea, Eb.
  destruct (N.of_uint da <? 4294967295)%N; [|discriminate].
  destruct (N.of_uint db <? 4294967295)%N; [|discriminate].
  injection Ha as Ha. injection Hb as Hb. rewrite Ha in Ea. rewrite Hb in Eb. congruence.
Qed.

Section ObjectFacts.
Context {A : Type}.
Implicit Types (o : obj A) (k : string) (v : A).

Lemma obj_has_In k o : obj_has k o = true <-> In k (obj_keys o).
Proof.
  unfold obj_has, obj_keys. induction o as [|[k' v'] o IH]; simpl.
  - split; [discriminate | tauto].
  - destruct (String.eqb k k') eqn:E.
    + apply String.eqb_eq in E. subst. split; [now left | reflexivity].
    + rewrite IH. split; [now right|]. intros [H|H]; [|assumption].
      subst. now rewrite String.eqb_refl in E.
Qed.

Lemma obj_has_false k o : obj_has k o = false <-> ~ In k (obj_keys o).
Proof.
  rewrite <- obj_has_In. destruct (obj_has k o); split; congruence.
Qed.

Lemma obj_get_none k o : obj_get k o = None <-> ~ In k (obj_keys o).
Proof.
  rewrite <- obj_has_false. unfold obj_has.
  destruct (obj_get k o); split; congruence.
Qed.

Lemma obj_keys_replace k v o : obj_keys (obj_replace k v o) = obj_keys o.
Proof.
  unfold obj_keys. induction o as [|[k' v'] o IH]; simpl; [reflexivity|].
  destruct (String.eqb k k'); simpl; [reflexivity | now rewrite IH].
Qed.

Lemma obj_get_replace k k' v o :
  obj_get k (obj_replace k' v o)
  = if String.eqb k k' then (if obj_has k' o then Some v else None) else obj_get k o.
Proof.
  unfold obj_has. induction o as [|[q w] o IH]; simpl.
  - now destruct (String.eqb k k').
  - destruct (String.eqb k' q) eqn:Eq; simpl.
    + apply String.eqb_eq in Eq. subst q. now destruct (String.eqb k k').
    + rewrite IH. destruct (String.eqb k k') eqn:Ek; [|reflexivity].
      apply String.eqb_eq in Ek. subst k'. now rewrite Eq.
Qed.

Lemma obj_get_app k o o' :
  obj_get k (o ++ o')%list
  = match obj_get k o with Some x => Some x | None => obj_get k o' end.
Proof.
  induction o as [|[q w] o IH]; simpl; [reflexivity|].
  now destruct (String.eqb k q).
Qed.

Lemma obj_keys_insert n k v o :
  forall k', In k' (obj_keys (obj_insert_index n k v o)) <-> k' = k \/ In k' (obj_keys o).
Proof.
  unfold obj_keys. induction o as [|[q w] o IH]; simpl; intros k'.
  - intuition.
  - destruct (array_index q) as [m|]; [destruct (m <? n)%N|]; simpl;
      try rewrite IH; intuition.
Qed.

Lemma obj_get_insert n k k' v o :
  obj_has k' o = false ->
  obj_get k (obj_insert_index n k' v o) = if String.eqb k k' then Some v else obj_get k o.
Proof.
  unfold obj_has. induction o as [|[q w] o IH]; simpl; intros Hfresh; [reflexivity|].
  destruct (String.eqb k' q) eqn:Eq; [discriminate|].
  destruct (array_index q) as [m|]; [destruct (m <? n)%N|]; simpl; try reflexivity.
  rewrite (IH Hfresh). destruct (String.eqb k k') eqn:Ek; [|reflexivity].
  apply String.eqb_eq in Ek. subst k'. now rewrite Eq.
Qed.

(** Reading back after CreateDataProperty. *)
Lemma obj_get_set k k' v o :
  obj_get k (obj_set k' v o) = if String.eqb k k' then Some v else obj_get k o.
Proof.
  unfold obj_set. destruct (obj_has k' o) eqn:Hhas.
  - rewrite obj_get_replace, Hhas. reflexivity.
  - destruct (array_index k') as [n|].
    + now apply obj_get_insert.
    + rewrite obj_get_app. simpl. unfold obj_has in Hhas.
      destruct (String.eqb k k') eqn:Ek.
      * apply String.eqb_eq in Ek. subst k'. now destruct (obj_get k o).
      * now destruct (obj_get k o).
Qed.

Lemma obj_keys_set k v o :
  forall k', In k' (obj_keys (obj_set k v o)) <-> k' = k \/ In k' (obj_keys o).
Proof.
  intros k'. unfold obj_set. destruct (obj_has k o) eqn:Hhas.
  - rewrite obj_keys_replace. apply obj_has_In in Hhas. intuition congruence.
  - destruct (array_index k) as [n|].
    + apply obj_keys_insert.
    + unfold obj_keys. rewrite map_app, in_app_iff. simpl. intuition.
Qed.

(** A fresh key that is no array index goes to the end. *)
Lemma obj_set_append k v o :
  obj_has k o = false -> array_index k = None -> obj_set k v o = (o ++ [(k, v)])%list.
Proof. unfold obj_set. now intros -> ->. Qed.

Lemma key_before_index_r a k n :
  key_before a k -> array_index k = Some n ->
  exists m, array_index a = Some m /\ (m < n)%N.
Proof.
  unfold key_before. intros H Hk. rewrite Hk in H.
  destruct (array_index a) as [m|]; [now exists m | contradiction].
Qed.

(** A fresh array index larger than every key present goes to the end. *)
Lemma obj_insert_last n k v o :
  array_index k = Some n ->
  Forall (fun a => key_before a k) (obj_keys o) ->
  obj_insert_index n k v o = (o ++ [(k, v)])%list.
Proof.
  intros Hk. unfold obj_keys. induction o as [|[q w] o IH]; simpl; intros H; [reflexivity|].
  inversion H as [|? ? Hq Hrest]; subst.
  destruct (key_before_index_r _ _ _ Hq Hk) as [m [Hm Hlt]].
  rewrite Hm. apply N.ltb_lt in Hlt. rewrite Hlt. now rewrite IH.
Qed.

Lemma obj_set_last k v o :
  ~ In k (obj_keys o) ->
  Forall (fun a => key_before a k) (obj_keys o) ->
  obj_set k v o = (o ++ [(k, v)])%list.
Proof.
  intros Hfresh Hbefore. apply obj_has_false in Hfresh.
  unfold obj_set. rewrite Hfresh.
  destruct (array_index k) as [n|] eqn:Hk; [|reflexivity].
  now apply obj_insert_last.
Qed.

Lemma canonical_nil : canonical (@nil (string * A)).
Proof. split; constructor. Qed.

Lemma canonical_insert n k v o :
  array_index k = Some n -> ~ In k (obj_keys o) ->
  canonical o -> canonical (obj_insert_index n k v o).
Proof.
  intros Hk. induction o as [|[q w] o IH]; intros Hfresh [Hnodup Hsorted].
  - split; simpl; repeat constructor. intros [].
  - simpl in Hfresh, Hnodup, Hsorted.
    apply NoDup_cons_iff in Hnodup as [Hq Hnodup].
    apply StronglySorted_inv in Hsorted as [Hsorted Hall].
    assert (Hnew : canonical ((k, v) :: (q, w) :: o) <-> key_before k q).
    { unfold canonical. simpl. split.
      - intros [_ H]. apply StronglySorted_inv in H as [_ H]. now inversion H.
      - intros Hkq. split.
        + constructor; [exact Hfresh|]. constructor; assumption.
        + constructor; [now constructor|]. constructor; [exact Hkq|].
          rewrite Forall_forall in Hall |- *. intros x Hx. specialize (Hall x Hx).
          unfold key_before in *. rewrite Hk in *.
          destruct (array_index q) as [m|], (array_index x) as [p|]; try tauto; lia. }
    simpl. destruct (array_index q) as [m|] eqn:Hm.
    + destruct (m <? n)%N eqn:Hlt.
      * assert (Hrec : canonical (obj_insert_index n k v o)).
        { apply IH; [tauto | split; assumption]. }
        destruct Hrec as [Hnodup' Hsorted'].
        split; simpl.
        -- constructor; [|assumption]. rewrite obj_keys_insert. intuition.
        -- constructor; [assumption|]. rewrite Forall_forall. intros x Hx.
           apply obj_keys_insert in Hx as [->|Hx].
           ++ unfold key_before. rewrite Hm, Hk. now apply N.ltb_lt.
           ++ rewrite Forall_forall in Hall. now apply Hall.
      * apply Hnew. unfold key_before. rewrite Hk, Hm.
        apply N.ltb_ge in Hlt. apply N.le_lteq in Hlt as [Hlt|Heq]; [assumption|].
        subst m. exfalso. apply Hfresh. left. now apply (array_index_inj q k n).
    + apply Hnew. unfold key_before. now rewrite Hk, Hm.
Qed.

Lemma canonical_append k v o :
  array_index k = None -> ~ In k (obj_keys o) ->
  canonical o -> canonical (o ++ [(k, v)])%list.
Proof.
  intros Hk Hfresh [Hnodup Hsorted]. unfold canonical, obj_keys in *.
  rewrite map_app. simpl. split.
  - apply NoDup_app; [assumption | repeat constructor; intros [] |].
    intros x Hx [<-|[]]. contradiction.
  - clear Hnodup Hfresh. induction (map fst o) as [|a l IH]; simpl.
    + repeat constructor.
    + apply StronglySorted_inv in Hsorted as [Hsorted Hall].
      constructor; [now apply IH|].
      apply Forall_app. split; [assumption|]. constructor; [|constructor].
      unfold key_before. rewrite Hk. now destruct (array_index a).
Qed.

(** CreateDataProperty keeps an object in enumeration order. *)
Lemma canonical_set k v o : canonical o -> canonical (obj_set k v o).
Proof.
  intros Hc. unfold obj_set. destruct (obj_has k o) eqn:Hhas.
  - unfold canonical. now rewrite obj_keys_replace.
  - apply obj_has_false in Hhas. destruct (array_index k) as [n|] eqn:Hk.
    + now apply canonical_insert.
    + now apply canonical_append.
Qed.

Lemma canonical_fold_set (l : list (string * A)) o :
  canonical o -> canonical (fold_left (fun o kv => obj_set (fst kv) (snd kv) o) l o).
Proof.
  revert o. induction l as [|[k v] l IH]; simpl; intros o Hc; [assumption|].
  apply IH. now apply canonical_set.
Qed.

Lemma canonical_fromEntries (l : list (string * A)) : canonical (obj_fromEntries l).
Proof. apply canonical_fold_set, canonical_nil. Qed.

Lemma canonical_app_inv o o' : canonical (o ++ o')%list -> canonical o.
Proof.
  unfold canonical, obj_keys. rewrite map_app. intros [Hnodup Hsorted]. split.
  - now apply NoDup_app_remove_r in Hnodup.
  - clear Hnodup. induction (map fst o) as [|a l IH]; [constructor|].
    simpl in Hsorted. apply StronglySorted_inv in Hsorted as [Hsorted Hall].
    constructor; [now apply IH|]. apply Forall_app in Hall. tauto.
Qed.

Lemma canonical_snoc_before o k v :
  canonical (o ++ [(k, v)])%list ->
  ~ In k (obj_keys o) /\ Forall (fun a => key_before a k) (obj_keys o).
Proof.
  unfold canonical, obj_keys. rewrite map_app. simpl. intros [Hnodup Hsorted]. split.
  - apply NoDup_remove_2 in Hnodup. now rewrite app_nil_r in Hnodup.
  - clear Hnodup. induction (map fst o) as [|a l IH]; [constructor|].
    simpl in Hsorted. apply StronglySorted_inv in Hsorted as [Hsorted Hall].
    constructor; [|now apply IH]. apply Forall_app in Hall as [_ Hall]. now inversion Hall.
Qed.

(** Rebuilding an object property by property gives the object back. *)
Lemma fold_set_canonical (l : list (string * A)) o :
  canonical (o ++ l)%list ->
  fold_left (fun o kv => obj_set (fst kv) (snd kv) o) l o = (o ++ l)%list.
Proof.
  revert o. induction l as [|[k v] l IH]; simpl; intros o Hc.
  - now rewrite app_nil_r.
  - assert (Hc' : canonical ((o ++ [(k, v)]) ++ l)%list)
      by (now rewrite <- app_assoc).
    destruct (canonical_snoc_before o k v (canonical_app_inv _ _ Hc')) as [Hfresh Hbefore].
    rewrite (obj_set_last k v o Hfresh Hbefore), (IH _ Hc'). now rewrite <- app_assoc.
Qed.

Lemma obj_fromEntries_canonical o : canonical o -> obj_fromEntries o = o.
Proof. intros Hc. unfold obj_fromEntries. now rewrite fold_set_canonical. Qed.
End ObjectFacts.

(** ** Sorting *)

Lemma ascii_compare_lt_trans (a b c : ascii) :
  Ascii.compare a b = Lt -> Ascii.compare b c = Lt -> Ascii.compare a c = Lt.
Proof.
  unfold Ascii.compare. rewrite !N.compare_lt_iff. apply N.lt_trans.
Qed.

Lemma string_compare_lt_trans (a b c : string) :
  String.compare a b = Lt -> String.compare b c = Lt -> String.compare a c = Lt.
Proof.
  revert b c. induction a as [|x a IH]; intros [|y b] [|z c]; simpl; try congruence.
  destruct (Ascii.compare x y) eqn:Exy; try discriminate;
    destruct (Ascii.compare y z) eqn:Eyz; try discriminate; intros Hab Hbc.
  - apply Ascii.compare_eq_iff in Exy, Eyz. subst.
    assert (E : Ascii.compare z z = Eq)
      by (unfold Ascii.compare; apply N.compare_refl).
    rewrite E. now apply (IH b).
  - apply Ascii.compare_eq_iff in Exy. subst. now rewrite Eyz.
  - apply Ascii.compare_eq_iff in Eyz. subst. now rewrite Exy.
  - now rewrite (ascii_compare_lt_trans x y z).
Qed.

Lemma str_le_trans (a b c : string) : str_le a b -> str_le b c -> str_le a c.
Proof.
  unfold str_le, String.leb. intros Hab Hbc.
  destruct (String.compare a b) eqn:Eab; try discriminate.
  - apply String.compare_eq_iff in Eab. now subst.
  - destruct (String.compare b c) eqn:Ebc; try discriminate.
    + apply String.compare_eq_iff in Ebc. subst. now rewrite Eab.
    + now rewrite (string_compare_lt_trans a b c).
Qed.

Lemma sort_insert_perm (x : string) (l : list string) :
  Permutation (x :: l) (sort_insert x l).
Proof.
  induction l as [|y l IH]; simpl; [reflexivity|].
  destruct (String.leb x y); [reflexivity|].
  rewrite perm_swap. now constructor.
Qed.

Lemma js_sort_perm (l : list string) : Permutation l (js_sort l).
Proof.
  induction l as [|x l IH]; simpl; [constructor|].
  rewrite <- sort_insert_perm. now constructor.
Qed.

Lemma sort_insert_sorted (x : string) (l : list string) :
  StronglySorted str_le l -> StronglySorted str_le (sort_insert x l).
Proof.
  induction l as [|y l IH]; simpl; intros Hl.
  - repeat constructor.
  - apply StronglySorted_inv in Hl as [Hl Hy].
    destruct (String.leb x y) eqn:E.
    + constructor; [now constructor|]. constructor; [exact E|].
      rewrite Forall_forall in Hy |- *. intros z Hz.
      apply (str_le_trans x y z); [exact E | now apply Hy].
    + constructor; [now apply IH|].
      rewrite Forall_forall in Hy |- *. intros z Hz.
      apply (Permutation_in _ (Permutation_sym (sort_insert_perm x l))) in Hz.
      destruct Hz as [<-|Hz]; [|now apply Hy].
      destruct (String.leb_total x y) as [H|H]; [congruence | exact H].
Qed.

Lemma js_sort_sorted (l : list string) : StronglySorted str_le (js_sort l).
Proof.
  induction l as [|x l IH]; simpl; [constructor | now apply sort_insert_sorted].
Qed.

Lemma sortable_key_spec (k : string) :
  sortable_key k = true -> k <> "__proto__" /\ array_index k = None.
Proof.
  unfold sortable_key. intros H. apply andb_prop in H as [Hp Hi]. split.
  - intros ->. discriminate.
  - now destruct (array_index k).
Qed.

Lemma obj_assign_sortable {A : Type} (k : string) (v : A) (o : obj A) :
  sortable_key k = true -> ~ In k (obj_keys o) -> obj_assign k v o = (o ++ [(k, v)])%list.
Proof.
  intros Hk Hfresh. destruct (sortable_key_spec k Hk) as [Hp Hi].
  unfold obj_assign. destruct (String.eqb k "__proto__") eqn:E.
  - apply String.eqb_eq in E. contradiction.
  - apply obj_set_append; [now apply obj_has_false | exact Hi].
Qed.

Lemma fold_assign_sortable (d : obj json) (ks : list string) (acc : obj json) :
  NoDup ks ->
  Forall (fun k => sortable_key k = true) ks ->
  (forall k, In k ks -> In k (obj_keys d)) ->
  (forall k, In k ks -> ~ In k (obj_keys acc)) ->
  fold_left
    (fun o key => match obj_get key d with Some v => obj_assign key v o | None => o end)
    ks acc
  = (acc ++ map (fun k => (k, or_default JNull (obj_get k d))) ks)%list.
Proof.
  revert acc. induction ks as [|k ks IH]; simpl; intros acc Hnodup Hsortable Hin Hfresh.
  - now rewrite app_nil_r.
  - apply NoDup_cons_iff in Hnodup as [Hk Hnodup].
    inversion Hsortable as [|? ? Hks Hrest]; subst.
    destruct (obj_get k d) as [v|] eqn:Hget.
    + rewrite (obj_assign_sortable k v acc Hks); [|apply Hfresh; now left].
      rewrite IH; try assumption.
      * now rewrite <- app_assoc.
      * intros k' Hk'. apply Hin. now right.
      * intros k' Hk'. unfold obj_keys. rewrite map_app, in_app_iff. simpl.
        intros [H|[H|[]]]; [apply (Hfresh k'); [now right | exact H] | congruence].
    + apply obj_get_none in Hget. exfalso. apply Hget, Hin. now left.
Qed.

(** On an object whose keys are distinct and sortable, [sortByKeys]
    returns the properties in ascending key order, values unchanged. *)
Lemma sortByKeys_sortable (d : obj json) :
  NoDup (obj_keys d) ->
  Forall (fun k => sortable_key k = true) (obj_keys d) ->
  sortByKeys (JObject d) = Ok (JObject (sorted_entries d)).
Proof.
  intros Hnodup Hsortable. unfold sortByKeys, sorted_entries. simpl.
  rewrite fold_assign_sortable; try reflexivity.
  - apply (Permutation_NoDup (js_sort_perm _) Hnodup).
  - rewrite Forall_forall in Hsortable |- *. intros k Hk. apply Hsortable.
    apply (Permutation_in _ (Permutation_sym (js_sort_perm _)) Hk).
  - intros k Hk. apply (Permutation_in _ (Permutation_sym (js_sort_perm _)) Hk).
  - intros k _ [].
Qed.

Lemma sorted_entries_keys (d : obj json) : obj_keys (sorted_entries d) = js_sort (obj_keys d).
Proof.
  unfold sorted_entries, obj_keys. rewrite map_map. simpl. apply map_id.
Qed.

Lemma obj_get_map_keys (f : string -> json) (ks : list string) (k : string) :
  obj_get k (map (fun k => (k, f k)) ks) = if includes k ks then Some (f k) else None.
Proof.
  induction ks as [|x ks IH]; simpl; [reflexivity|].
  destruct (String.eqb k x) eqn:E; simpl; [|exact IH].
  apply String.eqb_eq in E. now subst.
Qed.

Lemma sorted_entries_get (d : obj json) (k : string) :
  obj_get k (sorted_entries d) = obj_get k d.
Proof.
  unfold sorted_entries. rewrite obj_get_map_keys.
  destruct (includes k (js_sort (obj_keys d))) eqn:E.
  - apply includes_In in E.
    apply (Permutation_in _ (Permutation_sym (js_sort_perm _))) in E.
    destruct (obj_get k d) as [x|] eqn:G; [reflexivity|].
    apply obj_get_none in G. contradiction.
  - destruct (obj_get k d) as [x|] eqn:G; [|reflexivity].
    apply obj_get_In in G. exfalso.
    assert (Hin : In k (js_sort (obj_keys d))).
    { apply (Permutation_in _ (js_sort_perm _)). unfold obj_keys.
      apply in_map_iff. now exists (k, x). }
    apply includes_In in Hin. congruence.
Qed.

(** ** What JSON.parse returns *)

Lemma wf_array (l : list json) : wf (JArray l) <-> Forall wf l.
Proof.
  simpl. induction l as [|x l IH]; [split; constructor|].
  rewrite IH. split.
  - intros [Hx Hl]. now constructor.
  - intros H. now inversion H.
Qed.

Lemma wf_object (o : obj json) :
  wf (JObject o) <-> canonical o /\ Forall (fun kv => wf (snd kv)) o.
Proof.
  simpl. apply and_iff_compat_l. induction o as [|kv o IH]; [split; constructor|].
  rewrite IH. split.
  - intros [Hx Hl]. now constructor.
  - intros H. now inversion H.
Qed.

Lemma In_obj_replace {A : Type} (k : string) (v : A) (o : obj A) (e : string * A) :
  In e (obj_replace k v o) -> e = (k, v) \/ In e o.
Proof.
  induction o as [|[q w] o IH]; simpl; [tauto|].
  destruct (String.eqb k q) eqn:E; simpl.
  - apply String.eqb_eq in E. subst q.
    intros [<-|H]; [now left | right; now right].
  - intros [<-|H]; [right; now left|]. destruct (IH H); [now left | right; now right].
Qed.

Lemma In_obj_insert {A : Type} (n : N) (k : string) (v : A) (o : obj A) (e : string * A) :
  In e (obj_insert_index n k v o) -> e = (k, v) \/ In e o.
Proof.
  induction o as [|[q w] o IH]; simpl.
  - intros [<-|[]]. now left.
  - destruct (array_index q) as [m|]; [destruct (m <? n)%N|]; simpl.
    + intros [<-|H]; [right; now left|]. destruct (IH H); [now left | right; now right].
    + intros [<-|H]; [now left | now right].
    + intros [<-|H]; [now left | now right].
Qed.

Lemma In_obj_set {A : Type} (k : string) (v : A) (o : obj A) (e : string * A) :
  In e (obj_set k v o) -> e = (k, v) \/ In e o.
Proof.
  unfold obj_set. destruct (obj_has k o).
  - apply In_obj_replace.
  - destruct (array_index k) as [n|].
    + apply In_obj_insert.
    + rewrite in_app_iff. simpl. intros [H|[<-|[]]]; [now right | now left].
Qed.

Lemma Forall_set {A : Type} (P : string * A -> Prop) (k : string) (v : A) (o : obj A) :
  P (k, v) -> Forall P o -> Forall P (obj_set k v o).
Proof.
  intros Hv Ho. rewrite Forall_forall in Ho |- *. intros e He.
  destruct (In_obj_set k v o e He) as [->|Hin]; [assumption | now apply Ho].
Qed.

Lemma Forall_values_set {A : Type} (P : A -> Prop) (k : string) (v : A) (o : obj A) :
  P v -> Forall (fun kv => P (snd kv)) o -> Forall (fun kv => P (snd kv)) (obj_set k v o).
Proof. intros Hv. now apply Forall_set. Qed.

Lemma parse_scalar_wf (c : ascii) (r : string) (v : json) (rest : string) :
  parse_scalar c r = Ok (v, rest) -> wf v.
Proof.
  unfold parse_scalar, expect, parse_number, bind.
  repeat match goal with
         | |- context [if ?b then _ else _] => destruct b
         | |- context [match ?x with _ => _ end] => destruct x
         end; simpl; intros H; inversion H; exact I.
Qed.

Lemma parse_wf (fuel : nat) :
  (forall s v r, parse_value fuel s = Some (Ok (v, r)) -> wf v)
  /\ (forall s acc v r,
        Forall wf acc -> parse_elements fuel s acc = Some (Ok (v, r)) -> wf v)
  /\ (forall s acc v r,
        wf (JObject acc) -> parse_members fuel s acc = Some (Ok (v, r)) -> wf v).
Proof.
  induction fuel as [|fuel [IHv [IHe IHm]]]; [repeat split; discriminate|].
  split; [|split].
  - intros s v r. simpl. destruct (skip_ws s) as [|c r0]; [discriminate|].
    destruct (Ascii.eqb c "{").
    + destruct (after "}" (skip_ws r0)).
      * intros [= <- _]. apply wf_object. split; [apply canonical_nil | constructor].
      * apply IHm. apply wf_object. split; [apply canonical_nil | constructor].
    + destruct (Ascii.eqb c "[").
      * destruct (after "]" (skip_ws r0)).
        -- intros [= <- _]. now apply wf_array.
        -- now apply IHe.
      * intros [= H]. now apply parse_scalar_wf in H.
  - intros s acc v r Hacc. simpl.
    destruct (parse_value fuel s) as [[[x r1]|e|]|] eqn:Hx; try discriminate.
    apply IHv in Hx.
    assert (Hacc' : Forall wf (acc ++ [x])%list)
      by (apply Forall_app; split; [assumption | now constructor]).
    destruct (after "," (skip_ws r1)); [now apply IHe|].
    destruct (after "]" (skip_ws r1)); [|discriminate].
    intros [= <- _]. now apply wf_array.
  - intros s acc v r Hacc. simpl.
    destruct (parse_key s) as [[k r2]|e|]; try discriminate.
    destruct (parse_value fuel r2) as [[[x r3]|e|]|] eqn:Hx; try discriminate.
    apply IHv in Hx. apply wf_object in Hacc as [Hc Hvalues].
    assert (Hacc' : wf (JObject (obj_set k x acc))).
    { apply wf_object. split; [now apply canonical_set | now apply Forall_values_set]. }
    destruct (after "," (skip_ws r3)); [now apply IHm|].
    destruct (after "}" (skip_ws r3)); [|discriminate].
    now intros [= <- _].
Qed.

(** Every object that [JSON.parse] returns is in enumeration order. *)
Lemma JSON_parse_wf (text : string) (v : json) : JSON_parse text = Ok v -> wf v.
Proof.
  unfold JSON_parse.
  destruct (parse_value (2 * String.length text + 2) text) as [[[x r]|e|]|] eqn:Hx;
    try discriminate.
  destruct (skip_ws r); [|discriminate].
  intros [= <-]. now apply (proj1 (parse_wf _)) in Hx.
Qed.

(** ** The deep merge *)

Lemma plain_array (l : list json) :
  plain (JArray l) = true <-> Forall (fun x => plain x = true) l.
Proof. simpl. rewrite forallb_forall, Forall_forall. reflexivity. Qed.

Lemma plain_object (o : obj json) :
  plain (JObject o) = true
  <-> Forall (fun kv => on_prototype (fst kv) = false /\ plain (snd kv) = true) o.
Proof.
  simpl. rewrite forallb_forall, Forall_forall.
  split; intros H kv Hkv; specialize (H kv Hkv).
  - apply andb_prop in H as [Hk Hv]. split; [|assumption].
    now destruct (on_prototype (fst kv)).
  - destruct H as [-> ->]. reflexivity.
Qed.

Lemma clean_object_iff (o : obj json) :
  clean_object o <-> wf (JObject o) /\ plain (JObject o) = true.
Proof. unfold clean_object. rewrite wf_object, plain_object. tauto. Qed.

Lemma clone_clean (v : json) :
  wf v -> plain v = true -> cloneUnlessOtherwiseSpecified v = v.
Proof.
  induction v as [| | | |l IH|o IH] using json_ind'; try reflexivity; intros Hwf Hplain.
  - apply wf_array in Hwf. apply plain_array in Hplain. simpl. f_equal.
    induction l as [|x l IHl]; [reflexivity|].
    inversion IH; inversion Hwf; inversion Hplain; subst. simpl.
    f_equal; [auto | now apply IHl].
  - apply wf_object in Hwf as [Hc Hwf]. apply plain_object in Hplain. simpl. f_equal.
    assert (Hmap : map (fun kv => (fst kv, cloneUnlessOtherwiseSpecified (snd kv))) o = o).
    { clear Hc. induction o as [|[k x] o IHo]; [reflexivity|].
      inversion IH; inversion Hwf; inversion Hplain; subst. simpl in *.
      f_equal; [f_equal; tauto | now apply IHo]. }
    rewrite Hmap.
    assert (Hfilter : filter (fun kv : string * json => negb (on_prototype (fst kv))) o = o).
    { clear -Hplain. induction o as [|[k x] o IHo]; [reflexivity|].
      inversion Hplain as [|? ? [Hk _] Hrest]; subst. simpl in *. rewrite Hk. simpl.
      f_equal. now apply IHo. }
    rewrite Hfilter. now apply obj_fromEntries_canonical.
Qed.

Lemma assign_dest_plain (k : string) (v : json) (d : obj json) :
  on_prototype k = false -> assign_dest k v d = Ok (obj_set k v d).
Proof.
  intros Hk. unfold assign_dest. destruct (String.eqb k "__proto__") eqn:E; [|reflexivity].
  apply String.eqb_eq in E. subst k. discriminate.
Qed.

Lemma clone_target_clean (o : obj json) : clean_object o -> clone_target (JObject o) = Ok o.
Proof.
  intros [Hc [Hwf Hplain]]. unfold clone_target.
  assert (Hfold : forall l acc,
             Forall (fun kv => wf (snd kv)) l ->
             Forall (fun kv => on_prototype (fst kv) = false /\ plain (snd kv) = true) l ->
             fold_left
               (fun acc kv =>
                  d <- acc ;; assign_dest (fst kv) (cloneUnlessOtherwiseSpecified (snd kv)) d)
               l (Ok acc)
             = Ok (fold_left (fun o kv => obj_set (fst kv) (snd kv) o) l acc)).
  { induction l as [|[k x] l IHl]; intros acc Hw Hp; [reflexivity|].
    inversion Hw; inversion Hp as [|? ? [Hk Hx] Hrest]; subst. simpl in *.
    rewrite clone_clean, assign_dest_plain by assumption. now apply IHl. }
  etransitivity; [exact (Hfold o [] Hwf Hplain)|].
  f_equal. now apply (fold_set_canonical o []).
Qed.

Lemma clean_object_set (k : string) (v : json) (d : obj json) :
  on_prototype k = false -> wf v -> plain v = true ->
  clean_object d -> clean_object (obj_set k v d).
Proof.
  intros Hk Hwf Hplain [Hc [Hw Hp]]. split; [now apply canonical_set|]. split.
  - now apply Forall_values_set.
  - now apply Forall_set.
Qed.

Lemma json_merge_scalar (earlier later : json) :
  isMergeableObject later = false -> json_merge earlier later = later.
Proof. destruct later; simpl; try reflexivity; discriminate. Qed.

Lemma propertyIsUnsafe_plain (o : obj json) (k : string) :
  on_prototype k = false -> propertyIsUnsafe (JObject o) k = false.
Proof. intros Hk. simpl. rewrite Hk. now destruct (obj_has k o). Qed.

(** The second loop of [mergeObject] on two clean objects. *)
Lemma mergeKeys_clean (eo : obj json) (lo : list (string * json)) :
  clean_object eo ->
  Forall (fun kv => merges_as_described (snd kv)) lo ->
  Forall (fun kv => wf (snd kv)) lo ->
  Forall (fun kv => on_prototype (fst kv) = false /\ plain (snd kv) = true) lo ->
  forall d, clean_object d ->
    mergeKeys deepmerge (JObject eo) lo d = Ok (merge_members json_merge eo lo d)
    /\ clean_object (merge_members json_merge eo lo d).
Proof.
  intros [_ [Hewf Heplain]]. rewrite Forall_forall in Hewf, Heplain.
  induction lo as [|[k lv] lo IH]; intros Hrec Hwf Hplain d Hd; [now split|].
  inversion Hrec as [|? ? Hlv Hrec']; inversion Hwf as [|? ? Hlvwf Hwf'];
    inversion Hplain as [|? ? [Hk Hlvplain] Hplain']; subst. simpl in *.
  rewrite Hk. replace (obj_has k eo || false) with (obj_has k eo) by now destruct (obj_has k eo).
  replace (obj_has k eo && negb (obj_has k eo)) with false by now destruct (obj_has k eo).
  assert (Hstep : (match obj_get k eo with
                   | Some tv =>
                       if isMergeableObject lv
                       then r <- deepmerge tv lv ;; assign_dest k r d
                       else assign_dest k (cloneUnlessOtherwiseSpecified lv) d
                   | None => assign_dest k (cloneUnlessOtherwiseSpecified lv) d
                   end)
                  = Ok (obj_set k (match obj_get k eo with
                                   | Some ev => json_merge ev lv
                                   | None => lv
                                   end) d)
                  /\ clean_object (obj_set k (match obj_get k eo with
                                              | Some ev => json_merge ev lv
                                              | None => lv
                                              end) d)).
  { destruct (obj_get k eo) as [ev|] eqn:Hget.
    - apply obj_get_In in Hget.
      pose proof (Hewf _ Hget) as Hevwf. destruct (Heplain _ Hget) as [_ Hevplain].
      simpl in Hevwf, Hevplain.
      destruct (isMergeableObject lv) eqn:Hm.
      + destruct (Hlv Hlvwf Hlvplain Hm ev Hevwf Hevplain) as [Hmerge [Hmwf Hmplain]].
        rewrite Hmerge. simpl. rewrite assign_dest_plain by assumption.
        split; [reflexivity | now apply clean_object_set].
      + rewrite clone_clean, assign_dest_plain, json_merge_scalar by assumption.
        split; [reflexivity | now apply clean_object_set].
    - rewrite clone_clean, assign_dest_plain by assumption.
      split; [reflexivity | now apply clean_object_set]. }
  destruct Hstep as [-> Hd']. simpl. now apply IH.
Qed.

Lemma mergeKeys_scalar_target (target : json) (lo : list (string * json)) :
  (forall k, propertyIsUnsafe target k = false) ->
  (forall k, own_property target k = None) ->
  Forall (fun kv => wf (snd kv)) lo ->
  Forall (fun kv => on_prototype (fst kv) = false /\ plain (snd kv) = true) lo ->
  forall d,
    mergeKeys deepmerge target lo d
    = Ok (fold_left (fun o kv => obj_set (fst kv) (snd kv) o) lo d).
Proof.
  intros Hsafe Hown. induction lo as [|[k lv] lo IH]; intros Hwf Hplain d; [reflexivity|].
  inversion Hwf; inversion Hplain as [|? ? [Hk Hlv] Hrest]; subst. simpl in *.
  rewrite Hsafe, Hown, clone_clean, assign_dest_plain by assumption. simpl. now apply IH.
Qed.

(** On well-formed plain values the package merges as described. *)
Lemma deepmerge_described (later : json) : merges_as_described later.
Proof.
  induction later as [| | | |ll IH|lo IH] using json_ind';
    intros Hwf Hplain Hm earlier Hewf Heplain; try discriminate.
  - (* arrays *)
    assert (Hother : Ok (cloneUnlessOtherwiseSpecified (JArray ll)) = Ok (JArray ll)
                     /\ wf (JArray ll) /\ plain (JArray ll) = true)
      by (rewrite clone_clean by assumption; split; [reflexivity | split; assumption]).
    destruct earlier as [| | | |el|eo]; try exact Hother.
    assert (Hwf' : wf (JArray (el ++ ll)%list)).
    { apply wf_array, Forall_app. split; now apply wf_array. }
    assert (Hplain' : plain (JArray (el ++ ll)%list) = true).
    { apply plain_array, Forall_app. split; now apply plain_array. }
    split; [|now split].
    change (Ok (cloneUnlessOtherwiseSpecified (JArray (el ++ ll)%list))
            = Ok (JArray (el ++ ll)%list)).
    now rewrite clone_clean.
  - (* objects *)
    pose proof (proj2 (clean_object_iff lo) (conj Hwf Hplain)) as [Hc [Hlwf Hlplain]].
    assert (Hscalar : forall target,
               (forall k, propertyIsUnsafe target k = false) ->
               (forall k, own_property target k = None) ->
               clone_target target = Ok [] ->
               (d0 <- clone_target target ;;
                d <- mergeKeys deepmerge target lo d0 ;; Ok (JObject d))
               = Ok (JObject lo)
               /\ wf (JObject lo) /\ plain (JObject lo) = true).
    { intros target Hsafe Hown ->. split; [|now split]. simpl.
      rewrite (mergeKeys_scalar_target target lo Hsafe Hown Hlwf Hlplain). simpl.
      now rewrite (fold_set_canonical lo []). }
    destruct earlier as [|b|n|t|el|eo].
    + now apply (Hscalar JNull).
    + now apply (Hscalar (JBool b)).
    + now apply (Hscalar (JNumber n)).
    + now apply (Hscalar (JString t)).
    + change (Ok (cloneUnlessOtherwiseSpecified (JObject lo)) = Ok (JObject lo)
              /\ wf (JObject lo) /\ plain (JObject lo) = true).
      rewrite clone_clean by assumption. split; [reflexivity | split; assumption].
    + assert (Heo : clean_object eo) by now apply clean_object_iff.
      destruct (mergeKeys_clean eo lo Heo IH Hlwf Hlplain eo Heo) as [Hkeys Hclean].
      apply clean_object_iff in Hclean as [Hrwf Hrplain].
      split; [|now split].
      change (d0 <- clone_target (JObject eo) ;;
              d <- mergeKeys deepmerge (JObject eo) lo d0 ;; Ok (JObject d)
              = Ok (JObject (merge_members json_merge eo lo eo))).
      rewrite (clone_target_clean eo Heo). simpl. now rewrite Hkeys.
Qed.

(** ** The manifest after the merge *)

Lemma sortByKeys_truthy (v : json) :
  truthy v = true -> exists s, sortByKeys v = Ok s.
Proof.
  unfold sortByKeys. destruct v; simpl; try discriminate; intros _; eexists; reflexivity.
Qed.

Lemma sort_category_spec (key : string) (o : obj json) :
  exists o',
    sort_category key o = Ok o'
    /\ obj_keys o' = obj_keys o
    /\ forall k, obj_get k o'
                 = if String.eqb k key then option_map sort_value (obj_get k o)
                   else obj_get k o.
Proof.
  unfold sort_category, sort_value.
  destruct (obj_get key o) as [v|] eqn:Hget.
  - destruct (truthy v) eqn:Ht.
    + destruct (sortByKeys_truthy v Ht) as [s Hs]. rewrite Hs. simpl.
      exists (obj_replace key s o). split; [reflexivity|].
      split; [apply obj_keys_replace|].
      intros k. rewrite obj_get_replace. unfold obj_has. rewrite Hget.
      destruct (String.eqb k key) eqn:E; [|reflexivity].
      apply String.eqb_eq in E. subst k. rewrite Hget. simpl. now rewrite Ht, Hs.
    + exists o. repeat split. intros k.
      destruct (String.eqb k key) eqn:E; [|reflexivity].
      apply String.eqb_eq in E. subst k. rewrite Hget. simpl. now rewrite Ht.
  - exists o. repeat split. intros k.
    destruct (String.eqb k key) eqn:E; [|reflexivity].
    apply String.eqb_eq in E. subst k. now rewrite Hget.
Qed.

Lemma sort_categories_spec (categories : list string) (o : obj json) :
  NoDup categories ->
  exists o',
    fold_left (fun acc key => o <- acc ;; sort_category key o) categories (Ok o) = Ok o'
    /\ obj_keys o' = obj_keys o
    /\ forall k, obj_get k o'
                 = if includes k categories then option_map sort_value (obj_get k o)
                   else obj_get k o.
Proof.
  revert o. induction categories as [|key categories IH]; intros o Hnodup.
  - exists o. repeat split.
  - apply NoDup_cons_iff in Hnodup as [Hkey Hnodup].
    destruct (sort_category_spec key o) as [o1 [Hstep [Hkeys1 Hget1]]].
    destruct (IH o1 Hnodup) as [o' [Hfold [Hkeys Hget]]].
    exists o'. simpl. rewrite Hstep. split; [exact Hfold|].
    split; [congruence|].
    intros k. rewrite Hget, Hget1.
    destruct (String.eqb k key) eqn:E; simpl.
    + apply String.eqb_eq in E. subst k.
      destruct (includes key categories) eqn:Hin; [|reflexivity].
      apply includes_In in Hin. contradiction.
    + reflexivity.
Qed.

(** C9, as the code has it.  After the merge of [package.json] the text
    is parsed again and the result is serialized with an indentation of
    two.  Each dependency category is treated on its own, whatever the
    others hold: one that holds an object whose keys are neither array
    indices nor [__proto__] has its keys put in ascending order with
    their values unchanged; one that holds any other truthy value is
    replaced by what [sortByKeys] returns for that value; one that is
    absent or holds a falsy value stays as it is.  Every property
    outside the four categories stays as it is, and the manifest keeps
    the order of its keys. *)
Theorem package_json_dependencies_sorted (fileSource : MergedFileInfo.t) (o : obj json) :
  JSON_parse (MergedFileInfo.sourceText fileSource) = Ok (JObject o) ->
  exists o',
    finish_file "package.json" fileSource
    = Ok (MergedFileInfo.mk (MergedFileInfo.contributingVariants fileSource)
            (JSON_stringify_2 (JObject o')))
    /\ obj_keys o' = obj_keys o
    /\ (forall k, ~ In k dependency_categories -> obj_get k o' = obj_get k o)
    /\ (forall category,
          In category dependency_categories ->
          (obj_get category o = None -> obj_get category o' = None)
          /\ (forall v,
                obj_get category o = Some v -> truthy v = false ->
                obj_get category o' = Some v)
          /\ (forall v,
                obj_get category o = Some v -> truthy v = true ->
                exists sorted, sortByKeys v = Ok sorted /\ obj_get category o' = Some sorted)
          /\ (forall d,
                obj_get category o = Some (JObject d) ->
                Forall (fun k => sortable_key k = true) (obj_keys d) ->
                exists d',
                  obj_get category o' = Some (JObject d')
                  /\ Permutation (obj_keys d) (obj_keys d')
                  /\ StronglySorted str_le (obj_keys d')
                  /\ forall k, obj_get k d' = obj_get k d)).
Proof.
  intros Hparse.
  assert (Hnodup : NoDup dependency_categories)
    by (repeat constructor; simpl; intuition discriminate).
  destruct (sort_categories_spec dependency_categories o Hnodup) as [o' [Hfold [Hkeys Hget]]].
  exists o'. split.
  { unfold finish_file. rewrite String.eqb_refl, Hparse.
    change (bind (Ok (JObject o)) ?k) with (k (JObject o)). cbv beta.
    change (sort_dependencies (JObject o))
      with (o' <- fold_left (fun acc key => o <- acc ;; sort_category key o)
                    dependency_categories (Ok o) ;;
            Ok (JObject o')).
    rewrite Hfold. reflexivity. }
  split; [exact Hkeys|]. split.
  - intros k Hk. rewrite Hget.
    destruct (includes k dependency_categories) eqn:E; [|reflexivity].
    apply includes_In in E. contradiction.
  - intros category Hcat. apply includes_In in Hcat.
    specialize (Hget category). rewrite Hcat in Hget.
    split; [|split; [|split]].
    + intros Hnone. now rewrite Hget, Hnone.
    + intros v Hv Hfalsy. rewrite Hget, Hv. simpl. unfold sort_value. now rewrite Hfalsy.
    + intros v Hv Htruthy. destruct (sortByKeys_truthy v Htruthy) as [sorted Hsorted].
      exists sorted. split; [exact Hsorted|].
      rewrite Hget, Hv. simpl. unfold sort_value. now rewrite Htruthy, Hsorted.
    + intros d Hd Hplain.
      assert (Hdistinct : NoDup (obj_keys d)).
      { apply JSON_parse_wf, wf_object in Hparse as [_ Hvalues].
        rewrite Forall_forall in Hvalues.
        apply obj_get_In, Hvalues, wf_object in Hd as [[Hd _] _]. exact Hd. }
      exists (sorted_entries d). rewrite Hget, Hd. simpl.
      unfold sort_value. change (truthy (JObject d)) with true. cbv iota.
      rewrite (sortByKeys_sortable d Hdistinct Hplain).
      split; [reflexivity|]. rewrite sorted_entries_keys.
      split; [apply js_sort_perm|]. split; [apply js_sort_sorted|].
      apply sorted_entries_get.
Qed.

Lemma package_json_dependencies_sorted_witness :
  exists o',
    finish_file "package.json" Sample.mixed_manifest
    = Ok (MergedFileInfo.mk [ "internal.node"; "base" ] (JSON_stringify_2 (JObject o')))
    /\ obj_keys o' = [ "dependencies"; "devDependencies" ]
    /\ exists d',
         obj_get "devDependencies" o' = Some (JObject d')
         /\ StronglySorted str_le (obj_keys d')
         /\ obj_get "a" d' = Some (JString "2")
         /\ obj_get "b" d' = Some (JString "1").
Proof.
  destruct (package_json_dependencies_sorted Sample.mixed_manifest
              [ ("dependencies", JObject [ ("9", JString "4"); ("10", JString "3") ]);
                ("devDependencies", JObject [ ("b", JString "1"); ("a", JString "2") ]) ])
    as [o' [Hfile [Hkeys [_ Hsorted]]]]; [reflexivity|].
  exists o'. split; [exact Hfile|]. split; [exact Hkeys|].
  destruct (Hsorted "devDependencies") as (_ & _ & _ & Hcategory); [simpl; tauto|].
  destruct (Hcategory [ ("b", JString "1"); ("a", JString "2") ])
    as [d' [Hget [_ [Hord Hvalues]]]]; [reflexivity | repeat constructor |].
  exists d'. split; [exact Hget|]. split; [exact Hord|].
  split; rewrite Hvalues; reflexivity.
Defined.

(** C9 as stated fails: keys that are array indices are enumerated
    first and in numeric order, so the written manifest lists 9 before
    10 although 10 sorts before 9. *)
Lemma package_json_index_keys_numeric :
  run Sample.bare (Sample.output Sample.bare) Sample.config
    (Sample.template (Sample.method "json")) "pkg" [ "extra" ]
  = Ok [ OutputFile.mk "package.json" "packages/pkg/package.json"
           (MergedFileInfo.mk [ "internal.node"; "base"; "extra" ]
              (JSON_stringify_2
                 (JObject
                    [ ("name", JString "@acme/pkg");
                      ("version", JString "0.1.0");
                      ("dependencies",
                       JObject [ ("9", JString "4"); ("10", JString "3");
                                 ("a", JString "2"); ("b", JString "1") ]);
                      ("keywords", JArray [ JString "x"; JString "y" ]) ])));
         OutputFile.mk "README.md" "packages/pkg/README.md"
           (MergedFileInfo.mk [ "base" ] "# readme") ]
  /\ ~ StronglySorted str_le [ "9"; "10"; "a"; "b" ].
Proof.
  split; [vm_compute; reflexivity|].
  intros H. apply StronglySorted_inv in H as [_ H].
  inversion H as [|? ? Hle _]. discriminate Hle.
Qed.

(** ** The json merge method *)

Lemma deepmerge_all_described (values : list json) (acc : json) :
  wf acc -> plain acc = true ->
  Forall (fun v => wf v /\ plain v = true /\ isMergeableObject v = true) values ->
  fold_left (fun acc next => prev <- acc ;; deepmerge prev next) values (Ok acc)
  = Ok (fold_left json_merge values acc).
Proof.
  revert acc. induction values as [|v values IH]; intros acc Hwf Hplain Hall; [reflexivity|].
  inversion Hall as [|? ? [Hvwf [Hvplain Hm]] Hrest]; subst. simpl.
  destruct (deepmerge_described v Hvwf Hvplain Hm acc Hwf Hplain) as [-> [Hwf' Hplain']].
  now apply IH.
Qed.

Lemma parse_sources_objects (sources : list SourceFileInfo.t) (objects : list (obj json)) :
  Forall2 (fun source o => JSON_parse (SourceFileInfo.sourceText source) = Ok (JObject o))
    sources objects ->
  parse_sources sources = Ok (map JObject objects)
  /\ Forall (fun o => wf (JObject o)) objects.
Proof.
  unfold parse_sources. induction 1 as [|source o sources objects Hparse _ [IH Hwf]]; simpl.
  - split; [reflexivity | constructor].
  - rewrite Hparse. simpl. rewrite IH. simpl. split; [reflexivity|].
    constructor; [now apply JSON_parse_wf in Hparse | assumption].
Qed.

Lemma merge_members_get (merge : json -> json -> json) (eo : obj json)
    (lo : list (string * json)) (acc : obj json) (k : string) :
  NoDup (obj_keys lo) ->
  obj_get k (merge_members merge eo lo acc)
  = match obj_get k lo with
    | Some lv => Some (match obj_get k eo with Some ev => merge ev lv | None => lv end)
    | None => obj_get k acc
    end.
Proof.
  revert acc. induction lo as [|[q lv] lo IH]; intros acc Hnodup; [reflexivity|].
  simpl in Hnodup. apply NoDup_cons_iff in Hnodup as [Hq Hnodup]. simpl.
  rewrite (IH _ Hnodup), obj_get_set.
  destruct (String.eqb k q) eqn:E; [|reflexivity].
  apply String.eqb_eq in E. subst q.
  apply obj_get_none in Hq. now rewrite Hq.
Qed.

(** C2, as the code has it.  With the method [json] and two or more
    sources that parse as objects with plain keys, the sources are
    merged from the first to the last, every source is credited, and
    the result is serialized with an indentation of two.  A key of both
    objects holds the merge of its two values, a key of one holds its
    value; two arrays are concatenated, the earlier one first; in every
    other case the later value stands. *)
Theorem mergeFiles_json (h : Host) (template : LoadedTemplate.t) (path : string)
    (sources : list SourceFileInfo.t) (objects : list (obj json)) :
  2 <= length sources ->
  declared_mergeMethod template path = Some "json" ->
  Forall2 (fun source o => JSON_parse (SourceFileInfo.sourceText source) = Ok (JObject o))
    sources objects ->
  Forall (fun o => plain (JObject o) = true) objects ->
  mergeFiles h template path sources
  = Ok (MergedFileInfo.mk (variants_of sources)
          (JSON_stringify_2 (fold_left json_merge (map JObject objects) (JObject []))))
  /\ (forall eo lo, NoDup (obj_keys lo) ->
        exists merged,
          json_merge (JObject eo) (JObject lo) = JObject merged
          /\ forall k,
               obj_get k merged
               = match obj_get k eo, obj_get k lo with
                 | Some ev, Some lv => Some (json_merge ev lv)
                 | None, Some lv => Some lv
                 | Some ev, None => Some ev
                 | None, None => None
                 end)
  /\ (forall el ll, json_merge (JArray el) (JArray ll) = JArray (el ++ ll)%list)
  /\ (forall ev lv,
        match ev, lv with
        | JObject _, JObject _ | JArray _, JArray _ => False
        | _, _ => True
        end ->
        json_merge ev lv = lv).
Proof.
  intros Hlen Hdecl Hparse Hplain.
  destruct (parse_sources_objects sources objects Hparse) as [Hsources Hwf].
  split; [|split; [|split]].
  - destruct sources as [|s0 [|s1 rest]]; simpl in Hlen; try lia.
    unfold mergeFiles, lookup_mergeMethod. unfold declared_mergeMethod in Hdecl.
    destruct (LoadedTemplate.files template) as [files|]; [|discriminate].
    simpl bind at 1. rewrite Hdecl. simpl. rewrite Hsources. simpl bind at 1.
    unfold deepmerge_all. rewrite deepmerge_all_described; [reflexivity | | reflexivity |].
    + apply wf_object. split; [apply canonical_nil | constructor].
    + rewrite Forall_forall in Hwf, Hplain |- *. intros v Hv.
      apply in_map_iff in Hv as [o [<- Ho]].
      split; [now apply Hwf | split; [now apply Hplain | reflexivity]].
  - intros eo lo Hnodup. exists (merge_members json_merge eo lo eo).
    split; [reflexivity|]. intros k. rewrite merge_members_get by assumption.
    now destruct (obj_get k eo), (obj_get k lo).
  - reflexivity.
  - intros ev lv H. destruct lv; try reflexivity; destruct ev; try reflexivity; contradiction.
Qed.

Lemma mergeFiles_json_witness :
  mergeFiles Sample.bare (Sample.template (Sample.method "json")) "package.json"
    Sample.manifest_sources
  = Ok (MergedFileInfo.mk [ "base"; "extra" ]
          (JSON_stringify_2
             (JObject
                [ ("dependencies",
                   JObject [ ("9", JString "4"); ("10", JString "3");
                             ("b", JString "1"); ("a", JString "2") ]);
                  ("keywords", JArray [ JString "x"; JString "y" ]) ]))).
Proof.
  pose proof (mergeFiles_json Sample.bare (Sample.template (Sample.method "json"))
                "package.json" Sample.manifest_sources Sample.manifest_objects)
    as Hmerge.
  destruct Hmerge as [Hmerge _].
  - simpl. lia.
  - reflexivity.
  - repeat constructor.
  - repeat constructor.
  - rewrite Hmerge. reflexivity.
Defined.

(** C2 as stated fails on arrays: the merge concatenates the arrays of
    a common key, where the claim has the later array replace the
    earlier one. *)
Lemma mergeFiles_json_concatenates_arrays :
  exists merged,
    mergeFiles Sample.bare (Sample.template (Sample.method "json")) "package.json"
      Sample.keyword_sources
    = Ok merged
    /\ MergedFileInfo.sourceText merged
       = JSON_stringify_2 (JObject [ ("keywords", JArray [ JString "x"; JString "y" ]) ])
    /\ fold_left json_merge_replacing Sample.keyword_objects (JObject [])
       = JObject [ ("keywords", JArray [ JString "y" ]) ]
    /\ MergedFileInfo.sourceText merged
       <> JSON_stringify_2 (fold_left json_merge_replacing Sample.keyword_objects (JObject [])).
Proof.
  eexists. split; [vm_compute; reflexivity|].
  split; [reflexivity|]. split; [reflexivity|]. vm_compute. discriminate.
Qed.

(** ** Results *)

Lemma bind_ok {A B : Type} (r : result A) (k : A -> result B) (b : B) :
  bind r k = Ok b <-> exists a, r = Ok a /\ k a = Ok b.
Proof.
  destruct r as [a|e|]; simpl.
  - split; [intros H; now exists a | intros [a' [[= <-] H]]; exact H].
  - split; [discriminate | intros [a [H _]]; discriminate].
  - split; [discriminate | intros [a [H _]]; discriminate].
Qed.

Lemma bind_modelled {A B : Type} (r : result A) (k : A -> result B) :
  r <> Unmodelled -> (forall a, r = Ok a -> k a <> Unmodelled) -> bind r k <> Unmodelled.
Proof.
  destruct r as [a|e|]; simpl; intros Hr Hk; [now apply Hk | discriminate | contradiction].
Qed.

Lemma assert_ok (cond : bool) (message : string) (u : unit) :
  assert cond message = Ok u <-> cond = true.
Proof. unfold assert. destruct cond, u; split; congruence. Qed.

Lemma assert_modelled (cond : bool) (message : string) : assert cond message <> Unmodelled.
Proof. unfold assert. destruct cond; discriminate. Qed.

Lemma host_call_ok {A : Type} (r : option A) (a : A) : host_call r = Ok a <-> r = Some a.
Proof. destruct r; simpl; split; congruence. Qed.

Lemma host_call_modelled {A : Type} (r : option A) : host_call r <> Unmodelled.
Proof. destruct r; discriminate. Qed.

Lemma mapM_ok {A B : Type} (f : A -> result B) (l : list A) :
  (exists bs, mapM f l = Ok bs) <-> Forall (fun a => exists b, f a = Ok b) l.
Proof.
  induction l as [|a l IH]; simpl.
  - split; [constructor | now exists []].
  - split.
    + intros [bs H]. apply bind_ok in H as [b [Hb H]].
      apply bind_ok in H as [bs' [Hbs _]].
      constructor; [now exists b | apply IH; now exists bs'].
    + intros H. inversion H as [|? ? [b Hb] Hl]; subst.
      apply IH in Hl as [bs Hbs]. exists (b :: bs). now rewrite Hb, Hbs.
Qed.

Lemma bind_throws {A B : Type} (r : result A) (k : A -> result B) (e : exn) :
  bind r k = Throw e -> r = Throw e \/ exists a, r = Ok a /\ k a = Throw e.
Proof.
  destruct r as [a| |]; simpl; intros H; [right; eauto | left; congruence | discriminate].
Qed.

Lemma mapM_throws {A B : Type} (f : A -> result B) (l : list A) (e : exn) :
  mapM f l = Throw e -> exists a, In a l /\ f a = Throw e.
Proof.
  induction l as [|a l IH]; simpl; [discriminate|]. intros H.
  apply bind_throws in H as [H | [b [_ H]]]; [exists a; now split; [left|]|].
  apply bind_throws in H as [H | [bs [_ H]]]; [|discriminate].
  destruct (IH H) as [a' [Hin Ha']]. exists a'. split; [now right | exact Ha'].
Qed.

Lemma mapM_modelled {A B : Type} (f : A -> result B) (l : list A) :
  (forall a, f a <> Unmodelled) -> mapM f l <> Unmodelled.
Proof.
  intros Hf. induction l as [|a l IH]; simpl; [discriminate|].
  apply bind_modelled; [apply Hf|]. intros b _.
  apply bind_modelled; [exact IH | discriminate].
Qed.

(** ** The template loader *)

Lemma load_files_ok (h : Host) (label variantDirectory : string) (files : list string) :
  (exists r, load_files h label variantDirectory files = Ok r)
  <-> Forall
        (fun path =>
           existsSync h (path_join h variantDirectory path) = true
           /\ readFile h (path_join h variantDirectory path) <> None)
        files.
Proof.
  unfold load_files. split.
  - intros [r H]. apply bind_ok in H as [us [Hasserts H]].
    apply bind_ok in H as [entries [Hreads _]].
    assert (Ha : exists us, mapM
                   (fun path : string =>
                      assert (existsSync h (path_join h variantDirectory path))
                        ("Invalid " ++ label ++ ": the file " ++ path ++ " doesn't exist"))
                   files = Ok us) by now exists us.
    assert (Hr : exists es, mapM
                   (fun path : string =>
                      text <- host_call (readFile h (path_join h variantDirectory path)) ;;
                      Ok (path, text))
                   files = Ok es) by now exists entries.
    apply mapM_ok in Ha, Hr. rewrite Forall_forall in Ha, Hr |- *.
    intros path Hpath. split.
    + destruct (Ha path Hpath) as [u Hu]. now apply assert_ok in Hu.
    + destruct (Hr path Hpath) as [e He]. apply bind_ok in He as [text [Ht _]].
      apply host_call_ok in Ht. congruence.
  - intros H.
    assert (Ha : exists us, mapM
                   (fun path : string =>
                      assert (existsSync h (path_join h variantDirectory path))
                        ("Invalid " ++ label ++ ": the file " ++ path ++ " doesn't exist"))
                   files = Ok us).
    { apply mapM_ok. rewrite Forall_forall in H |- *. intros path Hpath.
      exists tt. apply assert_ok. now apply H. }
    assert (Hr : exists es, mapM
                   (fun path : string =>
                      text <- host_call (readFile h (path_join h variantDirectory path)) ;;
                      Ok (path, text))
                   files = Ok es).
    { apply mapM_ok. rewrite Forall_forall in H |- *. intros path Hpath.
      destruct (H path Hpath) as [_ Hread].
      destruct (readFile h (path_join h variantDirectory path)) as [text|];
        [|contradiction].
      now exists (path, text). }
    destruct Ha as [us Ha], Hr as [es Hr]. rewrite Ha. simpl. rewrite Hr. simpl.
    now eexists.
Qed.

Lemma load_files_modelled (h : Host) (label variantDirectory : string)
    (files : list string) :
  load_files h label variantDirectory files <> Unmodelled.
Proof.
  unfold load_files. apply bind_modelled.
  - apply mapM_modelled. intros path. apply assert_modelled.
  - intros _ _. apply bind_modelled; [|discriminate].
    apply mapM_modelled. intros path. apply bind_modelled; [apply host_call_modelled|].
    discriminate.
Qed.

Lemma load_variant_ok (h : Host) (id templateDirectory : string)
    (variantFiles : list (string * obj string)) (used : list string)
    (entry : string * TemplateVariant.t) :
  (exists state, load_variant h id templateDirectory (variantFiles, used) entry = Ok state)
  <-> ~ In (TemplateVariant.displayName (snd entry)) used
      /\ variant_loads h templateDirectory entry.
Proof.
  destruct entry as [variantId variant]. unfold load_variant, variant_loads. simpl.
  split.
  - intros [state H].
    apply bind_ok in H as [u1 [Hname H]]. apply assert_ok in Hname.
    apply bind_ok in H as [u2 [Hexists H]]. apply assert_ok in Hexists.
    apply bind_ok in H as [isDir [Hstat H]]. apply host_call_ok in Hstat.
    apply bind_ok in H as [u3 [Hdir H]]. apply assert_ok in Hdir. subst isDir.
    apply bind_ok in H as [files [Hfiles _]].
    split.
    + intros Hin. apply includes_In in Hin. rewrite Hin in Hname. discriminate.
    + split; [assumption|]. split; [assumption|].
      apply (load_files_ok h (variantLabel variantId id)). now exists files.
  - intros [Hname [Hexists [Hstat Hfiles]]].
    apply (load_files_ok h (variantLabel variantId id)) in Hfiles as [files Hfiles].
    assert (Hfresh : includes (TemplateVariant.displayName variant) used = false).
    { destruct (includes (TemplateVariant.displayName variant) used) eqn:E; [|reflexivity].
      apply includes_In in E. contradiction. }
    rewrite Hfresh, Hexists, Hstat. simpl. rewrite Hfiles. simpl. now eexists.
Qed.

Lemma load_variant_used (h : Host) (id templateDirectory : string)
    (state state' : list (string * obj string) * list string)
    (entry : string * TemplateVariant.t) :
  load_variant h id templateDirectory state entry = Ok state' ->
  snd state' = TemplateVariant.displayName (snd entry) :: snd state.
Proof.
  destruct state as [variantFiles used], entry as [variantId variant].
  unfold load_variant. intros H.
  apply bind_ok in H as [u1 [_ H]]. apply bind_ok in H as [u2 [_ H]].
  apply bind_ok in H as [isDir [_ H]]. apply bind_ok in H as [u3 [_ H]].
  apply bind_ok in H as [files [_ H]]. injection H as <-. reflexivity.
Qed.

Lemma load_variant_modelled (h : Host) (id templateDirectory : string)
    (state : list (string * obj string) * list string)
    (entry : string * TemplateVariant.t) :
  load_variant h id templateDirectory state entry <> Unmodelled.
Proof.
  destruct state as [variantFiles used], entry as [variantId variant].
  unfold load_variant.
  apply bind_modelled; [apply assert_modelled|]. intros _ _.
  apply bind_modelled; [apply assert_modelled|]. intros _ _.
  apply bind_modelled; [apply host_call_modelled|]. intros isDir _.
  apply bind_modelled; [apply assert_modelled|]. intros _ _.
  apply bind_modelled; [apply load_files_modelled | discriminate].
Qed.

Lemma foldM_modelled {S A : Type} (f : S -> A -> result S) (l : list A) (s : S) :
  (forall s a, In a l -> f s a <> Unmodelled) -> foldM f l s <> Unmodelled.
Proof.
  revert s. induction l as [|a l IH]; simpl; intros s Hf; [discriminate|].
  apply bind_modelled; [apply Hf; now left|].
  intros s' _. apply IH. intros s'' a' Ha'. apply Hf. now right.
Qed.

Lemma foldM_cons {S A : Type} (f : S -> A -> result S) (a : A) (l : list A) (s : S) :
  foldM f (a :: l) s = (s' <- f s a ;; foldM f l s').
Proof. reflexivity. Qed.

Lemma load_variants_ok (h : Host) (id templateDirectory : string)
    (variants : obj TemplateVariant.t) :
  forall variantFiles used,
    (exists state,
        foldM (load_variant h id templateDirectory) variants (variantFiles, used) = Ok state)
    <-> Forall (variant_loads h templateDirectory) variants
        /\ NoDup (variant_displayNames variants)
        /\ (forall n, In n (variant_displayNames variants) -> ~ In n used).
Proof.
  induction variants as [|entry variants IH]; intros variantFiles used.
  - split; [intros _; repeat split; [constructor | constructor | intros n []]
           | intros _; now eexists].
  - rewrite foldM_cons. split.
    + intros [state H]. apply bind_ok in H as [[variantFiles' used'] [Hstep Hrest]].
      pose proof (load_variant_used _ _ _ _ _ _ Hstep) as Hused. simpl in Hused. subst used'.
      assert (Hstep' : exists s, load_variant h id templateDirectory (variantFiles, used) entry
                                 = Ok s) by (eexists; exact Hstep).
      apply load_variant_ok in Hstep' as [Hfresh Hloads].
      assert (Hrest' : exists s,
                 foldM (load_variant h id templateDirectory) variants
                   (variantFiles', TemplateVariant.displayName (snd entry) :: used) = Ok s)
        by (eexists; exact Hrest).
      apply IH in Hrest' as [Hall [Hnodup Hdisjoint]].
      split; [now constructor|]. split.
      * constructor; [|assumption]. intros Hin. apply (Hdisjoint _ Hin). now left.
      * intros n [<-|Hn]; [assumption|]. intros Hin. apply (Hdisjoint _ Hn). now right.
    + intros [Hall [Hnodup Hdisjoint]].
      inversion Hall as [|? ? Hloads Hall']; subst.
      apply NoDup_cons_iff in Hnodup as [Hhead Hnodup].
      assert (Hstep : exists s, load_variant h id templateDirectory (variantFiles, used) entry
                                = Ok s).
      { apply load_variant_ok. split; [|assumption]. apply Hdisjoint. now left. }
      destruct Hstep as [[variantFiles' used'] Hstep].
      pose proof (load_variant_used _ _ _ _ _ _ Hstep) as Hused. simpl in Hused. subst used'.
      rewrite Hstep. change (bind (Ok ?s) ?k) with (k s). cbv beta.
      apply IH. split; [assumption|]. split; [assumption|].
      intros n Hn [<-|Hin]; [contradiction|]. apply (Hdisjoint n); [now right | assumption].
Qed.

Lemma load_variants_modelled (h : Host) (id templateDirectory : string)
    (variants : obj TemplateVariant.t) (state : list (string * obj string) * list string) :
  foldM (load_variant h id templateDirectory) variants state <> Unmodelled.
Proof. apply foldM_modelled. intros s a _. apply load_variant_modelled. Qed.

(** One round of the loop over the template directories succeeds when
    the directory passes the loader and its display name is new. *)
Lemma load_template_ok (h : Host) (dir : string)
    (loaded : list (string * LoadedTemplate.t)) (used : list string) (id : string) :
  (forall state,
      load_template h dir (loaded, used) id = Ok state ->
      exists definition,
        template_loads h dir id definition
        /\ ~ In (Template.displayName (as_Template definition)) used
        /\ snd state = Template.displayName (as_Template definition) :: used)
  /\ (forall definition,
        template_loads h dir id definition ->
        ~ In (Template.displayName (as_Template definition)) used ->
        exists state, load_template h dir (loaded, used) id = Ok state).
Proof.
  unfold load_template, template_loads. cbv zeta. split.
  - intros state H.
    apply bind_ok in H as [isDir [Hstat H]]. apply host_call_ok in Hstat.
    apply bind_ok in H as [u1 [Hdir H]]. apply assert_ok in Hdir. subst isDir.
    apply bind_ok in H as [u2 [Hexists H]]. apply assert_ok in Hexists.
    apply bind_ok in H as [text [Hread H]]. apply host_call_ok in Hread.
    apply bind_ok in H as [definition [Hparse H]].
    destruct (isValid_template definition) eqn:Hvalid; [|discriminate].
    apply bind_ok in H as [u3 [Hname H]]. apply assert_ok in Hname.
    apply bind_ok in H as [[variantFiles used'] [Hvariants H]].
    injection H as <-.
    assert (Hv : exists s,
               foldM (load_variant h id (path_resolve h dir id))
                 (Template.variants (as_Template definition)) ([], []) = Ok s)
      by (eexists; exact Hvariants).
    apply load_variants_ok in Hv as [Hall [Hnodup _]].
    exists definition. split; [|split; [|reflexivity]].
    + repeat split; try assumption. now exists text.
    + intros Hin. apply includes_In in Hin. rewrite Hin in Hname. discriminate.
  - intros definition [Hstat [Hexists [[text [Hread Hparse]] [Hvalid [Hnodup Hall]]]]] Hfresh.
    assert (Hv : exists s,
               foldM (load_variant h id (path_resolve h dir id))
                 (Template.variants (as_Template definition)) ([], []) = Ok s).
    { apply load_variants_ok. split; [assumption|]. split; [assumption|]. intros n _ []. }
    destruct Hv as [[variantFiles used'] Hv].
    assert (Hname : includes (Template.displayName (as_Template definition)) used = false).
    { destruct (includes (Template.displayName (as_Template definition)) used) eqn:E;
        [|reflexivity].
      apply includes_In in E. contradiction. }
    rewrite Hstat. cbn [bind host_call assert]. rewrite Hexists. cbn [bind host_call assert].
    rewrite Hread. cbn [bind host_call assert]. rewrite Hparse. cbn [bind host_call assert].
    rewrite Hvalid, Hname. cbn [bind host_call assert negb]. rewrite Hv.
    cbn [bind]. now eexists.
Qed.

Lemma load_template_modelled (h : Host) (dir : string)
    (state : list (string * LoadedTemplate.t) * list string) (id : string) :
  (forall text,
      readFile h (path_join h (path_resolve h dir id) "template.json") = Some text ->
      JSON_parse text <> Unmodelled) ->
  load_template h dir state id <> Unmodelled.
Proof.
  intros Hparse. destruct state as [loaded used]. unfold load_template.
  apply bind_modelled; [apply host_call_modelled|]. intros isDir _.
  apply bind_modelled; [apply assert_modelled|]. intros _ _.
  apply bind_modelled; [apply assert_modelled|]. intros _ _.
  apply bind_modelled; [apply host_call_modelled|]. intros text Hread.
  apply host_call_ok in Hread.
  apply bind_modelled; [now apply Hparse|]. intros definition _.
  destruct (isValid_template definition); [|discriminate].
  apply bind_modelled; [apply assert_modelled|]. intros _ _.
  apply bind_modelled; [apply load_variants_modelled|]. intros [variantFiles used'] _.
  discriminate.
Qed.

Lemma load_templates_ok (h : Host) (dir : string) (ids : list string) :
  forall loaded used,
    (exists state, foldM (load_template h dir) ids (loaded, used) = Ok state)
    <-> exists definitions,
          Forall2 (template_loads h dir) ids definitions
          /\ NoDup (template_displayNames definitions)
          /\ (forall n, In n (template_displayNames definitions) -> ~ In n used).
Proof.
  induction ids as [|id ids IH]; intros loaded used.
  - split.
    + intros _. exists []. repeat split; [constructor | constructor | intros n []].
    + intros _. now eexists.
  - rewrite foldM_cons. split.
    + intros [state H]. apply bind_ok in H as [[loaded' used'] [Hstep Hrest]].
      destruct (proj1 (load_template_ok h dir loaded used id) _ Hstep)
        as [definition [Hloads [Hfresh Hused]]].
      simpl in Hused. subst used'.
      assert (Hrest' : exists s,
                 foldM (load_template h dir) ids
                   (loaded', Template.displayName (as_Template definition) :: used) = Ok s)
        by (eexists; exact Hrest).
      apply IH in Hrest' as [definitions [Hall [Hnodup Hdisjoint]]].
      exists (definition :: definitions). split; [now constructor|]. split.
      * simpl. constructor; [|assumption]. intros Hin. apply (Hdisjoint _ Hin). now left.
      * intros n [<-|Hn]; [assumption|]. intros Hin. apply (Hdisjoint _ Hn). now right.
    + intros [definitions [Hall [Hnodup Hdisjoint]]].
      inversion Hall as [|? definition ? definitions' Hloads Hall']; subst.
      simpl in Hnodup. apply NoDup_cons_iff in Hnodup as [Hhead Hnodup].
      destruct (proj2 (load_template_ok h dir loaded used id) definition Hloads)
        as [[loaded' used'] Hstep]; [apply Hdisjoint; now left|].
      destruct (proj1 (load_template_ok h dir loaded used id) _ Hstep)
        as [definition' [[_ [_ [[text' [Hread' Hparse']] _]]] [_ Hused]]].
      destruct Hloads as [_ [_ [[text [Hread Hparse]] _]]].
      assert (definition' = definition) by congruence. subst definition'.
      simpl in Hused. subst used'. rewrite Hstep.
      change (bind (Ok ?s) ?k) with (k s). cbv beta.
      apply IH. exists definitions'. split; [assumption|]. split; [assumption|].
      intros n Hn [<-|Hin]; [contradiction|].
      apply (Hdisjoint n); [now right | assumption].
Qed.

Lemma readTemplates_ok (h : Host) (dir : string) :
  (exists loaded, readTemplates h dir = Ok loaded) <-> templates_load h dir.
Proof.
  unfold readTemplates, templates_load. split.
  - intros [r H]. apply bind_ok in H as [u [Hexists H]]. apply assert_ok in Hexists.
    apply bind_ok in H as [ids [Hlist H]]. apply host_call_ok in Hlist.
    apply bind_ok in H as [[loaded used] [Hfold _]].
    assert (Hf : exists s, foldM (load_template h dir) ids ([], []) = Ok s)
      by (eexists; exact Hfold).
    apply load_templates_ok in Hf as [definitions [Hall [Hnodup _]]].
    split; [assumption|]. now exists ids, definitions.
  - intros [Hexists [ids [definitions [Hlist [Hall Hnodup]]]]].
    assert (Hf : exists s, foldM (load_template h dir) ids ([], []) = Ok s).
    { apply load_templates_ok. exists definitions. repeat split; try assumption.
      intros n _ []. }
    destruct Hf as [[loaded used] Hf].
    rewrite Hexists. simpl. rewrite Hlist. simpl. rewrite Hf. simpl. now eexists.
Qed.

Lemma readTemplates_modelled (h : Host) (dir : string) :
  definitions_modelled h dir -> readTemplates h dir <> Unmodelled.
Proof.
  intros Hmodelled. unfold readTemplates.
  apply bind_modelled; [apply assert_modelled|]. intros _ _.
  apply bind_modelled; [apply host_call_modelled|]. intros ids Hlist.
  apply host_call_ok in Hlist.
  apply bind_modelled; [|intros [loaded used] _; discriminate].
  apply foldM_modelled. intros state id Hid. apply load_template_modelled.
  intros text Hread. now apply (Hmodelled ids id text).
Qed.

Lemma templates_load_definition (h : Host) (dir : string) (ids : list string)
    (id text : string) (definition : json) :
  templates_load h dir ->
  readdir h dir = Some ids -> In id ids ->
  readFile h (path_join h (path_resolve h dir id) "template.json") = Some text ->
  JSON_parse text = Ok definition ->
  template_loads h dir id definition.
Proof.
  intros [_ [ids' [definitions [Hlist [Hall _]]]]] Hlist' Hid Hread Hparse.
  assert (ids' = ids) by congruence. subst ids'. clear Hlist Hlist'.
  induction Hall as [|id' definition' ids definitions Hloads _ IH]; [contradiction|].
  destruct Hid as [->|Hid]; [|now apply IH].
  pose proof Hloads as [_ [_ [[text' [Hread' Hparse']] _]]].
  assert (definition' = definition) by congruence. now subst.
Qed.

(** C4, as the code has it.  Loading succeeds exactly when every check
    of the loader passes: the templates directory is there and can be
    listed; each entry is a directory whose [template.json] is there,
    can be read, parses and passes the schema; the display names of the
    templates, and those of the variants of each template, are distinct;
    each variant's directory is there and is a directory; and each
    declared file is there and can be read.  Loading fails in all other
    cases, among them an absent declared file and a definition that
    fails the schema. *)
Theorem readTemplates_loads (h : Host) (dir : string) :
  ((exists loaded, readTemplates h dir = Ok loaded) <-> templates_load h dir)
  /\ (definitions_modelled h dir ->
      ((exists e, readTemplates h dir = Throw e) <-> ~ templates_load h dir))
  /\ (declared_file_absent h dir -> ~ templates_load h dir)
  /\ (definition_invalid h dir -> ~ templates_load h dir).
Proof.
  split; [apply readTemplates_ok|]. split; [|split].
  - intros Hmodelled. pose proof (readTemplates_modelled h dir Hmodelled) as Hm.
    rewrite <- readTemplates_ok. destruct (readTemplates h dir) as [loaded|e|].
    + split; [intros [e H]; discriminate | intros H; exfalso; apply H; now eexists].
    + split; [intros _ [loaded H]; discriminate | intros _; now eexists].
    + contradiction.
  - intros [ids [id [text [definition [variantId [variant [path H]]]]]]] Hloads.
    destruct H as [Hlist [Hid [Hread [Hparse [Hvariant [Hpath Habsent]]]]]].
    pose proof (templates_load_definition h dir ids id text definition
                  Hloads Hlist Hid Hread Hparse) as [_ [_ [_ [_ [_ Hall]]]]].
    rewrite Forall_forall in Hall. destruct (Hall _ Hvariant) as [_ [_ Hfiles]].
    rewrite Forall_forall in Hfiles. destruct (Hfiles _ Hpath) as [Hexists _].
    simpl in Hexists. congruence.
  - intros [ids [id [text [definition [Hlist [Hid [Hread [Hparse Hinvalid]]]]]]]] Hloads.
    pose proof (templates_load_definition h dir ids id text definition
                  Hloads Hlist Hid Hread Hparse) as [_ [_ [_ [Hvalid _]]]].
    congruence.
Qed.

Lemma twin_templates_modelled : definitions_modelled Sample.twin_templates "templates".
Proof.
  intros ids id text Hlist Hid Hread. vm_compute in Hlist. injection Hlist as <-.
  destruct Hid as [<-|[<-|[]]]; vm_compute in Hread; injection Hread as <-;
    vm_compute; discriminate.
Qed.

Lemma readTemplates_loads_witness :
  templates_load Sample.one_template "templates"
  /\ ((exists e, readTemplates Sample.twin_templates "templates" = Throw e)
      <-> ~ templates_load Sample.twin_templates "templates").
Proof.
  split.
  - apply (proj1 (readTemplates_loads Sample.one_template "templates")).
    eexists. vm_compute. reflexivity.
  - apply (proj1 (proj2 (readTemplates_loads Sample.twin_templates "templates"))).
    apply twin_templates_modelled.
Defined.

(** C4 as stated fails: two templates with the same display name, every
    declared file present and both definitions valid, and loading
    fails. *)
Lemma readTemplates_duplicate_display_name :
  readTemplates Sample.twin_templates "templates"
  = Throw (AssertionError "Invalid template `b`: duplicate display name")
  /\ ~ declared_file_absent Sample.twin_templates "templates"
  /\ ~ definition_invalid Sample.twin_templates "templates".
Proof.
  split; [vm_compute; reflexivity|]. split.
  - intros [ids [id [text [definition [variantId [variant [path H]]]]]]].
    destruct H as [Hlist [Hid [Hread [Hparse [Hvariant [Hpath Habsent]]]]]].
    vm_compute in Hlist. injection Hlist as <-.
    destruct Hid as [<-|[<-|[]]]; vm_compute in Hread; injection Hread as <-;
      vm_compute in Hparse; injection Hparse as <-;
      vm_compute in Hvariant; destruct Hvariant as [Hv|[]];
      injection Hv as <- <-; vm_compute in Hpath; destruct Hpath as [<-|[]];
      vm_compute in Habsent; discriminate.
  - intros [ids [id [text [definition [Hlist [Hid [Hread [Hparse Hinvalid]]]]]]]].
    vm_compute in Hlist. injection Hlist as <-.
    destruct Hid as [<-|[<-|[]]]; vm_compute in Hread; injection Hread as <-;
      vm_compute in Hparse; injection Hparse as <-;
      vm_compute in Hinvalid; discriminate.
Qed.

(** ** The fuel of the parser *)

Lemma skip_ws_length (s : string) : String.length (skip_ws s) <= String.length s.
Proof.
  induction s as [|c s IH]; simpl; [lia|]. destruct (is_ws c); simpl; lia.
Qed.

Lemma after_length (c : ascii) (s r : string) :
  after c s = Some r -> String.length s = S (String.length r).
Proof.
  destruct s as [|x s]; simpl; [discriminate|].
  destruct (Ascii.eqb x c); [|discriminate]. now intros [= ->].
Qed.

Lemma parse_chars_length (s acc t r : string) :
  parse_chars s acc = Ok (t, r) -> String.length r < String.length s.
Proof.
  remember (String.length s) as n eqn:Hn. revert s acc Hn.
  induction n as [n IH] using lt_wf_ind. intros s acc Hn.
  destruct s as [|c s]; simpl; [discriminate|]. simpl in Hn.
  destruct (Ascii.eqb c dquote); [intros [= _ <-]; lia|].
  destruct (Ascii.eqb c "\").
  - destruct s as [|e s]; [discriminate|]. simpl in Hn.
    repeat match goal with
           | |- (if Ascii.eqb e ?x then _ else _) = _ -> _ =>
               destruct (Ascii.eqb e x);
               [try (intros H; apply (IH (String.length s)) in H; [lia | lia | reflexivity])|]
           end; try discriminate.
    destruct s as [|h1 [|h2 [|h3 [|h4 s]]]]; try discriminate.
    destruct (hex4 h1 h2 h3 h4) as [m|]; [|discriminate].
    destruct (m <? 256)%N; [|discriminate].
    intros H. apply (IH (String.length s)) in H; simpl in *; [lia | lia | reflexivity].
  - destruct (code c <? 32)%N; [discriminate|].
    intros H. apply (IH (String.length s)) in H; [lia | lia | reflexivity].
Qed.

Lemma parse_digits_length (s : string) (acc n : N) (r : string) :
  parse_digits s acc = (n, r) -> String.length r <= String.length s.
Proof.
  revert acc. induction s as [|c s IH]; simpl; intros acc.
  - intros [= _ <-]. simpl. lia.
  - destruct (digit_of c).
    + intros H. apply IH in H. lia.
    + intros [= _ <-]. simpl. lia.
Qed.

Lemma parse_number_length (negative : bool) (s : string) (v : json) (r : string) :
  parse_number negative s = Ok (v, r) -> String.length r < String.length s.
Proof.
  unfold parse_number. destruct s as [|c s]; [discriminate|].
  destruct (digit_of c) as [d|]; [|discriminate].
  destruct (if (d =? 0)%N then (0%N, s) else parse_digits s d) as [n rest] eqn:Hrest.
  assert (Hlen : String.length rest <= String.length s).
  { destruct (d =? 0)%N; [injection Hrest as _ <-; lia | now apply parse_digits_length in Hrest]. }
  destruct (starts_fraction rest); [discriminate|].
  destruct (n <=? max_safe_integer)%N; [|discriminate].
  intros [= _ <-]. simpl. lia.
Qed.

Lemma prefix_length (lit s : string) :
  String.prefix lit s = true ->
  String.length (substring_from (String.length lit) s) + String.length lit = String.length s.
Proof.
  revert s. induction lit as [|c lit IH]; intros s H.
  - simpl. lia.
  - destruct s as [|x s]; simpl in H; [discriminate|].
    destruct (ascii_dec c x); [|discriminate]. apply IH in H. simpl. lia.
Qed.

Lemma expect_length (lit : string) (v : json) (s : string) (v' : json) (r : string) :
  expect lit v s = Ok (v', r) -> String.length r + String.length lit = String.length s.
Proof.
  unfold expect. destruct (String.prefix lit s) eqn:E; [|discriminate].
  intros [= _ <-]. now apply prefix_length.
Qed.

Lemma parse_scalar_length (c : ascii) (r : string) (v : json) (rest : string) :
  parse_scalar c r = Ok (v, rest) -> String.length rest <= String.length r.
Proof.
  unfold parse_scalar.
  destruct (Ascii.eqb c dquote).
  { intros H. apply bind_ok in H as [[t r'] [H1 H2]].
    apply parse_chars_length in H1. injection H2 as _ <-. lia. }
  destruct (Ascii.eqb c "-");
    [intros H; apply parse_number_length in H; lia|].
  destruct (Ascii.eqb c "t");
    [intros H; apply expect_length in H; simpl in H; lia|].
  destruct (Ascii.eqb c "f");
    [intros H; apply expect_length in H; simpl in H; lia|].
  destruct (Ascii.eqb c "n");
    [intros H; apply expect_length in H; simpl in H; lia|].
  intros H. apply parse_number_length in H. simpl in H. lia.
Qed.

Lemma parse_key_length (s k r : string) :
  parse_key s = Ok (k, r) -> String.length r < String.length s.
Proof.
  unfold parse_key. pose proof (skip_ws_length s) as Hs.
  destruct (after dquote (skip_ws s)) as [r0|] eqn:E0; [|discriminate].
  apply after_length in E0. intros H. apply bind_ok in H as [[k' r1] [H1 H2]].
  apply parse_chars_length in H1. pose proof (skip_ws_length r1) as Hr1.
  destruct (after ":" (skip_ws r1)) as [r2|] eqn:E2; [|discriminate].
  apply after_length in E2. injection H2 as _ <-. lia.
Qed.

(** With more fuel than twice the length of the input the parser never
    runs out of it, and a value that is read consumes input. *)
Lemma parse_fuel (fuel : nat) :
  (forall s, 2 * String.length s < fuel ->
     parse_value fuel s <> None
     /\ forall v r, parse_value fuel s = Some (Ok (v, r)) -> String.length r < String.length s)
  /\ (forall s acc, 2 * String.length s + 1 < fuel ->
        parse_elements fuel s acc <> None
        /\ forall v r, parse_elements fuel s acc = Some (Ok (v, r)) ->
                       String.length r < String.length s)
  /\ (forall s acc, 2 * String.length s + 1 < fuel ->
        parse_members fuel s acc <> None
        /\ forall v r, parse_members fuel s acc = Some (Ok (v, r)) ->
                       String.length r < String.length s).
Proof.
  induction fuel as [|fuel [IHv [IHe IHm]]]; [repeat split; intros; lia|].
  split; [|split].
  - intros s Hfuel. simpl. pose proof (skip_ws_length s) as Hs.
    destruct (skip_ws s) as [|c r0] eqn:Es; [split; [discriminate | intros v r [=]]|].
    simpl in Hs. pose proof (skip_ws_length r0) as Hr0.
    destruct (Ascii.eqb c "{").
    { destruct (after "}" (skip_ws r0)) as [r'|] eqn:E.
      - apply after_length in E. split; [discriminate|]. intros v r [= _ <-]. lia.
      - destruct (IHm r0 [] ltac:(lia)) as [Hsome Hlen]. split; [assumption|].
        intros v r H. apply Hlen in H. lia. }
    destruct (Ascii.eqb c "[").
    { destruct (after "]" (skip_ws r0)) as [r'|] eqn:E.
      - apply after_length in E. split; [discriminate|]. intros v r [= _ <-]. lia.
      - destruct (IHe r0 [] ltac:(lia)) as [Hsome Hlen]. split; [assumption|].
        intros v r H. apply Hlen in H. lia. }
    split; [discriminate|]. intros v r [= H]. apply parse_scalar_length in H. lia.
  - intros s acc Hfuel. simpl.
    destruct (IHv s ltac:(lia)) as [Hsome Hlen].
    destruct (parse_value fuel s) as [[[x r1]|e|]|]; [|split; [discriminate|intros v r [=]]
                                                     |split; [discriminate|intros v r [=]]
                                                     |contradiction].
    specialize (Hlen x r1 eq_refl). pose proof (skip_ws_length r1) as Hr1.
    destruct (after "," (skip_ws r1)) as [r'|] eqn:E.
    + apply after_length in E.
      destruct (IHe r' (acc ++ [x])%list ltac:(lia)) as [Hsome' Hlen'].
      split; [assumption|]. intros v r H. apply Hlen' in H. lia.
    + destruct (after "]" (skip_ws r1)) as [r'|] eqn:E'.
      * apply after_length in E'. split; [discriminate|]. intros v r [= _ <-]. lia.
      * split; [discriminate | intros v r [=]].
  - intros s acc Hfuel. simpl.
    destruct (parse_key s) as [[k r2]|e|] eqn:Ek;
      [|split; [discriminate|intros v r [=]] | split; [discriminate|intros v r [=]]].
    apply parse_key_length in Ek.
    destruct (IHv r2 ltac:(lia)) as [Hsome Hlen].
    destruct (parse_value fuel r2) as [[[x r3]|e|]|]; [|split; [discriminate|intros v r [=]]
                                                      |split; [discriminate|intros v r [=]]
                                                      |contradiction].
    specialize (Hlen x r3 eq_refl). pose proof (skip_ws_length r3) as Hr3.
    destruct (after "," (skip_ws r3)) as [r4|] eqn:E.
    + apply after_length in E.
      destruct (IHm r4 (obj_set k x acc) ltac:(lia)) as [Hsome' Hlen'].
      split; [assumption|]. intros v r H. apply Hlen' in H. lia.
    + destruct (after "}" (skip_ws r3)) as [r4|] eqn:E'.
      * apply after_length in E'. split; [discriminate|]. intros v r [= _ <-]. lia.
      * split; [discriminate | intros v r [=]].
Qed.

(** [JSON_parse] supplies enough fuel: its result never stands for an
    exhausted fuel. *)
Lemma JSON_parse_fuel (text : string) :
  parse_value (2 * String.length text + 2) text <> None.
Proof. apply (proj1 (parse_fuel _)). lia. Qed.

(** ** Loaded templates *)

Lemma map_set_fresh {A : Type} (k : string) (v : A) (m : list (string * A)) :
  ~ In k (obj_keys m) -> map_set k v m = (m ++ [(k, v)])%list.
Proof. intros H. apply obj_has_false in H. unfold map_set. now rewrite H. Qed.

Lemma Forall_map_set {A : Type} (P : string * A -> Prop) (k : string) (v : A)
    (m : list (string * A)) :
  P (k, v) -> Forall P m -> Forall P (map_set k v m).
Proof.
  intros Hv Hm. unfold map_set. destruct (obj_has k m).
  - rewrite Forall_forall in Hm |- *. intros e He.
    destruct (In_obj_replace k v m e He) as [->|Hin]; [assumption | now apply Hm].
  - apply Forall_app. split; [assumption | now constructor].
Qed.

Lemma load_variant_inv (h : Host) (id templateDirectory : string)
    (variantFiles : list (string * obj string)) (used : list string)
    (entry : string * TemplateVariant.t)
    (state : list (string * obj string) * list string) :
  load_variant h id templateDirectory (variantFiles, used) entry = Ok state ->
  exists entries, fst state = map_set (fst entry) (obj_fromEntries entries) variantFiles.
Proof.
  destruct entry as [variantId variant]. unfold load_variant, load_files. intros H.
  apply bind_ok in H as [u1 [_ H]]. apply bind_ok in H as [u2 [_ H]].
  apply bind_ok in H as [isDir [_ H]]. apply bind_ok in H as [u3 [_ H]].
  apply bind_ok in H as [files [Hfiles H]]. injection H as <-.
  apply bind_ok in Hfiles as [us [_ Hfiles]].
  apply bind_ok in Hfiles as [entries [_ Hfiles]]. injection Hfiles as <-.
  now exists entries.
Qed.

Lemma load_variants_catalog (h : Host) (id templateDirectory : string)
    (variants : obj TemplateVariant.t) :
  forall variantFiles used state,
    foldM (load_variant h id templateDirectory) variants (variantFiles, used) = Ok state ->
    NoDup (obj_keys variantFiles ++ obj_keys variants)%list ->
    Forall (fun kv => NoDup (obj_keys (snd kv))) variantFiles ->
    obj_keys (fst state) = (obj_keys variantFiles ++ obj_keys variants)%list
    /\ Forall (fun kv => NoDup (obj_keys (snd kv))) (fst state).
Proof.
  induction variants as [|entry variants IH]; intros variantFiles used state H Hnodup Hinner.
  - injection H as <-. simpl. now rewrite app_nil_r.
  - rewrite foldM_cons in H. apply bind_ok in H as [[variantFiles' used'] [Hstep Hrest]].
    destruct (load_variant_inv _ _ _ _ _ _ _ Hstep) as [entries Hfiles]. simpl in Hfiles.
    assert (Hfresh : ~ In (fst entry) (obj_keys variantFiles)).
    { intros Hin. simpl in Hnodup. apply NoDup_remove_2 in Hnodup.
      apply Hnodup. apply in_or_app. now left. }
    rewrite (map_set_fresh _ _ _ Hfresh) in Hfiles. subst variantFiles'.
    apply IH in Hrest as [Hkeys Hinner'].
    + split; [|assumption]. rewrite Hkeys. unfold obj_keys. rewrite map_app. simpl.
      now rewrite <- app_assoc.
    + unfold obj_keys in *. rewrite map_app. simpl in *. now rewrite <- app_assoc.
    + apply Forall_app. split; [assumption|]. constructor; [|constructor]. simpl.
      apply (canonical_fromEntries entries).
Qed.

Lemma obj_keys_map_values {A B : Type} (f : A -> B) (o : obj A) :
  obj_keys (map_values f o) = obj_keys o.
Proof. unfold obj_keys, map_values. rewrite map_map. reflexivity. Qed.

Lemma as_Template_variants_canonical (definition : json) :
  wf definition -> canonical (Template.variants (as_Template definition)).
Proof.
  intros Hwf. unfold as_Template. simpl.
  destruct definition as [| | | | |o]; try apply canonical_nil.
  destruct (obj_get "variants" o) as [[| | | | |vs]|] eqn:Hget; try apply canonical_nil.
  apply wf_object in Hwf as [_ Hvalues]. rewrite Forall_forall in Hvalues.
  apply obj_get_In, Hvalues, wf_object in Hget as [Hc _].
  unfold canonical in *. now rewrite obj_keys_map_values.
Qed.

Lemma load_template_catalog (h : Host) (dir : string)
    (loaded : list (string * LoadedTemplate.t)) (used : list string) (id : string)
    (state : list (string * LoadedTemplate.t) * list string) :
  load_template h dir (loaded, used) id = Ok state ->
  Forall (fun kv => loaded_ok (snd kv)) loaded ->
  Forall (fun kv => loaded_ok (snd kv)) (fst state).
Proof.
  unfold load_template. intros H Hloaded.
  apply bind_ok in H as [isDir [_ H]]. apply bind_ok in H as [u1 [_ H]].
  apply bind_ok in H as [u2 [_ H]]. apply bind_ok in H as [text [_ H]].
  apply bind_ok in H as [definition [Hparse H]].
  destruct (isValid_template definition); [|discriminate].
  apply bind_ok in H as [u3 [_ H]].
  apply bind_ok in H as [[variantFiles used'] [Hvariants H]]. injection H as <-.
  simpl. apply Forall_map_set; [|assumption].
  pose proof (as_Template_variants_canonical definition (JSON_parse_wf _ _ Hparse)) as Hc.
  apply load_variants_catalog in Hvariants as [Hkeys Hinner];
    [|exact (proj1 Hc) | constructor].
  simpl in Hkeys, Hinner.
  assert (Hcanonical : canonical variantFiles).
  { unfold canonical in *. now rewrite Hkeys. }
  unfold loaded_ok, catalog_ok, LoadedTemplate.variants. simpl.
  rewrite (obj_fromEntries_canonical variantFiles Hcanonical).
  split; [exact Hkeys|]. split; [exact (proj1 Hcanonical) | exact Hinner].
Qed.

(** Every template that the loader returns has a catalog that follows
    the variants of its definition and holds no key twice. *)
Lemma readTemplates_catalog (h : Host) (dir : string) (loaded : obj LoadedTemplate.t) :
  readTemplates h dir = Ok loaded -> Forall (fun kv => loaded_ok (snd kv)) loaded.
Proof.
  unfold readTemplates. intros H.
  apply bind_ok in H as [u [_ H]]. apply bind_ok in H as [ids [_ H]].
  apply bind_ok in H as [[entries used] [Hfold H]]. injection H as <-.
  assert (Hentries : Forall (fun kv => loaded_ok (snd kv)) entries).
  { change entries with (fst (entries, used)).
    revert Hfold. generalize (entries, used). generalize (@nil string).
    assert (Hnil : Forall (fun kv : string * LoadedTemplate.t => loaded_ok (snd kv)) [])
      by constructor.
    revert Hnil. generalize (@nil (string * LoadedTemplate.t)).
    induction ids as [|id ids IH]; intros acc Hacc used0 state Hfold.
    - injection Hfold as <-. exact Hacc.
    - rewrite foldM_cons in Hfold. apply bind_ok in Hfold as [[acc' used1] [Hstep Hrest]].
      apply (IH acc' (load_template_catalog _ _ _ _ _ _ Hstep Hacc) used1 state Hrest). }
  unfold obj_fromEntries.
  assert (Hgen : forall l acc,
             Forall (fun kv : string * LoadedTemplate.t => loaded_ok (snd kv)) l ->
             Forall (fun kv => loaded_ok (snd kv)) acc ->
             Forall (fun kv => loaded_ok (snd kv))
               (fold_left (fun o kv => obj_set (fst kv) (snd kv) o) l acc)).
  { induction l as [|[k t] l IHl]; intros acc Hl Hacc; [assumption|].
    inversion Hl; subst. simpl. apply IHl; [assumption|]. now apply Forall_set. }
  apply Hgen; [assumption | constructor].
Qed.

(** ** The order of the contributions *)

Lemma obj_has_filter (path : string) (files : obj string) :
  obj_has path files
  = negb (Nat.eqb (length (filter (fun f => String.eqb path (fst f)) files)) 0).
Proof.
  unfold obj_has. induction files as [|[p text] files IH]; simpl; [reflexivity|].
  destruct (String.eqb path p); [reflexivity | exact IH].
Qed.

Lemma contributions_of_variants (active : list string) (path : string)
    (catalog : obj (obj string)) :
  Forall (fun kv => NoDup (obj_keys (snd kv))) catalog ->
  variants_of (contributions_of active path catalog)
  = obj_keys (filter (fun kv => includes (fst kv) active && obj_has path (snd kv)) catalog).
Proof.
  unfold variants_of, contributions_of, obj_keys.
  induction catalog as [|[k files] catalog IH]; intros Hinner; [reflexivity|].
  inversion Hinner as [|? ? Hk Hrest]; subst. simpl in Hk |- *.
  rewrite map_app, (IH Hrest), obj_has_filter.
  pose proof (filter_eqb_NoDup path files Hk) as Hlen.
  destruct (includes k active); [|reflexivity].
  destruct (filter (fun f => String.eqb path (fst f)) files) as [|f [|f' fs]];
    simpl in Hlen |- *; try lia; reflexivity.
Qed.

(** X27. The contribution list of every path follows the catalog of the
    template: the active variants in the order the catalog enumerates
    them, each adding its text for the path.  The order of the user's
    selection plays no part: two selections with the same members
    collect the same map.  For a template as the loader builds it, the
    contributing variants are the keys of the definition's variants, in
    the order in which that object enumerates them, that are active and
    supply the path. *)
Theorem collect_catalog_order (template : LoadedTemplate.t) (variantIds : list string)
    (path : string) :
  let active := getVariantIdsWithRequired variantIds template in
  obj_get path (collect template active)
  = match contributions template active path with
    | [] => None
    | l => Some l
    end
  /\ (forall variantIds',
        (forall id, In id variantIds <-> In id variantIds') ->
        collect template (getVariantIdsWithRequired variantIds' template)
        = collect template active)
  /\ (loaded_ok template ->
      variants_of (contributions template active path)
      = filter (fun id => includes id active && supplies template id path)
          (obj_keys (LoadedTemplate.variants template))).
Proof.
  cbv zeta. split; [apply collect_lookup|]. split.
  - intros variantIds' Hsame. unfold collect, appliedVariantFiles. f_equal.
    apply filter_ext. intros kv. apply includes_ext. intros id.
    unfold getVariantIdsWithRequired. rewrite !in_app_iff, Hsame. reflexivity.
  - intros [Hkeys [Hnodup Hinner]]. unfold contributions.
    rewrite (contributions_of_variants _ _ _ Hinner), <- Hkeys.
    rewrite (filter_by_lookup
               (fun id files =>
                  includes id (getVariantIdsWithRequired variantIds template)
                  && obj_has path files)
               _ Hnodup).
    apply filter_ext. intros id. unfold supplies.
    destruct (obj_get id (LoadedTemplate.variantFiles template));
      [reflexivity | now rewrite andb_false_r].
Qed.

Lemma collect_catalog_order_witness :
  obj_get "package.json"
    (collect (Sample.template None)
       (getVariantIdsWithRequired [ "extra"; "base" ] (Sample.template None)))
  = Some [ SourceFileInfo.mk "base" Sample.base_manifest;
           SourceFileInfo.mk "extra" Sample.extra_manifest ]
  /\ collect (Sample.template None)
       (getVariantIdsWithRequired [ "base"; "extra" ] (Sample.template None))
     = collect (Sample.template None)
         (getVariantIdsWithRequired [ "extra"; "base" ] (Sample.template None))
  /\ variants_of
       (contributions (Sample.template None)
          (getVariantIdsWithRequired [ "extra"; "base" ] (Sample.template None))
          "README.md")
     = [ "base" ].
Proof.
  pose proof (collect_catalog_order (Sample.template None) [ "extra"; "base" ] "package.json")
    as [Hlookup [Horder _]].
  pose proof (collect_catalog_order (Sample.template None) [ "extra"; "base" ] "README.md")
    as [_ [_ Hdeclared]].
  split; [|split].
  - rewrite Hlookup. reflexivity.
  - apply Horder. intros id. simpl. tauto.
  - rewrite Hdeclared; [reflexivity|].
    split; [reflexivity|].
    split; simpl; repeat constructor; simpl; intuition discriminate.
Defined.

(** C8 fails on the code: a definition that declares the variant [b]
    before the variant [1] is loaded with [1] first, since an object
    enumerates array-index keys before the others.  The contributions
    to [notes.txt] are then those of [1], then [b], and the merge method
    [last] writes the file of [b], the variant declared first. *)
Lemma collect_index_variant_first :
  exists t,
    readTemplates Sample.numbered "templates" = Ok [ ("num", t) ]
    /\ obj_keys (LoadedTemplate.variantFiles t) = [ "1"; "b" ]
    /\ obj_get "notes.txt" (collect t (getVariantIdsWithRequired [ "b"; "1" ] t))
       = Some [ SourceFileInfo.mk "1" "from 1"; SourceFileInfo.mk "b" "from b" ]
    /\ run Sample.numbered (Sample.output Sample.numbered) Sample.config t "pkg"
         [ "b"; "1" ]
       = Ok [ OutputFile.mk "notes.txt" "packages/pkg/notes.txt"
                (MergedFileInfo.mk [ "b" ] "from b") ].
Proof.
  eexists. split; [vm_compute; reflexivity|].
  split; [reflexivity|]. split; vm_compute; reflexivity.
Qed.

(** ** Reading back what JSON.stringify writes *)

Lemma string_app_assoc (a b c : string) : (a ++ b) ++ c = a ++ b ++ c.
Proof. induction a as [|x a IH]; simpl; [reflexivity | now rewrite IH]. Qed.

Lemma string_app_nil (a : string) : a ++ EmptyString = a.
Proof. induction a as [|x a IH]; simpl; [reflexivity | now rewrite IH]. Qed.

(** Each character is read back from its escaped form. *)
Lemma parse_quote_char (c : ascii) (tail acc : string) :
  parse_chars (quote_char c ++ tail) acc = parse_chars tail (acc ++ str c).
Proof. destruct c as [[] [] [] [] [] [] [] []]; reflexivity. Qed.

Lemma parse_quote_chars (s rest acc : string) :
  parse_chars (quote_chars s ++ String dquote rest) acc = Ok (acc ++ s, rest).
Proof.
  revert acc. induction s as [|c s IH]; intros acc; simpl.
  - now rewrite string_app_nil.
  - rewrite string_app_assoc, parse_quote_char, IH, string_app_assoc. reflexivity.
Qed.

Lemma quote_quoted (s rest : string) : quote s ++ rest = quoted s rest.
Proof. unfold quote, quoted, str. simpl. now rewrite string_app_assoc. Qed.

Lemma parse_value_quoted (fuel : nat) (s rest : string) :
  parse_value (S fuel) (quoted s rest) = Some (Ok (JString s, rest)).
Proof.
  unfold quoted. simpl. unfold parse_scalar. simpl. now rewrite parse_quote_chars.
Qed.

Lemma parse_key_quoted (k rest : string) :
  parse_key (quoted k (String ":" rest)) = Ok (k, rest).
Proof. unfold parse_key, quoted. simpl. now rewrite parse_quote_chars. Qed.

Lemma parse_members_eq (fuel : nat) (s : string) (acc : obj json) :
  parse_members (S fuel) s acc
  = match parse_key s with
    | Ok (k, r2) =>
        match parse_value fuel r2 with
        | None => None
        | Some (Ok (v, r3)) =>
            match after "," (skip_ws r3) with
            | Some r4 => parse_members fuel r4 (obj_set k v acc)
            | None =>
                match after "}" (skip_ws r3) with
                | Some r4 => Some (Ok (JObject (obj_set k v acc), r4))
                | None => Some (Throw SyntaxError)
                end
            end
        | Some (Throw e) => Some (Throw e)
        | Some Unmodelled => Some Unmodelled
        end
    | Throw e => Some (Throw e)
    | Unmodelled => Some Unmodelled
    end.
Proof. reflexivity. Qed.

(** A member with a string value, followed by a further member. *)
Lemma parse_members_more (fuel : nat) (k v rest : string) (acc : obj json) :
  parse_members (S (S fuel)) (quoted k (String ":" (quoted v (String "," rest)))) acc
  = parse_members (S fuel) rest (obj_set k (JString v) acc).
Proof. now rewrite parse_members_eq, parse_key_quoted, parse_value_quoted. Qed.

(** The last member, with a string value. *)
Lemma parse_members_last (fuel : nat) (k v rest : string) (acc : obj json) :
  parse_members (S (S fuel)) (quoted k (String ":" (quoted v (String "}" rest)))) acc
  = Some (Ok (JObject (obj_set k (JString v) acc), rest)).
Proof. now rewrite parse_members_eq, parse_key_quoted, parse_value_quoted. Qed.

(** The text of the synthetic source parses as the object it was
    written from. *)
Lemma internal_node_parses (config : Config.t) (packageName : string) :
  JSON_parse (SourceFileInfo.sourceText (internal_node config packageName))
  = Ok (JObject [ ("name", JString (getFullName config packageName));
                  ("version", JString "0.1.0") ]).
Proof.
  unfold internal_node. cbn [SourceFileInfo.sourceText].
  generalize (getFullName config packageName). intros full.
  assert (Htext : JSON_stringify (JObject [ ("name", JString full); ("version", JString "0.1.0") ])
                  = String "{" (quoted "name" (String ":" (quoted full
                      (String "," (quoted "version" (String ":" (quoted "0.1.0" "}")))))))).
  { cbn [JSON_stringify map join fst snd].
    rewrite <- !quote_quoted. cbn [append]. rewrite !string_app_assoc. reflexivity. }
  unfold JSON_parse. rewrite Htext.
  set (text := String "{" _).
  assert (Hfuel : exists m, 2 * String.length text + 2 = S (S (S (S m)))).
  { exists (2 * String.length text - 2). unfold text. simpl. lia. }
  destruct Hfuel as [m ->]. unfold text. clear text Htext.
  change (parse_value (S (S (S (S m)))) (String "{" ?r)) with (parse_members (S (S (S m))) r []).
  rewrite parse_members_more, parse_members_last. reflexivity.
Qed.

(** ** The rounds of a run *)

Lemma obj_get_of_In {A : Type} (k : string) (v : A) (o : obj A) :
  NoDup (obj_keys o) -> In (k, v) o -> obj_get k o = Some v.
Proof.
  induction o as [|[k' v'] o IH]; intros Hnd Hin; [contradiction|].
  simpl in *. inversion Hnd as [|? ? Hfresh Hnd']; subst.
  destruct Hin as [E | Hin].
  - injection E as -> ->. now rewrite String.eqb_refl.
  - destruct (String.eqb k k') eqn:E.
    + apply String.eqb_eq in E. subst k'. exfalso. apply Hfresh.
      apply (in_map fst) in Hin. exact Hin.
    + now apply IH.
Qed.

Lemma keys_push_source (path : string) (s : SourceFileInfo.t) (files : file_map)
    (p : string) :
  In p (obj_keys (push_source path s files)) <-> p = path \/ In p (obj_keys files).
Proof.
  induction files as [|[q arr] files IH]; simpl; [intuition congruence|].
  destruct (String.eqb path q) eqn:E; simpl.
  - apply String.eqb_eq in E. subst q. intuition congruence.
  - rewrite IH. intuition congruence.
Qed.

Lemma NoDup_push_source (path : string) (s : SourceFileInfo.t) (files : file_map) :
  NoDup (obj_keys files) -> NoDup (obj_keys (push_source path s files)).
Proof.
  induction files as [|[q arr] files IH]; intros Hnd; simpl.
  - constructor; [intros [] | constructor].
  - simpl in Hnd. inversion Hnd as [|? ? Hfresh Hnd']; subst.
    destruct (String.eqb path q) eqn:E; simpl; [now constructor|].
    constructor; [|now apply IH].
    rewrite keys_push_source. intros [-> | Hin]; [|contradiction].
    now rewrite String.eqb_refl in E.
Qed.

Lemma NoDup_collect (template : LoadedTemplate.t) (active : list string) :
  NoDup (obj_keys (collect template active)).
Proof.
  unfold collect. generalize (appliedVariantFiles template active).
  assert (Hnil : NoDup (obj_keys (@nil (string * list SourceFileInfo.t)))) by constructor.
  revert Hnil. generalize (@nil (string * list SourceFileInfo.t)).
  intros files Hfiles catalog. revert files Hfiles.
  induction catalog as [|[name vfs] catalog IH]; intros files Hfiles; [exact Hfiles|].
  simpl. apply IH. unfold collect_variant. clear IH. revert files Hfiles.
  induction vfs as [|[p text] vfs IHv]; intros files Hfiles; [exact Hfiles|].
  simpl. apply IHv. now apply NoDup_push_source.
Qed.

Lemma nonempty_collect (template : LoadedTemplate.t) (active : list string) :
  nonempty_arrays (collect template active).
Proof. unfold collect. apply collect_fold_nonempty. constructor. Qed.



Lemma mapM_Forall2 {A B : Type} (f : A -> result B) (l : list A) (bs : list B) :
  mapM f l = Ok bs <-> Forall2 (fun a b => f a = Ok b) l bs.
Proof.
  revert bs. induction l as [|a l IH]; intros bs; simpl.
  - split; [intros [= <-]; constructor | intros H; inversion H; reflexivity].
  - rewrite bind_ok. split.
    + intros [b [Hb H]]. apply bind_ok in H as [bs' [Hbs [= <-]]].
      constructor; [exact Hb | now apply IH].
    + intros H. inversion H as [|? b ? bs' Hb Hbs]; subst.
      exists b. split; [exact Hb|]. apply IH in Hbs. now rewrite Hbs.
Qed.

Lemma Forall2_nth_error {A B : Type} (R : A -> B -> Prop) (l : list A) (bs : list B) :
  Forall2 R l bs ->
  forall n b, nth_error bs n = Some b -> exists a, nth_error l n = Some a /\ R a b.
Proof.
  induction 1 as [|a b l bs Hab _ IH]; intros n y Hn.
  - destruct n; discriminate.
  - destruct n as [|n]; simpl in Hn.
    + injection Hn as <-. now exists a.
    + now apply IH.
Qed.

Lemma nth_error_numbered {A : Type} (l : list A) (start n : nat) :
  nth_error (combine (seq start (length l)) l) n
  = option_map (pair (start + n)) (nth_error l n).
Proof.
  revert start n. induction l as [|a l IH]; intros start [|n]; simpl; try reflexivity.
  - now rewrite Nat.add_0_r.
  - rewrite IH. now rewrite Nat.add_succ_r.
Qed.

Lemma nth_error_rounds {A : Type} (l : list A) (n : nat) :
  nth_error (rounds l) n = option_map (pair n) (nth_error l n).
Proof. apply (nth_error_numbered l 0 n). Qed.

Lemma In_rounds {A : Type} (l : list A) (n : nat) (a : A) :
  In (n, a) (rounds l) <-> nth_error l n = Some a.
Proof.
  split.
  - intros Hin. apply In_nth_error in Hin as [i Hi].
    rewrite nth_error_rounds in Hi.
    destruct (nth_error l i) as [x|] eqn:E; [|discriminate].
    injection Hi as <- <-. exact E.
  - intros Hn. apply (nth_error_In _ n). now rewrite nth_error_rounds, Hn.
Qed.

(** A round succeeds when the merge, the [mkdir] and the [writeFile]
    do; the file is written under the output directory. *)
Lemma run_round_ok (h : Host) (out : Output) (config : Config.t)
    (template : LoadedTemplate.t) (packageName : string) (n : nat)
    (entry : string * list SourceFileInfo.t) (w : OutputFile.t) :
  run_round h out config template packageName (n, entry) = Ok w
  <-> run_file (host_in_round h out n) config template packageName entry
      = Ok (fst entry, OutputFile.file w)
      /\ OutputFile.path w = fst entry
      /\ OutputFile.outputPath w = path_join h (saveLocation out) (fst entry)
      /\ mkdir_recursive out n (dirname out (OutputFile.outputPath w)) = Some tt
      /\ writeFile out n (OutputFile.outputPath w)
           (MergedFileInfo.sourceText (OutputFile.file w))
         = Some tt.
Proof.
  unfold run_round, write_file. cbn [fst snd]. split.
  - intros H. apply bind_ok in H as [[path fileSource] [Hmerge H]]. cbn [fst snd] in H.
    assert (Hpath : path = fst entry).
    { unfold run_file in Hmerge. apply bind_ok in Hmerge as [merged [_ Hmerge]].
      apply bind_ok in Hmerge as [written [_ Hmerge]]. now injection Hmerge as <- _. }
    subst path.
    apply bind_ok in H as [[] [Hmkdir H]]. apply bind_ok in H as [[] [Hwrite H]].
    injection H as <-. cbn [OutputFile.file OutputFile.path OutputFile.outputPath].
    apply host_call_ok in Hmkdir, Hwrite. repeat split; assumption.
  - destruct w as [path outputPath file].
    cbn [OutputFile.file OutputFile.path OutputFile.outputPath].
    intros (Hmerge & -> & -> & Hmkdir & Hwrite).
    rewrite Hmerge. cbn [bind fst snd]. rewrite Hmkdir. cbn [host_call bind].
    rewrite Hwrite. reflexivity.
Qed.

(** What a run that succeeds wrote: round by round, the entries of the
    file map, each merged from the contributions of the active variants
    and written under the output directory. *)
Lemma run_written (h : Host) (out : Output) (config : Config.t)
    (template : LoadedTemplate.t) (packageName : string) (variantIds : list string)
    (written : list OutputFile.t) :
  run h out config template packageName variantIds = Ok written ->
  let active := getVariantIdsWithRequired variantIds template in
  length written = length (collect template active)
  /\ forall n w,
       nth_error written n = Some w ->
       nth_error (collect template active) n
       = Some (OutputFile.path w, contributions template active (OutputFile.path w))
       /\ run_round h out config template packageName
            (n, (OutputFile.path w, contributions template active (OutputFile.path w)))
          = Ok w.
Proof.
  intros H active. unfold run in H. fold active in H.
  apply mapM_Forall2 in H. split.
  - apply Forall2_length in H. unfold rounds in H.
    rewrite length_combine, length_seq, Nat.min_id in H. now symmetry.
  - intros n w Hw.
    destruct (Forall2_nth_error _ _ _ H n w Hw) as [[i entry] [Hround Hok]].
    rewrite nth_error_rounds in Hround.
    destruct (nth_error (collect template active) n) as [entry'|] eqn:Hentry;
      [|discriminate].
    injection Hround as <- <-.
    pose proof (proj1 (run_round_ok _ _ _ _ _ _ _ _) Hok) as (_ & Hpath & _).
    destruct entry' as [path sources]. cbn [fst] in Hpath. subst path.
    assert (Hsources : sources = contributions template active (OutputFile.path w)).
    { apply nth_error_In in Hentry.
      apply obj_get_of_In in Hentry; [|apply NoDup_collect].
      rewrite collect_lookup in Hentry.
      destruct (contributions template active (OutputFile.path w)); congruence. }
    subst sources. split; [reflexivity | exact Hok].
Qed.

Lemma run_written_keys (h : Host) (out : Output) (config : Config.t)
    (template : LoadedTemplate.t) (packageName : string) (variantIds : list string)
    (written : list OutputFile.t) :
  run h out config template packageName variantIds = Ok written ->
  map OutputFile.path written
  = obj_keys (collect template (getVariantIdsWithRequired variantIds template)).
Proof.
  intros H. destruct (run_written _ _ _ _ _ _ _ H) as [Hlen Hnth].
  apply nth_error_ext. intros n. unfold obj_keys. rewrite !nth_error_map.
  destruct (nth_error written n) as [w|] eqn:Hw.
  - destruct (Hnth n w Hw) as [Hentry _]. now rewrite Hentry.
  - apply nth_error_None in Hw. rewrite Hlen in Hw. apply nth_error_None in Hw.
    now rewrite Hw.
Qed.

(** The merge that a written file comes from. *)
Lemma run_written_merge (h : Host) (out : Output) (config : Config.t)
    (template : LoadedTemplate.t) (packageName : string) (variantIds : list string)
    (written : list OutputFile.t) (n : nat) (w : OutputFile.t) :
  run h out config template packageName variantIds = Ok written ->
  nth_error written n = Some w ->
  let path := OutputFile.path w in
  let supplied := contributions template (getVariantIdsWithRequired variantIds template) path in
  exists merged,
    mergeFiles (host_in_round h out n) template path
      (merge_input config packageName (path, supplied))
    = Ok merged
    /\ finish_file path merged = Ok (OutputFile.file w).
Proof.
  intros H Hw path supplied.
  destruct (run_written _ _ _ _ _ _ _ H) as [_ Hnth].
  destruct (Hnth n w Hw) as [_ Hround].
  apply run_round_ok in Hround as (Hmerge & _). cbn [fst] in Hmerge.
  unfold run_file in Hmerge. cbn [fst] in Hmerge.
  apply bind_ok in Hmerge as [merged [Hmerged Hmerge]].
  apply bind_ok in Hmerge as [file [Hfile Hmerge]]. injection Hmerge as <-.
  now exists merged.
Qed.

(** A run that throws does so in one of its rounds: in the merge of the
    sources of that round's path, in the second parse of the manifest,
    or in the write. *)
Lemma run_thrown (h : Host) (out : Output) (config : Config.t)
    (template : LoadedTemplate.t) (packageName : string) (variantIds : list string)
    (e : exn) :
  run h out config template packageName variantIds = Throw e ->
  let active := getVariantIdsWithRequired variantIds template in
  exists n path,
    nth_error (obj_keys (collect template active)) n = Some path
    /\ (merged <- mergeFiles (host_in_round h out n) template path
                    (if String.eqb path "package.json"
                     then internal_node config packageName
                            :: contributions template active path
                     else contributions template active path) ;;
        fileSource <- finish_file path merged ;;
        write_file h out n path fileSource)
       = Throw e.
Proof.
  intros H active. unfold run in H. fold active in H.
  apply mapM_throws in H as [[n [path sources]] [Hin H]].
  apply In_rounds in Hin.
  assert (Hsources : sources = contributions template active path).
  { pose proof (nth_error_In _ _ Hin) as Hentry.
    apply obj_get_of_In in Hentry; [|apply NoDup_collect].
    rewrite collect_lookup in Hentry.
    destruct (contributions template active path); congruence. }
  subst sources. exists n, path. split.
  - unfold obj_keys. now rewrite nth_error_map, Hin.
  - unfold run_round, run_file, merge_input in H. cbn [fst snd] in H.
    destruct (mergeFiles (host_in_round h out n) template path _) as [merged| |];
      cbn [bind] in H |- *; [|exact H | discriminate].
    destruct (finish_file path merged) as [fileSource| |];
      cbn [bind fst snd] in H |- *; [exact H | exact H | discriminate].
Qed.

(** ** The synthetic manifest source *)

(** C1, as the code has it.  When an active variant supplies
    [package.json], the file map has an entry for it and the manifest
    that a run writes is merged from the synthetic [internal.node]
    source followed by the variants' sources.  When none does, the map
    has no entry for it and no written file has that key.  Nothing is
    put before the sources of any other path.  A run that throws does
    so in one round, on the sources of that round's path, with the
    synthetic source first when the path is [package.json].  The text of the
    synthetic source is, and parses as, the JSON object with [name], the
    package name behind the configured scope if there is one, and
    [version] 0.1.0. *)
Theorem package_json_internal_first (h : Host) (out : Output) (config : Config.t)
    (template : LoadedTemplate.t) (packageName : string) (variantIds : list string) :
  let active := getVariantIdsWithRequired variantIds template in
  let supplied := contributions template active "package.json" in
  (supplied <> [] ->
   obj_get "package.json" (collect template active) = Some supplied
   /\ forall written,
        run h out config template packageName variantIds = Ok written ->
        exists n w merged,
          nth_error written n = Some w
          /\ OutputFile.path w = "package.json"
          /\ mergeFiles (host_in_round h out n) template "package.json"
               (internal_node config packageName :: supplied)
             = Ok merged
          /\ finish_file "package.json" merged = Ok (OutputFile.file w))
  /\ (supplied = [] ->
      obj_get "package.json" (collect template active) = None
      /\ forall written,
           run h out config template packageName variantIds = Ok written ->
           ~ In "package.json" (map OutputFile.path written))
  /\ (forall written n w,
        run h out config template packageName variantIds = Ok written ->
        nth_error written n = Some w ->
        OutputFile.path w <> "package.json" ->
        mergeFiles (host_in_round h out n) template (OutputFile.path w)
          (contributions template active (OutputFile.path w))
        = Ok (OutputFile.file w))
  /\ (forall e,
        run h out config template packageName variantIds = Throw e ->
        exists n path,
          nth_error (obj_keys (collect template active)) n = Some path
          /\ (merged <- mergeFiles (host_in_round h out n) template path
                          (if String.eqb path "package.json"
                           then internal_node config packageName
                                  :: contributions template active path
                           else contributions template active path) ;;
              fileSource <- finish_file path merged ;;
              write_file h out n path fileSource)
             = Throw e)
  /\ JSON_parse (SourceFileInfo.sourceText (internal_node config packageName))
     = Ok (JObject [ ("name", JString (getFullName config packageName));
                     ("version", JString "0.1.0") ])
  /\ (Config.scope config = None -> getFullName config packageName = packageName)
  /\ (forall scope, Config.scope config = Some scope -> scope <> EmptyString ->
      getFullName config packageName = scope ++ "/" ++ packageName).
Proof.
  intros active supplied.
  pose proof (collect_lookup template active "package.json") as Hlookup.
  fold supplied in Hlookup.
  split; [|split; [|split; [|split; [|split; [|split]]]]].
  - intros Hne.
    assert (Hget : obj_get "package.json" (collect template active) = Some supplied)
      by (rewrite Hlookup; destruct supplied; congruence).
    split; [exact Hget|]. intros written H.
    assert (Hin : In "package.json" (map OutputFile.path written)).
    { rewrite (run_written_keys _ _ _ _ _ _ _ H). fold active.
      apply obj_get_In in Hget. apply (in_map fst) in Hget. exact Hget. }
    apply In_nth_error in Hin as [n Hn]. rewrite nth_error_map in Hn.
    destruct (nth_error written n) as [w|] eqn:Hw; [|discriminate].
    injection Hn as Hpath.
    destruct (run_written_merge _ _ _ _ _ _ _ n w H Hw) as [merged [Hmerged Hfile]].
    rewrite Hpath in Hmerged, Hfile. fold active in Hmerged. fold supplied in Hmerged.
    exists n, w, merged. repeat split; assumption.
  - intros Hnil.
    assert (Hget : obj_get "package.json" (collect template active) = None)
      by (rewrite Hlookup, Hnil; reflexivity).
    split; [exact Hget|]. intros written H.
    rewrite (run_written_keys _ _ _ _ _ _ _ H). fold active.
    now apply obj_get_none.
  - intros written n w H Hw Hpath.
    destruct (run_written_merge _ _ _ _ _ _ _ n w H Hw) as [merged [Hmerged Hfile]].
    fold active in Hmerged. unfold merge_input in Hmerged. cbn [fst snd] in Hmerged.
    unfold finish_file in Hfile.
    destruct (String.eqb (OutputFile.path w) "package.json") eqn:E;
      [apply String.eqb_eq in E; contradiction|].
    injection Hfile as <-. exact Hmerged.
  - intros e. apply run_thrown.
  - apply internal_node_parses.
  - unfold getFullName. intros ->. reflexivity.
  - unfold getFullName. intros scope -> Hne.
    destruct (String.eqb scope EmptyString) eqn:E; [|reflexivity].
    apply String.eqb_eq in E. contradiction.
Qed.

Lemma package_json_internal_first_witness :
  exists written n w merged,
    run Sample.bare (Sample.output Sample.bare) Sample.config
      (Sample.template (Sample.method "json")) "pkg" [ "extra" ]
    = Ok written
    /\ nth_error written n = Some w
    /\ OutputFile.path w = "package.json"
    /\ mergeFiles (host_in_round Sample.bare (Sample.output Sample.bare) n)
         (Sample.template (Sample.method "json")) "package.json"
         [ internal_node Sample.config "pkg";
           SourceFileInfo.mk "base" Sample.base_manifest;
           SourceFileInfo.mk "extra" Sample.extra_manifest ]
       = Ok merged
    /\ finish_file "package.json" merged = Ok (OutputFile.file w).
Proof.
  destruct (run Sample.bare (Sample.output Sample.bare) Sample.config
              (Sample.template (Sample.method "json")) "pkg" [ "extra" ])
    as [written| |] eqn:E; [|vm_compute in E; discriminate|vm_compute in E; discriminate].
  destruct (package_json_internal_first Sample.bare (Sample.output Sample.bare)
              Sample.config (Sample.template (Sample.method "json")) "pkg" [ "extra" ])
    as [Hfirst _].
  destruct Hfirst as [_ Hrun]; [discriminate|].
  destruct (Hrun written E) as (n & w & merged & Hw & Hpath & Hmerged & Hfile).
  exists written, n, w, merged. repeat split; assumption.
Defined.

(** C1 as stated fails: where no active variant supplies [package.json]
    the map has no entry for it, nothing is prepended, and the run
    writes no manifest. *)
Lemma package_json_absent_without_supplier :
  obj_get "package.json"
    (collect Sample.docs_template (getVariantIdsWithRequired [] Sample.docs_template))
  = None
  /\ run Sample.bare (Sample.output Sample.bare) Sample.config Sample.docs_template "pkg" []
     = Ok [ OutputFile.mk "README.md" "packages/pkg/README.md"
              (MergedFileInfo.mk [ "docs" ] "# docs") ].
Proof. split; reflexivity. Qed.

(** * Further properties of the engine *)

(** ** Splitting and joining *)

Lemma split_nonempty (sep : ascii) (s : string) : split sep s <> [].
Proof. destruct s as [|c r]; simpl; [discriminate|]. destruct (Ascii.eqb c sep); discriminate. Qed.

Lemma join_cons (sep x : string) (l : list string) :
  l <> [] -> join sep (x :: l) = x ++ sep ++ join sep l.
Proof. destruct l; [congruence | reflexivity]. Qed.

Lemma join_split (sep : ascii) (s : string) : join (str sep) (split sep s) = s.
Proof.
  induction s as [|c r IH]; [reflexivity|].
  simpl split. pose proof (split_nonempty sep r) as Hne.
  destruct (Ascii.eqb c sep) eqn:E.
  - apply Ascii.eqb_eq in E. subst c.
    rewrite join_cons by exact Hne. rewrite IH. reflexivity.
  - destruct (split sep r) as [|p q]; [congruence|]. simpl hd. simpl tl.
    destruct q as [|p' q'].
    + simpl in *. now rewrite IH.
    + rewrite join_cons by discriminate. rewrite join_cons in IH by discriminate.
      rewrite <- IH. reflexivity.
Qed.

Lemma split_free (sep : ascii) (x : string) : sep_free sep x = true -> split sep x = [x].
Proof.
  induction x as [|c r IH]; simpl; [reflexivity|].
  intros H. apply andb_prop in H. destruct H as [Hc Hr].
  apply negb_true_iff in Hc. rewrite Hc, (IH Hr). reflexivity.
Qed.

Lemma split_app_sep (sep : ascii) (x rest : string) :
  sep_free sep x = true -> split sep (x ++ String sep rest) = x :: split sep rest.
Proof.
  induction x as [|c r IH]; simpl.
  - now rewrite Ascii.eqb_refl.
  - intros H. apply andb_prop in H. destruct H as [Hc Hr].
    apply negb_true_iff in Hc. rewrite Hc, (IH Hr). reflexivity.
Qed.

Lemma split_join (sep : ascii) (l : list string) :
  l <> [] -> Forall (fun x => sep_free sep x = true) l ->
  split sep (join (str sep) l) = l.
Proof.
  induction l as [|x l IH]; [congruence|]. intros _ Hall.
  inversion Hall as [|? ? Hx Hl]; subst.
  destruct l as [|y l'].
  - simpl. now apply split_free.
  - rewrite join_cons by discriminate. unfold str at 1. simpl append.
    rewrite split_app_sep by exact Hx. f_equal. apply IH; [discriminate | exact Hl].
Qed.

Lemma split_parts_free (sep : ascii) (s : string) :
  Forall (fun x => sep_free sep x = true) (split sep s).
Proof.
  induction s as [|c r IH]; simpl.
  - now constructor.
  - destruct (Ascii.eqb c sep) eqn:E.
    + now constructor.
    + pose proof (split_nonempty sep r) as Hne.
      destruct (split sep r) as [|p q]; [congruence|]. simpl.
      inversion IH; subst. constructor; [|assumption]. simpl. now rewrite E.
Qed.

Lemma last_cons {A : Type} (a d : A) (l : list A) : l <> [] -> last (a :: l) d = last l d.
Proof. destruct l; [congruence | reflexivity]. Qed.

(** A path ends with the separator when it is not empty and its last
    segment is. *)
Lemma endsWith_split (sep : ascii) (s : string) :
  endsWith (str sep) s = true
  <-> s <> EmptyString /\ last (split sep s) EmptyString = EmptyString.
Proof.
  induction s as [|c r IH].
  - simpl. split; [discriminate | intros [H _]; congruence].
  - pose proof (split_nonempty sep r) as Hne.
    pose proof (join_split sep r) as Hjoin.
    change (endsWith (str sep) (String c r))
      with (String.eqb (str sep) (String c r) || endsWith (str sep) r).
    rewrite orb_true_iff, IH. simpl split.
    destruct (Ascii.eqb c sep) eqn:E.
    + rewrite last_cons by exact Hne. apply Ascii.eqb_eq in E. subst c.
      split.
      * intros [H | [_ H]]; (split; [discriminate|]).
        -- apply String.eqb_eq in H. unfold str in H. injection H as <-. reflexivity.
        -- exact H.
      * intros [_ H]. destruct r as [|c' r'].
        -- left. apply String.eqb_refl.
        -- right. split; [discriminate | exact H].
    + assert (Hneq : String.eqb (str sep) (String c r) = false).
      { apply String.eqb_neq. unfold str. intros H. injection H as H _. subst c.
        now rewrite Ascii.eqb_refl in E. }
      rewrite Hneq. destruct (split sep r) as [|p q]; [congruence|]. simpl hd. simpl tl.
      destruct q as [|p' q'].
      * simpl in Hjoin. subst p. simpl. split.
        -- intros [H | [Hr H]]; [discriminate|]. simpl in H. congruence.
        -- intros [_ H]. discriminate.
      * rewrite (last_cons (String c p)), (last_cons p) by discriminate.
        split.
        -- intros [H | [_ H]]; [discriminate|]. split; [discriminate | exact H].
        -- intros [_ H]. right. split; [|exact H].
           intros ->. simpl in Hjoin. destruct p; discriminate.
Qed.

Lemma endsWith_app (t p : string) : endsWith t (p ++ t) = true.
Proof.
  induction p as [|c p IH]; simpl.
  - destruct t; simpl; now rewrite ?String.eqb_refl, ?Ascii.eqb_refl.
  - rewrite IH. apply orb_true_r.
Qed.

Lemma endsWith_suffix (t s : string) :
  endsWith t s = true -> exists p, s = p ++ t.
Proof.
  induction s as [|c r IH].
  - simpl. rewrite orb_false_r. intros H. apply String.eqb_eq in H. subst. now exists EmptyString.
  - change (endsWith t (String c r)) with (String.eqb t (String c r) || endsWith t r).
    intros H. apply orb_prop in H. destruct H as [H | H].
    + apply String.eqb_eq in H. subst. now exists EmptyString.
    + destruct (IH H) as [p ->]. now exists (String c p).
Qed.

Lemma substring_all_but_last (p : string) (c : ascii) :
  substring 0 (String.length (p ++ str c) - 1) (p ++ str c) = p.
Proof.
  induction p as [|x p IH]; [reflexivity|].
  simpl. rewrite Nat.sub_0_r.
  assert (H : String.length (p ++ str c) = S (String.length (p ++ str c) - 1)).
  { clear. induction p; simpl; lia. }
  rewrite H. simpl. f_equal. exact IH.
Qed.

Lemma join_app_tail (sep t : string) (l : list string) :
  l <> [] ->
  join sep (removelast l ++ [(last l EmptyString ++ t)%string])%list = join sep l ++ t.
Proof.
  induction l as [|x l IH]; [congruence|]. intros _.
  destruct l as [|y l'].
  - reflexivity.
  - assert (Hne : y :: l' <> []) by discriminate.
    specialize (IH Hne).
    rewrite (last_cons x) by exact Hne.
    change (removelast (x :: y :: l')) with (x :: removelast (y :: l')).
    cbn [app].
    rewrite join_cons by (destruct (removelast (y :: l')); discriminate).
    rewrite IH, (join_cons sep x) by exact Hne.
    now rewrite !string_app_assoc.
Qed.

Lemma split_app_tail (sep : ascii) (s t : string) :
  sep_free sep t = true ->
  split sep (s ++ t)
  = (removelast (split sep s) ++ [(last (split sep s) EmptyString ++ t)%string])%list.
Proof.
  intros Ht. induction s as [|c r IH].
  - simpl. now apply split_free.
  - pose proof (split_nonempty sep r) as Hne.
    simpl append. simpl split. rewrite IH.
    destruct (Ascii.eqb c sep).
    + rewrite last_cons by exact Hne.
      destruct (split sep r) as [|p q]; [congruence|]. reflexivity.
    + destruct (split sep r) as [|p q]; [congruence|]. simpl hd. simpl tl.
      destruct q as [|p' q']; reflexivity.
Qed.

(** ** Shortened path names *)

Lemma Forall_firstn_skipn {A : Type} (P : A -> Prop) (n : nat) (l : list A) :
  Forall P l -> Forall P (firstn n l) /\ Forall P (skipn n l).
Proof. intros H. rewrite <- (firstn_skipn n l) in H. now apply Forall_app in H. Qed.

Lemma last_append {A : Type} (l l' : list A) (d : A) :
  l' <> [] -> last (l ++ l') d = last l' d.
Proof.
  intros H. induction l as [|a l IH]; [reflexivity|].
  simpl app. rewrite last_cons; [exact IH|].
  destruct l; simpl; [exact H | discriminate].
Qed.

(** The four leading and the three trailing segments of a path of seven
    segments or more. *)
Lemma ends_of_parts {A : Type} (parts : list A) :
  7 <= length parts ->
  exists a b c d x y z,
    firstn 4 parts = [a; b; c; d]
    /\ skipn (length parts - 3) parts = [x; y; z]
    /\ forall e, last parts e = z.
Proof.
  intros Hlen.
  pose proof (firstn_length_le parts (n := 4)) as Hf.
  pose proof (length_skipn (length parts - 3) parts) as Hs.
  pose proof (firstn_skipn (length parts - 3) parts) as Hparts.
  destruct (firstn 4 parts) as [|a [|b [|c [|d [|? ?]]]]]; simpl in Hf; try lia.
  destruct (skipn (length parts - 3) parts) as [|x [|y [|z [|? ?]]]]; simpl in Hs; try lia.
  exists a, b, c, d, x, y, z. split; [reflexivity|]. split; [reflexivity|].
  intros e. rewrite <- Hparts. rewrite last_append by discriminate. reflexivity.
Qed.

Lemma dots_free (sep : ascii) : sep <> "."%char -> sep_free sep "..." = true.
Proof.
  intros H. assert (E : Ascii.eqb "." sep = false).
  { apply Ascii.eqb_neq. congruence. }
  cbn [sep_free]. now rewrite E.
Qed.

(** X1. A path of fewer than seven segments is returned as it is; a
    longer one comes back as eight segments, the first four and the
    last three of the path around an ellipsis, with a slash behind them
    when the path ended with the separator. *)
Theorem getShortPathName_segments (sep : ascii) (path : string) :
  sep <> "."%char ->
  (length (segments sep path) < 7 -> getShortPathName sep path = path)
  /\ (7 <= length (segments sep path) ->
      exists result,
        getShortPathName sep path
        = result ++ (if endsWith (str sep) path then "/" else EmptyString)
        /\ split sep result
           = (firstn 4 (segments sep path)
                ++ "..." :: skipn (length (segments sep path) - 3) (segments sep path))%list
        /\ length (split sep result) = 8).
Proof.
  intros Hsep. unfold getShortPathName, segments, normalised.
  set (parts := split sep (if endsWith (str sep) path then _ else path)).
  split.
  - intros Hlen. apply Nat.ltb_lt in Hlen. now rewrite Hlen.
  - intros Hlen. assert (E : Nat.ltb (length parts) 7 = false) by (apply Nat.ltb_ge; lia).
    rewrite E.
    pose proof (split_parts_free sep (if endsWith (str sep) path
                                      then substring 0 (String.length path - 1) path
                                      else path)) as Hfree.
    fold parts in Hfree.
    destruct (Forall_firstn_skipn _ 4 parts Hfree) as [Hfirst _].
    destruct (Forall_firstn_skipn _ (length parts - 3) parts Hfree) as [_ Hlast].
    exists (join (str sep) (firstn 4 parts ++ "..." :: skipn (length parts - 3) parts)%list).
    split; [|split].
    + destruct (endsWith (str sep) path); [reflexivity | now rewrite string_app_nil].
    + apply split_join.
      * destruct (firstn 4 parts); discriminate.
      * apply Forall_app. split; [exact Hfirst|].
        constructor; [now apply dots_free | exact Hlast].
    + rewrite split_join.
      * rewrite length_app. cbn [length]. rewrite length_skipn, firstn_length_le by lia. lia.
      * destruct (firstn 4 parts); discriminate.
      * apply Forall_app. split; [exact Hfirst|].
        constructor; [now apply dots_free | exact Hlast].
Qed.

Lemma getShortPathName_segments_witness :
  getShortPathName "/" "/a/b" = "/a/b"
  /\ exists result,
       getShortPathName "/" "/home/me/work/repo/node_modules/.bin/pnpm/"
       = result ++ "/"
       /\ split "/" result = [ EmptyString; "home"; "me"; "work"; "..."; "node_modules"; ".bin"; "pnpm" ]
       /\ length (split "/" result) = 8.
Proof.
  split.
  - apply (getShortPathName_segments "/" "/a/b"); [discriminate | simpl; lia].
  - apply (getShortPathName_segments "/" "/home/me/work/repo/node_modules/.bin/pnpm/");
      [discriminate | simpl; lia].
Defined.

(** X2. Shortening a shortened path changes nothing. *)
Theorem getShortPathName_idempotent (sep : ascii) (path : string) :
  sep <> "."%char ->
  getShortPathName sep (getShortPathName sep path) = getShortPathName sep path.
Proof.
  intros Hsep.
  destruct (Nat.ltb (length (segments sep path)) 7) eqn:Hlen.
  - assert (H : getShortPathName sep path = path).
    { unfold getShortPathName. unfold segments, normalised in Hlen. now rewrite Hlen. }
    now rewrite H.
  - apply Nat.ltb_ge in Hlen.
    pose proof (split_parts_free sep (normalised sep path)) as Hfree.
    fold (segments sep path) in Hfree.
    destruct (ends_of_parts (segments sep path) Hlen)
      as (a & b & c & d & x & y & z & Hfirst & Hlast & Hz).
    destruct (Forall_firstn_skipn _ 4 _ Hfree) as [Hf _].
    destruct (Forall_firstn_skipn _ (length (segments sep path) - 3) _ Hfree) as [_ Hl].
    rewrite Hfirst in Hf. rewrite Hlast in Hl.
    assert (Hall : Forall (fun s => sep_free sep s = true) [a; b; c; d; "..."; x; y; z]).
    { inversion Hf as [|? ? Ha Hf1]; subst. inversion Hf1 as [|? ? Hb Hf2]; subst.
      inversion Hf2 as [|? ? Hc Hf3]; subst. inversion Hf3 as [|? ? Hd _]; subst.
      repeat (constructor; [assumption|]).
      constructor; [now apply dots_free | exact Hl]. }
    set (R := join (str sep) [a; b; c; d; "..."; x; y; z]).
    assert (HR : split sep R = [a; b; c; d; "..."; x; y; z]).
    { apply split_join; [discriminate | exact Hall]. }
    assert (Hshort : getShortPathName sep path
                     = if endsWith (str sep) path then R ++ "/" else R).
    { unfold getShortPathName. fold (normalised sep path). fold (segments sep path).
      assert (E : Nat.ltb (length (segments sep path)) 7 = false) by (apply Nat.ltb_ge; lia).
      rewrite E, Hfirst, Hlast. reflexivity. }
    rewrite Hshort.
    destruct (endsWith (str sep) path) eqn:Hends.
    + (* the path ended with the separator *)
      destruct (Ascii.eqb sep "/") eqn:Hslash.
      * apply Ascii.eqb_eq in Hslash. subst sep.
        unfold getShortPathName.
        change (R ++ "/") with (R ++ str "/").
        rewrite endsWith_app, substring_all_but_last, HR. reflexivity.
      * assert (Hfree_slash : sep_free sep "/" = true).
        { cbn [sep_free]. rewrite Ascii.eqb_sym, Hslash. reflexivity. }
        assert (Hsplit : split sep (R ++ "/") = [a; b; c; d; "..."; x; y; z ++ "/"]).
        { rewrite split_app_tail by exact Hfree_slash. rewrite HR. reflexivity. }
        assert (Hno : endsWith (str sep) (R ++ "/") = false).
        { destruct (endsWith (str sep) (R ++ "/")) eqn:E; [|reflexivity].
          apply endsWith_split in E. destruct E as [_ E]. rewrite Hsplit in E.
          simpl in E. destruct z; discriminate. }
        unfold getShortPathName. rewrite Hno, Hsplit.
        change (Nat.ltb (length [a; b; c; d; "..."; x; y; z ++ "/"]) 7) with false.
        cbn [firstn skipn length Nat.sub app].
        change [a; b; c; d; "..."; x; y; z ++ "/"]
          with (removelast [a; b; c; d; "..."; x; y; z]
                  ++ [(last [a; b; c; d; "..."; x; y; z] EmptyString ++ "/")%string])%list.
        rewrite join_app_tail by discriminate. reflexivity.
    + (* it did not: the last segment is not empty *)
      assert (Hzne : z <> EmptyString).
      { intros ->. assert (Hn : normalised sep path = path).
        { unfold normalised. now rewrite Hends. }
        unfold segments in Hz, Hlen. rewrite Hn in Hz, Hlen.
        assert (E : endsWith (str sep) path = true).
        { apply endsWith_split. split; [|apply Hz].
          intros ->. simpl in Hlen. lia. }
        congruence. }
      assert (Hno : endsWith (str sep) R = false).
      { destruct (endsWith (str sep) R) eqn:E; [|reflexivity].
        apply endsWith_split in E. destruct E as [_ E]. rewrite HR in E.
        simpl in E. congruence. }
      unfold getShortPathName. rewrite Hno, HR. reflexivity.
Qed.

Lemma getShortPathName_idempotent_witness :
  getShortPathName "/" (getShortPathName "/" "/home/me/work/repo/node_modules/.bin/pnpm")
  = getShortPathName "/" "/home/me/work/repo/node_modules/.bin/pnpm".
Proof. apply (getShortPathName_idempotent "/"). discriminate. Defined.

(** ** Locating the configuration *)

Lemma ancestor_succ (p : Process) (i : nat) (directory : string) :
  ancestor p (S i) directory = ancestor p i (path_dirname p directory).
Proof. unfold ancestor. apply Nat.iter_succ_r. Qed.

Lemma findConfig_from_step (h : Host) (p : Process) (fuel : nat) (directory : string) :
  lists_config h directory = Some false ->
  findConfig_from h p (S fuel) directory
  = if String.eqb directory (path_dirname p directory)
    then Some (Throw (Error "Could not find create-rpm-library configuration"))
    else findConfig_from h p fuel (path_dirname p directory).
Proof.
  unfold lists_config. intros H. cbn [findConfig_from].
  destruct (readdir h directory) as [files|]; [|discriminate].
  simpl in H. injection H as H. cbn [host_call]. now rewrite H.
Qed.

(** The search passes the directories that list no [.crpml] entry and
    have a parent other than themselves. *)
Lemma findConfig_from_walk (h : Host) (p : Process) (k : nat) :
  forall directory fuel,
    (forall i, i < k ->
       lists_config h (ancestor p i directory) = Some false
       /\ path_dirname p (ancestor p i directory) <> ancestor p i directory) ->
    findConfig_from h p (k + fuel) directory
    = findConfig_from h p fuel (ancestor p k directory).
Proof.
  induction k as [|k IH]; intros directory fuel Hpass; [reflexivity|].
  destruct (Hpass 0) as [Hlist Hparent]; [lia|]. simpl in Hlist, Hparent.
  change (S k + fuel) with (S (k + fuel)).
  rewrite findConfig_from_step by exact Hlist.
  assert (E : String.eqb directory (path_dirname p directory) = false).
  { apply String.eqb_neq. congruence. }
  rewrite E, ancestor_succ. apply IH.
  intros i Hi. rewrite <- ancestor_succ. apply Hpass. lia.
Qed.

(** X3. The search stops at the nearest directory, from the working
    directory upwards, whose listing holds [.crpml]: it returns that
    entry when it is a directory and throws when it is not, whatever
    lies further up. *)
Theorem findConfig_nearest (h : Host) (p : Process) (k fuel : nat) :
  (forall i, i < k ->
     lists_config h (ancestor p i (cwd p)) = Some false
     /\ path_dirname p (ancestor p i (cwd p)) <> ancestor p i (cwd p)) ->
  lists_config h (ancestor p k (cwd p)) = Some true ->
  k < fuel ->
  let found := ancestor p k (cwd p) in
  findConfig h p fuel
  = Some (match stat_isDirectory h (path_resolve h found ".crpml") with
          | Some true => Ok (path_resolve h found ".crpml")
          | Some false =>
              Throw (AssertionError ("Found .crpml that is not a directory, in " ++ found))
          | None => Throw SystemError
          end).
Proof.
  intros Hpass Hlist Hfuel found. subst found. unfold findConfig.
  replace fuel with (k + S (fuel - S k)) by lia.
  rewrite findConfig_from_walk by exact Hpass.
  set (found := ancestor p k (cwd p)) in *.
  unfold lists_config in Hlist. cbn [findConfig_from].
  destruct (readdir h found) as [files|]; [|discriminate].
  simpl in Hlist. injection Hlist as Hlist. cbn [host_call]. rewrite Hlist.
  destruct (stat_isDirectory h (path_resolve h found ".crpml")) as [[|]|]; reflexivity.
Qed.

Lemma findConfig_nearest_witness :
  findConfig Workspace.host Workspace.process 5 = Some (Ok "/ws/.crpml").
Proof.
  apply (findConfig_nearest Workspace.host Workspace.process 2 5).
  - intros i Hi. destruct i as [|[|i]]; [split; [reflexivity | discriminate] .. | lia].
  - reflexivity.
  - lia.
Defined.

(** From a directory that is its own parent the search goes no
    further. *)
Lemma findConfig_from_root (h : Host) (p : Process) (fuel : nat) (directory : string) :
  path_dirname p directory = directory ->
  (exists r, findConfig_from h p (S fuel) directory = Some r)
  /\ (lists_config h directory = Some false ->
      findConfig_from h p (S fuel) directory
      = Some (Throw (Error "Could not find create-rpm-library configuration"))).
Proof.
  intros Hroot. split.
  - cbn [findConfig_from]. destruct (host_call (readdir h directory)) as [files| |];
      [|eauto|eauto].
    destruct (includes ".crpml" files); [eauto|].
    rewrite Hroot, String.eqb_refl. eauto.
  - intros Hnone. rewrite findConfig_from_step by exact Hnone.
    now rewrite Hroot, String.eqb_refl.
Qed.

(** X4. Once some ancestor of the working directory is its own parent,
    the search ends within that many steps; it ends with the error that
    no configuration was found when none of the directories up to there
    lists a [.crpml] entry. *)
Theorem findConfig_ends (h : Host) (p : Process) (n fuel : nat) :
  path_dirname p (ancestor p n (cwd p)) = ancestor p n (cwd p) ->
  n < fuel ->
  (exists r, findConfig h p fuel = Some r)
  /\ ((forall i, i <= n -> lists_config h (ancestor p i (cwd p)) = Some false) ->
      findConfig h p fuel
      = Some (Throw (Error "Could not find create-rpm-library configuration"))).
Proof.
  unfold findConfig. generalize (cwd p). revert fuel.
  induction n as [|n IH]; intros fuel directory Hroot Hfuel;
    (destruct fuel as [|fuel]; [lia|]).
  - destruct (findConfig_from_root h p fuel directory Hroot) as [Hsome Hthrow].
    split; [exact Hsome|]. intros Hnone. apply Hthrow. apply (Hnone 0). lia.
  - rewrite ancestor_succ in Hroot.
    destruct (IH fuel (path_dirname p directory) Hroot) as [Hsome Hthrow]; [lia|].
    split.
    + cbn [findConfig_from]. destruct (host_call (readdir h directory)) as [files| |];
        [|eauto|eauto].
      destruct (includes ".crpml" files); [eauto|].
      destruct (String.eqb directory (path_dirname p directory)); [eauto | exact Hsome].
    + intros Hnone. rewrite findConfig_from_step by (apply (Hnone 0); lia).
      destruct (String.eqb directory (path_dirname p directory)); [reflexivity|].
      apply Hthrow. intros i Hi. rewrite <- ancestor_succ. apply Hnone. lia.
Qed.

Lemma findConfig_ends_witness :
  findConfig Workspace.host Workspace.outside 1
  = Some (Throw (Error "Could not find create-rpm-library configuration")).
Proof.
  apply (findConfig_ends Workspace.host Workspace.outside 0 1).
  - reflexivity.
  - lia.
  - intros i Hi. assert (i = 0) by lia. subst. reflexivity.
Defined.

(** ** Reading the configuration *)

Lemma readConfigFile_inv (h : Host) (path : string) (config : Config.t) :
  readConfigFile h path = Ok config
  <-> existsSync h path = true
      /\ exists text parsed,
           readFile h path = Some text
           /\ JSON_parse text = Ok parsed
           /\ isValid_config parsed = true
           /\ config = as_Config parsed.
Proof.
  unfold readConfigFile, assert. split.
  - destruct (existsSync h path); [|discriminate]. cbn [bind].
    destruct (readFile h path) as [text|]; [|discriminate]. cbn [host_call bind].
    destruct (JSON_parse text) as [parsed| |] eqn:Hparse; [|discriminate|discriminate].
    cbn [bind]. destruct (isValid_config parsed) eqn:E; [|discriminate].
    intros H. injection H as <-. split; [reflexivity|].
    exists text, parsed. repeat split; try reflexivity; assumption.
  - intros (-> & text & parsed & -> & Hparse & Hvalid & ->). cbn [bind host_call].
    rewrite Hparse. cbn [bind]. now rewrite Hvalid.
Qed.

Lemma config_field_spec (o : obj json) (k : string) (ok : string -> bool) :
  property_ok
    (fun x => match x with JNull => true | JString s => ok s | _ => false end) k o = true
  <-> config_field o k ok (get_string k o).
Proof.
  unfold property_ok, config_field, get_string.
  destruct (obj_get k o) as [[| | | s | |]|]; simpl; intuition congruence.
Qed.

(** X5. The configuration file is accepted exactly when it is there,
    can be read and holds a JSON object whose [outDir], if any, is a
    string or [null] and whose [scope], if any, is [null] or a string
    that starts with [@]; the loaded configuration carries the two
    strings, and nothing for [null]. *)
Theorem readConfigFile_accepts (h : Host) (path : string) (config : Config.t) :
  readConfigFile h path = Ok config
  <-> existsSync h path = true
      /\ exists text o,
           readFile h path = Some text
           /\ JSON_parse text = Ok (JObject o)
           /\ config_field o "outDir" (fun _ => true) (Config.outDir config)
           /\ config_field o "scope" (startsWith "@") (Config.scope config).
Proof.
  rewrite readConfigFile_inv. split.
  - intros (Hex & text & parsed & Hread & Hparse & Hvalid & ->).
    split; [exact Hex|]. destruct parsed as [| | | | |o]; try discriminate.
    exists text, o. split; [exact Hread|]. split; [exact Hparse|].
    unfold isValid_config in Hvalid. apply andb_prop in Hvalid.
    destruct Hvalid as [Hout Hscope]. cbn [as_Config Config.outDir Config.scope].
    split; [apply (config_field_spec o "outDir" (fun _ => true)) |
            apply (config_field_spec o "scope" (startsWith "@"))]; assumption.
  - intros (Hex & text & o & Hread & Hparse & Hout & Hscope).
    split; [exact Hex|]. exists text, (JObject o).
    split; [exact Hread|]. split; [exact Hparse|].
    pose proof (proj2 (config_field_spec o "outDir" (fun _ => true))) as Ho.
    pose proof (proj2 (config_field_spec o "scope" (startsWith "@"))) as Hs.
    unfold config_field in *. destruct config as [outDir scope].
    cbn [Config.outDir Config.scope] in *.
    unfold isValid_config, as_Config.
    assert (E1 : get_string "outDir" o = outDir).
    { unfold get_string. destruct (obj_get "outDir" o) as [[| | | s | |]|];
        solve [ easy | destruct Hout; congruence ]. }
    assert (E2 : get_string "scope" o = scope).
    { unfold get_string. destruct (obj_get "scope" o) as [[| | | s | |]|];
        solve [ easy | destruct Hscope; congruence ]. }
    split; [|now rewrite E1, E2].
    apply andb_true_intro. split.
    + apply Ho. unfold get_string. destruct (obj_get "outDir" o) as [[| | | s | |]|];
        solve [ easy | destruct Hout; split; congruence ].
    + apply Hs. unfold get_string. destruct (obj_get "scope" o) as [[| | | s | |]|];
        solve [ easy | destruct Hscope; split; congruence ].
Qed.

(** X6. With a configuration that was read from disk, a package name is
    either the entered name or the entered name behind a scope that
    starts with [@]. *)
Theorem readConfigFile_scoped_names (h : Host) (path : string) (config : Config.t)
    (input : string) :
  readConfigFile h path = Ok config ->
  match Config.scope config with
  | None => getFullName config input = input
  | Some scope =>
      startsWith "@" scope = true /\ getFullName config input = scope ++ "/" ++ input
  end.
Proof.
  intros H. apply readConfigFile_inv in H.
  destruct H as (_ & text & parsed & _ & _ & Hvalid & ->).
  destruct parsed as [| | | | |o]; try discriminate.
  unfold isValid_config in Hvalid. apply andb_prop in Hvalid. destruct Hvalid as [_ Hscope].
  unfold getFullName, as_Config. cbn [Config.scope].
  unfold property_ok in Hscope. unfold get_string.
  destruct (obj_get "scope" o) as [[| | | s | |]|]; try reflexivity; try discriminate.
  split; [exact Hscope|].
  destruct s as [|c s]; [discriminate | reflexivity].
Qed.

Lemma readConfigFile_scoped_names_witness :
  startsWith "@" "@acme" = true
  /\ getFullName (Config.mk None (Some "@acme")) "tools" = "@acme/tools".
Proof.
  apply (readConfigFile_scoped_names Workspace.host "/ws/.crpml/config.json"
           (Config.mk None (Some "@acme")) "tools").
  vm_compute. reflexivity.
Defined.

(** ** What the loader leaves in a template *)

Lemma In_fold_set {A : Type} (l : list (string * A)) (o : obj A) (e : string * A) :
  In e (fold_left (fun o kv => obj_set (fst kv) (snd kv) o) l o) -> In e o \/ In e l.
Proof.
  revert o. induction l as [|[k v] l IH]; intros o H; [now left|].
  simpl in H. apply IH in H. destruct H as [H | H]; [|right; now right].
  apply In_obj_set in H. destruct H as [-> | H]; [right; now left | now left].
Qed.

Lemma keys_fold_set {A : Type} (l : list (string * A)) (o : obj A) (k : string) :
  In k (obj_keys (fold_left (fun o kv => obj_set (fst kv) (snd kv) o) l o))
  <-> In k (obj_keys o) \/ In k (map fst l).
Proof.
  revert o. induction l as [|[k' v] l IH]; intros o; simpl; [tauto|].
  rewrite IH, obj_keys_set. simpl. intuition congruence.
Qed.

Lemma keys_map_set {A : Type} (k : string) (v : A) (m : list (string * A)) (k' : string) :
  In k' (obj_keys (map_set k v m)) <-> k' = k \/ In k' (obj_keys m).
Proof.
  unfold map_set. destruct (obj_has k m) eqn:E.
  - rewrite obj_keys_replace. apply obj_has_In in E. split; [tauto|].
    intros [-> | H]; assumption.
  - unfold obj_keys. rewrite map_app, in_app_iff. simpl. intuition congruence.
Qed.

Lemma read_entries (h : Host) (variantDirectory : string) (files : list string) :
  forall entries,
    mapM (fun path =>
            text <- host_call (readFile h (path_join h variantDirectory path)) ;;
            Ok (path, text))
      files
    = Ok entries ->
    map fst entries = files
    /\ Forall (fun e => readFile h (path_join h variantDirectory (fst e)) = Some (snd e))
         entries.
Proof.
  induction files as [|path files IH]; intros entries H.
  - injection H as <-. split; [reflexivity | constructor].
  - simpl in H. apply bind_ok in H as [[p text] [Hread H]].
    apply bind_ok in H as [rest [Hrest H]]. injection H as <-.
    apply bind_ok in Hread as [text' [Hread E]]. injection E as <- <-.
    apply host_call_ok in Hread. destruct (IH rest Hrest) as [Hkeys Hall].
    split; [simpl; now rewrite Hkeys | now constructor].
Qed.

Lemma load_files_catalogued (h : Host) (label variantDirectory : string)
    (files : list string) (r : obj string) :
  load_files h label variantDirectory files = Ok r ->
  (forall path, In path (obj_keys r) <-> In path files)
  /\ forall path text,
       obj_get path r = Some text ->
       readFile h (path_join h variantDirectory path) = Some text.
Proof.
  unfold load_files. intros H.
  apply bind_ok in H as [us [_ H]]. apply bind_ok in H as [entries [Hentries H]].
  injection H as <-. apply read_entries in Hentries as [Hkeys Hall]. split.
  - intros path. unfold obj_fromEntries. rewrite keys_fold_set, Hkeys. simpl. tauto.
  - intros path text Hget. apply obj_get_In in Hget. unfold obj_fromEntries in Hget.
    apply In_fold_set in Hget. destruct Hget as [[] | Hin].
    rewrite Forall_forall in Hall. exact (Hall _ Hin).
Qed.

Lemma load_variant_entry (h : Host) (id templateDirectory : string)
    (variantFiles : list (string * obj string)) (used : list string)
    (entry : string * TemplateVariant.t)
    (state : list (string * obj string) * list string) :
  load_variant h id templateDirectory (variantFiles, used) entry = Ok state ->
  exists files,
    fst state = map_set (fst entry) files variantFiles
    /\ variant_catalogued h templateDirectory entry files.
Proof.
  destruct entry as [variantId variant]. unfold load_variant. intros H.
  apply bind_ok in H as [u1 [_ H]]. apply bind_ok in H as [u2 [_ H]].
  apply bind_ok in H as [isDir [_ H]]. apply bind_ok in H as [u3 [_ H]].
  apply bind_ok in H as [files [Hfiles H]]. injection H as <-.
  exists files. split; [reflexivity|].
  apply load_files_catalogued in Hfiles. exact Hfiles.
Qed.

Lemma load_variants_entries (h : Host) (id templateDirectory : string)
    (variants : obj TemplateVariant.t) :
  forall variantFiles used state,
    foldM (load_variant h id templateDirectory) variants (variantFiles, used) = Ok state ->
    NoDup (obj_keys variantFiles ++ obj_keys variants)%list ->
    exists added,
      fst state = (variantFiles ++ added)%list
      /\ Forall2
           (fun entry e =>
              fst e = fst entry /\ variant_catalogued h templateDirectory entry (snd e))
           variants added.
Proof.
  induction variants as [|entry variants IH]; intros variantFiles used state H Hnodup.
  - injection H as <-. exists []. simpl. now rewrite app_nil_r.
  - rewrite foldM_cons in H. apply bind_ok in H as [[variantFiles' used'] [Hstep Hrest]].
    destruct (load_variant_entry _ _ _ _ _ _ _ Hstep) as [files [Hfiles Hcat]].
    simpl in Hfiles.
    assert (Hfresh : ~ In (fst entry) (obj_keys variantFiles)).
    { intros Hin. simpl in Hnodup. apply NoDup_remove_2 in Hnodup.
      apply Hnodup. apply in_or_app. now left. }
    rewrite (map_set_fresh _ _ _ Hfresh) in Hfiles. subst variantFiles'.
    apply IH in Hrest as [added [Hstate Hall]].
    + exists ((fst entry, files) :: added). split.
      * rewrite Hstate, <- app_assoc. reflexivity.
      * constructor; [split; [reflexivity | exact Hcat] | exact Hall].
    + unfold obj_keys in *. rewrite map_app. simpl in *. now rewrite <- app_assoc.
Qed.

Lemma valid_template_variants (definition : json) :
  isValid_template definition = true ->
  Template.variants (as_Template definition) <> [].
Proof.
  destruct definition as [| | | | |o]; try discriminate.
  unfold isValid_template, as_Template. cbn [Template.variants].
  intros H. repeat (apply andb_prop in H; destruct H as [H ?]).
  unfold obj_has in *. unfold property_ok in *.
  destruct (obj_get "variants" o) as [[| | | | |vs]|]; try discriminate.
  match goal with
  | Hv : (all_properties _ _ && _)%bool = true |- _ =>
      apply andb_prop in Hv; destruct Hv as [_ Hlen]
  end.
  destruct vs; [discriminate|]. unfold map_values. discriminate.
Qed.

Lemma load_template_entry (h : Host) (dir : string)
    (loaded : list (string * LoadedTemplate.t)) (used : list string) (id : string)
    (state : list (string * LoadedTemplate.t) * list string) :
  load_template h dir (loaded, used) id = Ok state ->
  exists t, fst state = map_set id t loaded /\ template_entry h dir (id, t).
Proof.
  unfold load_template. intros H.
  apply bind_ok in H as [isDir [_ H]]. apply bind_ok in H as [u1 [_ H]].
  apply bind_ok in H as [u2 [_ H]]. apply bind_ok in H as [text [_ H]].
  apply bind_ok in H as [definition [Hparse H]].
  destruct (isValid_template definition) eqn:Hvalid; [|discriminate].
  apply bind_ok in H as [u3 [_ H]].
  apply bind_ok in H as [[variantFiles used'] [Hvariants H]]. injection H as <-.
  eexists. split; [reflexivity|].
  pose proof (as_Template_variants_canonical definition (JSON_parse_wf _ _ Hparse)) as Hc.
  pose proof Hvariants as Hkeys.
  apply load_variants_catalog in Hkeys as [Hkeys _]; [|exact (proj1 Hc) | constructor].
  apply load_variants_entries in Hvariants as [added [Hstate Hall]]; [|exact (proj1 Hc)].
  simpl in Hkeys, Hstate. subst variantFiles.
  assert (Hcanonical : canonical added).
  { unfold canonical in *. now rewrite Hkeys. }
  unfold template_entry, template_catalogued, LoadedTemplate.variants.
  cbn [fst snd LoadedTemplate.id LoadedTemplate.directory LoadedTemplate.config
         LoadedTemplate.variantFiles].
  rewrite (obj_fromEntries_canonical added Hcanonical).
  split; [reflexivity|]. split; [reflexivity|].
  split; [now exists definition | exact Hall].
Qed.

Lemma load_templates_entries (h : Host) (dir : string) (ids : list string) :
  forall loaded used state,
    foldM (load_template h dir) ids (loaded, used) = Ok state ->
    Forall (template_entry h dir) loaded ->
    Forall (template_entry h dir) (fst state)
    /\ forall id, In id (obj_keys (fst state)) <-> In id (obj_keys loaded) \/ In id ids.
Proof.
  induction ids as [|id ids IH]; intros loaded used state H Hloaded.
  - injection H as <-. split; [exact Hloaded | simpl; tauto].
  - rewrite foldM_cons in H. apply bind_ok in H as [[loaded' used'] [Hstep Hrest]].
    destruct (load_template_entry _ _ _ _ _ _ Hstep) as [t [Hstate Hentry]].
    simpl in Hstate. subst loaded'.
    apply IH in Hrest as [Hall Hkeys].
    + split; [exact Hall|]. intros k. rewrite Hkeys, keys_map_set. simpl.
      intuition congruence.
    + now apply Forall_map_set.
Qed.

(** X7. In the templates that the loader returns no key occurs twice,
    the keys are the entries of the templates directory, and the
    template under a key carries that key as its [id] and the resolved
    entry as its directory; it has at least one variant.  So the [id]
    of a loaded template finds that template again. *)
Theorem readTemplates_keys (h : Host) (dir : string) (loaded : obj LoadedTemplate.t) :
  readTemplates h dir = Ok loaded ->
  NoDup (obj_keys loaded)
  /\ (exists ids,
        readdir h dir = Some ids /\ forall id, In id (obj_keys loaded) <-> In id ids)
  /\ forall k t,
       In (k, t) loaded ->
       LoadedTemplate.id t = k
       /\ LoadedTemplate.directory t = path_resolve h dir k
       /\ LoadedTemplate.variants t <> []
       /\ obj_get (LoadedTemplate.id t) loaded = Some t.
Proof.
  unfold readTemplates. intros H.
  apply bind_ok in H as [u [_ H]]. apply bind_ok in H as [ids [Hids H]].
  apply bind_ok in H as [[entries used] [Hfold H]]. injection H as <-.
  apply host_call_ok in Hids.
  apply load_templates_entries in Hfold as [Hall Hkeys]; [|constructor].
  simpl in Hall, Hkeys.
  pose proof (canonical_fromEntries entries) as [Hnodup _].
  split; [exact Hnodup|]. split.
  - exists ids. split; [exact Hids|]. intros id. unfold obj_fromEntries.
    rewrite keys_fold_set. simpl. fold (obj_keys entries). rewrite Hkeys. simpl. tauto.
  - intros k t Hin. unfold obj_fromEntries in Hin. pose proof Hin as Hin'.
    apply In_fold_set in Hin'. destruct Hin' as [[] | Hin'].
    rewrite Forall_forall in Hall.
    destruct (Hall _ Hin') as (Hid & Hdir & (definition & Hvalid & Hconfig) & _).
    simpl in Hid, Hdir, Hconfig. repeat split; try assumption.
    + unfold LoadedTemplate.variants. rewrite Hconfig.
      now apply valid_template_variants.
    + rewrite Hid. now apply obj_get_of_In.
Qed.

Lemma readTemplates_keys_witness :
  exists loaded,
    readTemplates Sample.one_template "templates" = Ok loaded
    /\ NoDup (obj_keys loaded)
    /\ forall k t,
         In (k, t) loaded ->
         LoadedTemplate.id t = k
         /\ LoadedTemplate.directory t = path_resolve Sample.one_template "templates" k
         /\ LoadedTemplate.variants t <> []
         /\ obj_get (LoadedTemplate.id t) loaded = Some t.
Proof.
  destruct (readTemplates Sample.one_template "templates") as [loaded| |] eqn:E;
    [|vm_compute in E; discriminate|vm_compute in E; discriminate].
  exists loaded. split; [reflexivity|].
  destruct (readTemplates_keys Sample.one_template "templates" loaded E) as (H1 & _ & H3).
  split; assumption.
Defined.

(** X8. The catalog of a loaded template follows the variants of its
    definition one by one: under the key of each variant it holds the
    files that the variant declares, however often and in whatever
    order, each with the text read from the variant's directory. *)
Theorem readTemplates_catalogued (h : Host) (dir : string) (loaded : obj LoadedTemplate.t)
    (k : string) (t : LoadedTemplate.t) :
  readTemplates h dir = Ok loaded ->
  In (k, t) loaded ->
  Forall2
    (fun entry e =>
       fst e = fst entry
       /\ (forall path,
             In path (obj_keys (snd e)) <-> In path (TemplateVariant.files (snd entry)))
       /\ forall path text,
            obj_get path (snd e) = Some text ->
            readFile h
              (path_join h (path_join h (path_resolve h dir k) (fst entry)) path)
            = Some text)
    (LoadedTemplate.variants t) (LoadedTemplate.variantFiles t).
Proof.
  unfold readTemplates. intros H Hin.
  apply bind_ok in H as [u [_ H]]. apply bind_ok in H as [ids [_ H]].
  apply bind_ok in H as [[entries used] [Hfold H]]. injection H as <-.
  apply load_templates_entries in Hfold as [Hall _]; [|constructor].
  unfold obj_fromEntries in Hin. apply In_fold_set in Hin. destruct Hin as [[] | Hin].
  rewrite Forall_forall in Hall. destruct (Hall _ Hin) as (_ & Hdir & _ & Hcat).
  simpl in Hdir. unfold template_catalogued in Hcat. simpl in Hcat.
  rewrite Hdir in Hcat. exact Hcat.
Qed.

Lemma readTemplates_catalogued_witness :
  exists loaded t,
    readTemplates Sample.one_template "templates" = Ok loaded
    /\ In ("lib", t) loaded
    /\ Forall2
         (fun entry e =>
            fst e = fst entry
            /\ (forall path,
                  In path (obj_keys (snd e)) <-> In path (TemplateVariant.files (snd entry)))
            /\ forall path text,
                 obj_get path (snd e) = Some text ->
                 readFile Sample.one_template
                   (path_join Sample.one_template
                      (path_join Sample.one_template
                         (path_resolve Sample.one_template "templates" "lib") (fst entry))
                      path)
                 = Some text)
         (LoadedTemplate.variants t) (LoadedTemplate.variantFiles t).
Proof.
  destruct (readTemplates Sample.one_template "templates") as [loaded| |] eqn:E;
    [|vm_compute in E; discriminate|vm_compute in E; discriminate].
  destruct loaded as [|[k t] rest]; [vm_compute in E; discriminate|].
  assert (Hk : k = "lib") by (vm_compute in E; congruence).
  exists ((k, t) :: rest), t. split; [reflexivity|].
  assert (Hin : In ("lib", t) ((k, t) :: rest)) by (left; now rewrite Hk).
  split; [exact Hin|].
  exact (readTemplates_catalogued Sample.one_template "templates" _ "lib" t E Hin).
Defined.

(** ** Scripts *)

(** X9. The scripts offered for a selection are those of the variants
    of the definition whose key is selected; how often and where a key
    occurs in the selection plays no part, and the scripts of a required
    variant are there whatever was chosen. *)
Theorem getScripts_selected (template : LoadedTemplate.t) (selected : list string) :
  (forall script,
     In script (getScripts template selected)
     <-> exists id variant scripts,
           In (id, variant) (LoadedTemplate.variants template)
           /\ In id selected
           /\ TemplateVariant.scripts variant = Some scripts
           /\ In script scripts)
  /\ (forall selected',
        (forall id, In id selected <-> In id selected') ->
        getScripts template selected' = getScripts template selected)
  /\ (forall variantIds id variant scripts script,
        In (id, variant) (LoadedTemplate.variants template) ->
        is_required variant = true ->
        TemplateVariant.scripts variant = Some scripts ->
        In script scripts ->
        In script (getScripts template (getVariantIdsWithRequired variantIds template))).
Proof.
  assert (Hmem : forall sel script,
             In script (getScripts template sel)
             <-> exists id variant scripts,
                   In (id, variant) (LoadedTemplate.variants template)
                   /\ In id sel
                   /\ TemplateVariant.scripts variant = Some scripts
                   /\ In script scripts).
  { intros sel script. unfold getScripts. rewrite in_flat_map. split.
    - intros [[id variant] [Hin Hscript]]. apply filter_In in Hin as [Hin Hsel].
      simpl in Hsel, Hscript. apply includes_In in Hsel.
      destruct (TemplateVariant.scripts variant) as [scripts|] eqn:E; [|contradiction].
      now exists id, variant, scripts.
    - intros (id & variant & scripts & Hin & Hsel & Hscripts & Hscript).
      exists (id, variant). split.
      + apply filter_In. split; [exact Hin|]. simpl. now apply includes_In.
      + simpl. now rewrite Hscripts. }
  split; [apply Hmem|]. split.
  - intros selected' Hsame. unfold getScripts. f_equal. apply filter_ext.
    intros [id variant]. simpl. apply includes_ext. intros x. symmetry. apply Hsame.
  - intros variantIds id variant scripts script Hin Hreq Hscripts Hscript.
    apply Hmem. exists id, variant, scripts. repeat split; try assumption.
    unfold getVariantIdsWithRequired. apply in_or_app. right.
    apply required_ids_spec. now exists variant.
Qed.

(** ** Names of run configuration files *)

Lemma replace_runs_word (inside : bool) (s : string) :
  Forall (fun c => is_word c = true) (list_ascii_of_string (replace_runs inside s)).
Proof.
  revert inside. induction s as [|c r IH]; intros inside; simpl; [constructor|].
  destruct (is_alnum c) eqn:E.
  - simpl. constructor; [|apply IH]. unfold is_word. now rewrite E.
  - destruct inside; [apply IH|]. simpl. constructor; [reflexivity | apply IH].
Qed.

Lemma replace_runs_inside (s : string) :
  match replace_runs true s with
  | String c _ => Ascii.eqb c "_" = false
  | EmptyString => True
  end.
Proof.
  induction s as [|c r IH]; simpl; [exact I|].
  destruct (is_alnum c) eqn:E; [|exact IH].
  destruct (Ascii.eqb c "_") eqn:U; [|reflexivity].
  apply Ascii.eqb_eq in U. subst c. discriminate.
Qed.

Lemma replace_runs_single (inside : bool) (s : string) :
  single_underscores (replace_runs inside s) = true.
Proof.
  revert inside. induction s as [|c r IH]; intros inside; [reflexivity|].
  cbn [replace_runs]. destruct (is_alnum c) eqn:E.
  - assert (U : Ascii.eqb c "_" = false).
    { destruct (Ascii.eqb c "_") eqn:U; [|reflexivity].
      apply Ascii.eqb_eq in U. subst c. discriminate. }
    specialize (IH false). cbn [single_underscores].
    destruct (replace_runs false r); [reflexivity|]. now rewrite U, IH.
  - destruct inside; [apply IH|].
    pose proof (replace_runs_inside r) as Hfirst. specialize (IH true).
    cbn [single_underscores]. destruct (replace_runs true r); [reflexivity|].
    now rewrite Hfirst, andb_false_r, IH.
Qed.

Lemma replace_runs_fixed (s : string) :
  single_underscores s = true ->
  Forall (fun c => is_word c = true) (list_ascii_of_string s) ->
  replace_runs false s = s
  /\ match s with
     | String c _ => Ascii.eqb c "_" = false -> replace_runs true s = s
     | EmptyString => True
     end.
Proof.
  induction s as [|c r IH]; intros Hsingle Hword; [split; [reflexivity | exact I]|].
  simpl in Hword. inversion Hword as [|? ? Hc Hr]; subst.
  assert (Hsingle' : single_underscores r = true).
  { cbn [single_underscores] in Hsingle. destruct r; [reflexivity|].
    now apply andb_prop in Hsingle. }
  destruct (IH Hsingle' Hr) as [IHf IHt].
  unfold is_word in Hc. cbn [replace_runs].
  destruct (is_alnum c) eqn:E.
  - rewrite IHf. split; reflexivity.
  - simpl in Hc. apply Ascii.eqb_eq in Hc. subst c. split; [|discriminate].
    destruct r as [|b r']; [reflexivity|].
    cbn [single_underscores] in Hsingle. apply andb_prop in Hsingle.
    destruct Hsingle as [Hb _]. simpl in Hb. apply negb_true_iff in Hb.
    now rewrite (IHt Hb).
Qed.

(** X10. The name of a run configuration file, before its extension,
    is made of letters, digits and underscores with no two underscores
    in a row, so it holds no path separator; replacing again leaves it
    as it is, and a name made of letters and digits is kept. *)
Theorem runConfiguration_fileName_word (packageName script : string) :
  exists stem,
    runConfiguration_fileName packageName script = stem ++ ".xml"
    /\ stem = replace_runs false (runConfiguration_name packageName script)
    /\ Forall (fun c => is_alnum c = true \/ c = "_"%char) (list_ascii_of_string stem)
    /\ single_underscores stem = true
    /\ replace_runs false stem = stem
    /\ (forall s,
          Forall (fun c => is_alnum c = true) (list_ascii_of_string s) ->
          replace_runs false s = s).
Proof.
  exists (replace_runs false (runConfiguration_name packageName script)).
  split; [reflexivity|]. split; [reflexivity|].
  pose proof (replace_runs_word false (runConfiguration_name packageName script)) as Hword.
  pose proof (replace_runs_single false (runConfiguration_name packageName script)) as Hsingle.
  split; [|split; [exact Hsingle|split]].
  - eapply Forall_impl; [|exact Hword]. intros c Hc. unfold is_word in Hc.
    apply orb_prop in Hc. destruct Hc as [Hc | Hc]; [now left|].
    right. now apply Ascii.eqb_eq.
  - now apply replace_runs_fixed.
  - intros s. induction s as [|c r IH]; intros Hs; [reflexivity|].
    simpl in Hs. inversion Hs as [|? ? Hc Hr]; subst. cbn [replace_runs].
    now rewrite Hc, (IH Hr).
Qed.

(** What is written for the text before a character outside the class
    does not depend on that character. *)
Lemma replace_runs_app (inside : bool) (a : string) :
  exists prefix,
    forall d b', is_alnum d = false ->
      replace_runs inside (a ++ String d b') = prefix ++ replace_runs true b'.
Proof.
  revert inside. induction a as [|x a IH]; intros inside.
  - destruct inside.
    + exists EmptyString. intros d b' Hd. simpl. now rewrite Hd.
    + exists "_". intros d b' Hd. simpl. now rewrite Hd.
  - destruct (is_alnum x) eqn:E.
    + destruct (IH false) as [prefix Hprefix]. exists (String x prefix).
      intros d b' Hd. simpl. rewrite E. now rewrite (Hprefix d b' Hd).
    + destruct inside.
      * destruct (IH true) as [prefix Hprefix]. exists prefix.
        intros d b' Hd. simpl. rewrite E. now apply Hprefix.
      * destruct (IH true) as [prefix Hprefix]. exists (String "_" prefix).
        intros d b' Hd. simpl. rewrite E. now rewrite (Hprefix d b' Hd).
Qed.

(** X11. Two scripts that differ in one character outside letters and
    digits are written to the same run configuration file. *)
Theorem runConfiguration_fileName_collides (packageName before after : string)
    (c d : ascii) :
  is_alnum c = false ->
  is_alnum d = false ->
  runConfiguration_fileName packageName (before ++ String c after)
  = runConfiguration_fileName packageName (before ++ String d after).
Proof.
  intros Hc Hd. unfold runConfiguration_fileName, runConfiguration_name. f_equal.
  rewrite <- !string_app_assoc.
  destruct (replace_runs_app false ((packageName ++ ":") ++ before)) as [prefix Hprefix].
  now rewrite (Hprefix c after Hc), (Hprefix d after Hd).
Qed.

Lemma runConfiguration_fileName_collides_witness :
  runConfiguration_fileName "tools" "build:dev"
  = runConfiguration_fileName "tools" "build-dev".
Proof.
  apply (runConfiguration_fileName_collides "tools" "build" "dev" ":" "-"); reflexivity.
Defined.

(** ** The merge methods *)

Lemma last_default {A : Type} (l : list A) (d d' : A) : l <> [] -> last l d = last l d'.
Proof.
  induction l as [|a l IH]; [congruence|]. intros _.
  destruct l as [|b l']; [reflexivity|]. apply IH. discriminate.
Qed.

(** With two sources or more and a method declared, [mergeFiles] is the
    merge by that method. *)
Lemma mergeFiles_declared (h : Host) (template : LoadedTemplate.t) (path m : string)
    (sources : list SourceFileInfo.t) :
  2 <= length sources ->
  declared_mergeMethod template path = Some m ->
  m <> EmptyString ->
  mergeFiles h template path sources = merge_by h template path m sources.
Proof.
  intros Hlen Hdecl Hm.
  destruct sources as [|s0 [|s1 rest]]; simpl in Hlen; try lia.
  unfold mergeFiles, lookup_mergeMethod, merge_by. unfold declared_mergeMethod in Hdecl.
  destruct (LoadedTemplate.files template) as [files|]; [|discriminate].
  cbn [bind]. rewrite Hdecl.
  assert (Htruthy : string_truthy (Some m) = true).
  { destruct m; [congruence | reflexivity]. }
  rewrite Htruthy. cbn [assert bind].
  rewrite (last_default (s0 :: s1 :: rest) s0 (SourceFileInfo.mk EmptyString EmptyString))
    by discriminate.
  reflexivity.
Qed.

(** X12. Under the method [last] the merge returns the last source as
    it is and credits its variant alone. *)
Theorem mergeFiles_last (h : Host) (template : LoadedTemplate.t) (path : string)
    (sources : list SourceFileInfo.t) :
  2 <= length sources ->
  declared_mergeMethod template path = Some "last" ->
  exists earlier source,
    sources = (earlier ++ [source])%list
    /\ mergeFiles h template path sources
       = Ok (MergedFileInfo.mk [SourceFileInfo.variant source]
               (SourceFileInfo.sourceText source)).
Proof.
  intros Hlen Hdecl.
  exists (removelast sources), (last sources (SourceFileInfo.mk EmptyString EmptyString)).
  split.
  - apply app_removelast_last. destruct sources; [simpl in Hlen; lia | discriminate].
  - rewrite (mergeFiles_declared h template path "last") by (assumption || discriminate).
    reflexivity.
Qed.

Lemma mergeFiles_last_witness :
  exists earlier source,
    Sample.two_sources = (earlier ++ [source])%list
    /\ mergeFiles Sample.bare (Sample.template (Sample.method "last")) "package.json"
         Sample.two_sources
       = Ok (MergedFileInfo.mk [SourceFileInfo.variant source]
               (SourceFileInfo.sourceText source)).
Proof.
  apply (mergeFiles_last Sample.bare (Sample.template (Sample.method "last"))
           "package.json" Sample.two_sources); [simpl; lia | reflexivity].
Defined.

(** X13. When the manifest is merged by [last], what is written is the
    manifest of the last supplier, parsed, sorted and serialized: the
    package name that was entered and the scope play no part. *)
Theorem package_json_last_ignores_name (h : Host) (template : LoadedTemplate.t)
    (supplied : list SourceFileInfo.t) :
  supplied <> [] ->
  declared_mergeMethod template "package.json" = Some "last" ->
  exists earlier source,
    supplied = (earlier ++ [source])%list
    /\ forall config packageName,
         run_file h config template packageName ("package.json", supplied)
         = (written <- finish_file "package.json"
                         (MergedFileInfo.mk [SourceFileInfo.variant source]
                            (SourceFileInfo.sourceText source)) ;;
            Ok ("package.json", written)).
Proof.
  intros Hne Hdecl.
  exists (removelast supplied), (last supplied (SourceFileInfo.mk EmptyString EmptyString)).
  split; [now apply app_removelast_last|].
  intros config packageName. unfold run_file, merge_input. cbn [fst snd].
  change (String.eqb "package.json" "package.json") with true. cbn iota.
  rewrite (mergeFiles_declared h template "package.json" "last");
    [| destruct supplied; [congruence | simpl; lia] | assumption | discriminate].
  unfold merge_by. cbn [String.eqb Ascii.eqb Bool.eqb].
  change (String.eqb "last" "json") with false.
  change (String.eqb "last" "json-shallow") with false.
  change (String.eqb "last" "last") with true. cbn iota.
  rewrite last_cons by exact Hne. reflexivity.
Qed.

Lemma package_json_last_ignores_name_witness :
  exists earlier source,
    Sample.manifest_sources = (earlier ++ [source])%list
    /\ forall config packageName,
         run_file Sample.bare config (Sample.template (Sample.method "last")) packageName
           ("package.json", Sample.manifest_sources)
         = (written <- finish_file "package.json"
                         (MergedFileInfo.mk [SourceFileInfo.variant source]
                            (SourceFileInfo.sourceText source)) ;;
            Ok ("package.json", written)).
Proof.
  apply (package_json_last_ignores_name Sample.bare (Sample.template (Sample.method "last"))
           Sample.manifest_sources); [discriminate | reflexivity].
Defined.

(** *** The shallow merge *)

Lemma assign_entries (es : list (string * json)) (d : obj json) :
  obj_has "__proto__" es = false ->
  fold_left (fun acc kv => d <- acc ;; assign_dest (fst kv) (snd kv) d) es (Ok d)
  = Ok (fold_left (fun d kv => obj_set (fst kv) (snd kv) d) es d).
Proof.
  revert d. induction es as [|[k v] es IH]; intros d Hproto; [reflexivity|].
  unfold obj_has in Hproto. cbn [obj_get] in Hproto.
  destruct (String.eqb "__proto__" k) eqn:E; [discriminate|].
  cbn [fold_left fst snd bind]. unfold assign_dest.
  rewrite String.eqb_sym, E. apply IH. exact Hproto.
Qed.

Lemma get_fold_set (es : list (string * json)) (d : obj json) (k : string) :
  NoDup (obj_keys es) ->
  obj_get k (fold_left (fun d kv => obj_set (fst kv) (snd kv) d) es d)
  = match obj_get k es with
    | Some v => Some v
    | None => obj_get k d
    end.
Proof.
  revert d. induction es as [|[k' v] es IH]; intros d Hnd; [reflexivity|].
  simpl in Hnd. inversion Hnd as [|? ? Hfresh Hnd']; subst.
  cbn [fold_left fst snd obj_get]. rewrite (IH _ Hnd'), obj_get_set.
  destruct (String.eqb k k') eqn:E; [|reflexivity].
  apply String.eqb_eq in E. subst k'.
  apply obj_get_none in Hfresh. now rewrite Hfresh.
Qed.

Lemma Object_assign_objects (objects : list (obj json)) :
  Forall (fun o => obj_has "__proto__" o = false /\ NoDup (obj_keys o)) objects ->
  exists merged,
    Object_assign (map JObject objects) = Ok (JObject merged)
    /\ canonical merged
    /\ forall k, obj_get k merged = shallow_lookup k objects.
Proof.
  intros Hall.
  assert (Hgen : forall objs d,
             Forall (fun o => obj_has "__proto__" o = false /\ NoDup (obj_keys o)) objs ->
             canonical d ->
             exists merged,
               fold_left
                 (fun acc source =>
                    match own_entries source with
                    | None => acc
                    | Some es =>
                        fold_left (fun acc kv => d <- acc ;; assign_dest (fst kv) (snd kv) d)
                          es acc
                    end)
                 (map JObject objs) (Ok d)
               = Ok merged
               /\ canonical merged
               /\ forall k, obj_get k merged
                            = match shallow_lookup k objs with
                              | Some v => Some v
                              | None => obj_get k d
                              end).
  { induction objs as [|o objs IHo]; intros d Hobjs Hd.
    - exists d. split; [reflexivity|]. split; [exact Hd | reflexivity].
    - inversion Hobjs as [|? ? [Hproto Hnd] Hrest]; subst.
      cbn [map fold_left own_entries]. rewrite (assign_entries o d Hproto).
      destruct (IHo (fold_left (fun d kv => obj_set (fst kv) (snd kv) d) o d) Hrest)
        as (merged & Hfold & Hc & Hget).
      { now apply canonical_fold_set. }
      exists merged. split; [exact Hfold|]. split; [exact Hc|].
      intros k. rewrite Hget. cbn [shallow_lookup].
      destruct (shallow_lookup k objs); [reflexivity|].
      now rewrite get_fold_set. }
  destruct (Hgen objects [] Hall canonical_nil) as (merged & Hfold & Hc & Hget).
  exists merged. split; [|split; [exact Hc|]].
  - transitivity (d <- Ok merged ;; Ok (JObject d)); [|reflexivity].
    rewrite <- Hfold. reflexivity.
  - intros k. rewrite Hget. now destruct (shallow_lookup k objects).
Qed.

(** X14. Under the method [json-shallow] the sources are parsed and
    their top-level properties are copied, later sources over earlier
    ones: each key of the result holds the whole value it has in the
    last source that has it, every source is credited, and the result
    is serialized with an indentation of two. *)
Theorem mergeFiles_json_shallow (h : Host) (template : LoadedTemplate.t) (path : string)
    (sources : list SourceFileInfo.t) (objects : list (obj json)) :
  2 <= length sources ->
  declared_mergeMethod template path = Some "json-shallow" ->
  Forall2 (fun source o => JSON_parse (SourceFileInfo.sourceText source) = Ok (JObject o))
    sources objects ->
  Forall (fun o => obj_has "__proto__" o = false) objects ->
  exists merged,
    mergeFiles h template path sources
    = Ok (MergedFileInfo.mk (variants_of sources) (JSON_stringify_2 (JObject merged)))
    /\ NoDup (obj_keys merged)
    /\ forall k, obj_get k merged = shallow_lookup k objects.
Proof.
  intros Hlen Hdecl Hparse Hproto.
  destruct (parse_sources_objects sources objects Hparse) as [Hsources Hwf].
  assert (Hall : Forall (fun o => obj_has "__proto__" o = false /\ NoDup (obj_keys o)) objects).
  { rewrite Forall_forall in *. intros o Ho. split; [now apply Hproto|].
    specialize (Hwf o Ho). apply wf_object in Hwf. exact (proj1 (proj1 Hwf)). }
  destruct (Object_assign_objects objects Hall) as (merged & Hassign & Hc & Hget).
  exists merged.
  rewrite (mergeFiles_declared h template path "json-shallow")
    by (assumption || discriminate).
  unfold merge_by. change (String.eqb "json-shallow" "json") with false.
  change (String.eqb "json-shallow" "json-shallow") with true. cbn iota.
  rewrite Hsources. cbn [bind]. rewrite Hassign. cbn [bind].
  split; [reflexivity|]. split; [exact (proj1 Hc) | exact Hget].
Qed.

Lemma mergeFiles_json_shallow_witness :
  exists merged,
    mergeFiles Sample.bare (Sample.template (Sample.method "json-shallow")) "package.json"
      Sample.manifest_sources
    = Ok (MergedFileInfo.mk (variants_of Sample.manifest_sources)
            (JSON_stringify_2 (JObject merged)))
    /\ NoDup (obj_keys merged)
    /\ forall k, obj_get k merged = shallow_lookup k Sample.manifest_objects.
Proof.
  apply (mergeFiles_json_shallow Sample.bare (Sample.template (Sample.method "json-shallow"))
           "package.json" Sample.manifest_sources Sample.manifest_objects).
  - simpl. lia.
  - reflexivity.
  - repeat constructor.
  - repeat constructor.
Defined.

(** *** Results that a custom merger may not hand back *)






(** ** Exceptions that the engine does not raise *)

Lemma parse_chars_throws (s acc : string) (e : exn) :
  parse_chars s acc = Throw e -> e = SyntaxError.
Proof.
  remember (String.length s) as n eqn:Hn. revert s acc Hn.
  induction n as [n IH] using lt_wf_ind. intros s acc Hn.
  destruct s as [|c s]; simpl; [congruence|]. simpl in Hn.
  destruct (Ascii.eqb c dquote); [discriminate|].
  destruct (Ascii.eqb c "\").
  - destruct s as [|x s]; [congruence|]. simpl in Hn.
    repeat match goal with
           | |- (if Ascii.eqb x ?y then _ else _) = _ -> _ =>
               destruct (Ascii.eqb x y);
               [try (intros H; apply (IH (String.length s)) in H; [exact H | lia | reflexivity])|]
           end; try congruence.
    destruct s as [|h1 [|h2 [|h3 [|h4 s]]]]; try congruence.
    destruct (hex4 h1 h2 h3 h4) as [m|]; [|congruence].
    destruct (m <? 256)%N; [|discriminate].
    intros H. apply (IH (String.length s)) in H; simpl in *; [exact H | lia | reflexivity].
  - destruct (code c <? 32)%N; [congruence|].
    intros H. apply (IH (String.length s)) in H; [exact H | lia | reflexivity].
Qed.

Lemma parse_number_throws (negative : bool) (s : string) (e : exn) :
  parse_number negative s = Throw e -> e = SyntaxError.
Proof.
  unfold parse_number. destruct s as [|c r]; [congruence|].
  destruct (digit_of c) as [d|]; [|congruence].
  destruct (if (d =? 0)%N then (0%N, r) else parse_digits r d) as [n rest].
  destruct (starts_fraction rest); [discriminate|].
  destruct (n <=? max_safe_integer)%N; discriminate.
Qed.

Lemma parse_scalar_throws (c : ascii) (r : string) (e : exn) :
  parse_scalar c r = Throw e -> e = SyntaxError.
Proof.
  unfold parse_scalar, expect.
  destruct (Ascii.eqb c dquote).
  { intros H. apply bind_throws in H as [H | [[t r'] [_ H]]]; [|discriminate].
    now apply parse_chars_throws in H. }
  destruct (Ascii.eqb c "-"); [apply parse_number_throws|].
  destruct (Ascii.eqb c "t"); [destruct (String.prefix _ _); congruence|].
  destruct (Ascii.eqb c "f"); [destruct (String.prefix _ _); congruence|].
  destruct (Ascii.eqb c "n"); [destruct (String.prefix _ _); congruence|].
  apply parse_number_throws.
Qed.

Lemma parse_key_throws (s : string) (e : exn) :
  parse_key s = Throw e -> e = SyntaxError.
Proof.
  unfold parse_key. destruct (after dquote (skip_ws s)) as [r|]; [|congruence].
  intros H. apply bind_throws in H as [H | [[k r1] [_ H]]].
  - now apply parse_chars_throws in H.
  - destruct (after ":" (skip_ws r1)); congruence.
Qed.

Lemma parse_throws (fuel : nat) :
  (forall s e, parse_value fuel s = Some (Throw e) -> e = SyntaxError)
  /\ (forall s acc e, parse_elements fuel s acc = Some (Throw e) -> e = SyntaxError)
  /\ (forall s acc e, parse_members fuel s acc = Some (Throw e) -> e = SyntaxError).
Proof.
  induction fuel as [|fuel [IHv [IHe IHm]]]; [repeat split; intros; discriminate|].
  split; [|split].
  - intros s e. cbn [parse_value].
    destruct (skip_ws s) as [|c r]; [congruence|].
    destruct (Ascii.eqb c "{").
    { destruct (after "}" (skip_ws r)); [discriminate | apply IHm]. }
    destruct (Ascii.eqb c "[").
    { destruct (after "]" (skip_ws r)); [discriminate | apply IHe]. }
    intros H. injection H as H. now apply parse_scalar_throws in H.
  - intros s acc e. cbn [parse_elements].
    destruct (parse_value fuel s) as [[[v r]|e'|]|] eqn:Hv; try discriminate.
    + destruct (after "," (skip_ws r)); [apply IHe|].
      destruct (after "]" (skip_ws r)); [discriminate | congruence].
    + intros H. injection H as <-. now apply IHv in Hv.
  - intros s acc e. cbn [parse_members].
    destruct (parse_key s) as [[k r2]|e'|] eqn:Hk; try discriminate.
    + destruct (parse_value fuel r2) as [[[v r3]|e'|]|] eqn:Hv; try discriminate.
      * destruct (after "," (skip_ws r3)); [apply IHm|].
        destruct (after "}" (skip_ws r3)); [discriminate | congruence].
      * intros H. injection H as <-. now apply IHv in Hv.
    + intros H. injection H as <-. now apply parse_key_throws in Hk.
Qed.

(** [JSON.parse] throws nothing but a [SyntaxError]. *)
Lemma JSON_parse_throws (text : string) (e : exn) :
  JSON_parse text = Throw e -> e = SyntaxError.
Proof.
  unfold JSON_parse.
  destruct (parse_value (2 * String.length text + 2) text) as [[[v rest]|e'|]|] eqn:Hv;
    try discriminate.
  - destruct (skip_ws rest); congruence.
  - intros H. injection H as <-. now apply (proj1 (parse_throws _)) in Hv.
Qed.

Lemma assign_dest_throws (k : string) (v : json) (d : obj json) (e : exn) :
  assign_dest k v d <> Throw e.
Proof.
  unfold assign_dest. destruct (String.eqb k "__proto__"); [|discriminate].
  destruct v; discriminate.
Qed.

Lemma fold_assign_throws {X : Type} (step : obj json -> X -> result (obj json))
    (l : list X) (e : exn) :
  (forall d x, step d x <> Throw e) ->
  forall acc,
    fold_left (fun acc x => d <- acc ;; step d x) l acc = Throw e -> acc = Throw e.
Proof.
  intros Hstep. induction l as [|x l IH]; intros acc H; [exact H|].
  simpl in H. apply IH in H. apply bind_throws in H as [H | [d [_ H]]]; [exact H|].
  now apply Hstep in H.
Qed.

Lemma clone_target_throws (target : json) (e : exn) : clone_target target <> Throw e.
Proof.
  unfold clone_target. destruct target; try discriminate.
  intros H.
  apply (fold_assign_throws
           (fun d kv => assign_dest (fst kv) (cloneUnlessOtherwiseSpecified (snd kv)) d))
    in H; [discriminate|].
  intros d x. apply assign_dest_throws.
Qed.

Lemma mergeKeys_throws (merge : json -> json -> result json) (target : json)
    (source : list (string * json)) :
  Forall (fun kv => forall tv e, merge tv (snd kv) = Throw e -> is_Error e = false) source ->
  forall destination e,
    mergeKeys merge target source destination = Throw e -> is_Error e = false.
Proof.
  induction source as [|[k sv] source IH]; intros Hall destination e H; [discriminate|].
  inversion Hall as [|? ? Hsv Hrest]; subst. simpl in Hsv. cbn [mergeKeys] in H.
  apply bind_throws in H as [H | [d [_ H]]]; [|now apply (IH Hrest) in H].
  destruct (propertyIsUnsafe target k); [discriminate|].
  destruct (own_property target k) as [tv|].
  - destruct (isMergeableObject sv).
    + apply bind_throws in H as [H | [r [_ H]]]; [now apply Hsv in H|].
      now apply assign_dest_throws in H.
    + now apply assign_dest_throws in H.
  - now apply assign_dest_throws in H.
Qed.

Lemma deepmerge_throws (source : json) :
  forall target e, deepmerge target source = Throw e -> is_Error e = false.
Proof.
  induction source as [| b | n | s | l IH | o IH] using json_ind'; intros target e H.
  - destruct target; cbn [deepmerge] in H; try (injection H as <-; reflexivity);
      discriminate.
  - destruct target; cbn [deepmerge] in H; try discriminate;
      (apply bind_throws in H as [H | [d [_ H]]];
       [now apply clone_target_throws in H | discriminate]).
  - destruct target; cbn [deepmerge] in H; try discriminate;
      (apply bind_throws in H as [H | [d [_ H]]];
       [now apply clone_target_throws in H | discriminate]).
  - assert (Hgen : forall target,
               (d0 <- clone_target target ;;
                d <- fold_left
                       (fun acc kv =>
                          d <- acc ;;
                          if propertyIsUnsafe target (fst kv) then Ok d
                          else assign_dest (fst kv) (snd kv) d)
                       (index_entries (map (fun c => JString (str c)) (list_ascii_of_string s)))
                       (Ok d0) ;;
                Ok (JObject d)) = Throw e -> False).
    { intros t H'. apply bind_throws in H' as [H' | [d0 [_ H']]];
        [now apply clone_target_throws in H'|].
      apply bind_throws in H' as [H' | [d [_ H']]]; [|discriminate].
      apply (fold_assign_throws
               (fun d kv => if propertyIsUnsafe t (fst kv) then Ok d
                            else assign_dest (fst kv) (snd kv) d)) in H'; [discriminate|].
      intros d x. destruct (propertyIsUnsafe t (fst x)); [discriminate|].
      apply assign_dest_throws. }
    destruct target; cbn [deepmerge] in H; try (exfalso; exact (Hgen _ H)). discriminate.
  - destruct target; cbn [deepmerge] in H; discriminate.
  - assert (Hgen : forall target,
               (d0 <- clone_target target ;;
                d <- mergeKeys deepmerge target o d0 ;; Ok (JObject d)) = Throw e ->
               is_Error e = false).
    { intros t H'. apply bind_throws in H' as [H' | [d0 [_ H']]];
        [now apply clone_target_throws in H'|].
      apply bind_throws in H' as [H' | [d [_ H']]]; [|discriminate].
      apply (mergeKeys_throws deepmerge t o) in H'; [exact H'|].
      rewrite Forall_forall in IH |- *. intros kv Hkv tv e' He'.
      exact (IH kv Hkv tv e' He'). }
    destruct target; cbn [deepmerge] in H; try (exact (Hgen _ H)). discriminate.
Qed.

Lemma deepmerge_all_throws (array : list json) (e : exn) :
  deepmerge_all array = Throw e -> is_Error e = false.
Proof.
  unfold deepmerge_all.
  assert (Hgen : forall acc : result json,
             (forall e', acc = Throw e' -> is_Error e' = false) ->
             fold_left (fun acc next => prev <- acc ;; deepmerge prev next) array acc = Throw e ->
             is_Error e = false).
  { induction array as [|v array IH]; intros acc Hacc H; [now apply Hacc|].
    simpl in H. apply IH in H; [exact H|]. intros e' He'.
    apply bind_throws in He' as [He' | [prev [_ He']]]; [now apply Hacc|].
    now apply deepmerge_throws in He'. }
  apply Hgen. discriminate.
Qed.

(** *** Sources that are not JSON *)

Lemma mapM_first_throw {A B : Type} (f : A -> result B) (before : list A) (a : A)
    (rest : list A) (e : exn) :
  Forall (fun x => exists b, f x = Ok b) before ->
  f a = Throw e ->
  mapM f (before ++ a :: rest) = Throw e.
Proof.
  intros Hbefore Ha. induction Hbefore as [|x before [b Hx] _ IH]; simpl.
  - now rewrite Ha.
  - now rewrite Hx, IH.
Qed.

(** X25. Under [json] and [json-shallow] a source whose text is not
    JSON, behind sources that parse, makes the merge throw the
    [SyntaxError] of [JSON.parse]; nothing is merged. *)
Theorem mergeFiles_unparsable_source (h : Host) (template : LoadedTemplate.t)
    (path m : string) (before : list SourceFileInfo.t) (source : SourceFileInfo.t)
    (rest : list SourceFileInfo.t) (e : exn) :
  2 <= length (before ++ source :: rest) ->
  declared_mergeMethod template path = Some m ->
  m = "json" \/ m = "json-shallow" ->
  Forall (fun s => exists v, JSON_parse (SourceFileInfo.sourceText s) = Ok v) before ->
  JSON_parse (SourceFileInfo.sourceText source) = Throw e ->
  e = SyntaxError
  /\ mergeFiles h template path (before ++ source :: rest)%list = Throw SyntaxError.
Proof.
  intros Hlen Hdecl Hm Hbefore Hsource.
  assert (He : e = SyntaxError) by now apply JSON_parse_throws in Hsource.
  subst e. split; [reflexivity|].
  assert (Hparse : parse_sources (before ++ source :: rest) = Throw SyntaxError).
  { unfold parse_sources. now apply mapM_first_throw. }
  rewrite (mergeFiles_declared h template path m) by
    (try assumption; destruct Hm as [-> | ->]; discriminate).
  unfold merge_by. destruct Hm as [-> | ->].
  - change (String.eqb "json" "json") with true. cbn iota. now rewrite Hparse.
  - change (String.eqb "json-shallow" "json") with false.
    change (String.eqb "json-shallow" "json-shallow") with true. cbn iota.
    now rewrite Hparse.
Qed.


Lemma mergeFiles_unparsable_source_witness :
  SyntaxError = SyntaxError
  /\ mergeFiles Sample.bare (Sample.template (Sample.method "json")) "package.json"
       [ SourceFileInfo.mk "base" "{}"; SourceFileInfo.mk "extra" "oops" ]
     = Throw SyntaxError.
Proof.
  apply (mergeFiles_unparsable_source Sample.bare (Sample.template (Sample.method "json"))
           "package.json" "json" [ SourceFileInfo.mk "base" "{}" ]
           (SourceFileInfo.mk "extra" "oops") [] SyntaxError).
  - simpl. lia.
  - reflexivity.
  - now left.
  - constructor; [|constructor]. exists (JObject []). vm_compute. reflexivity.
  - vm_compute. reflexivity.
Defined.

Lemma Object_assign_throws (sources : list json) (e : exn) :
  Object_assign sources <> Throw e.
Proof.
  assert (Hgen : forall acc : result (obj json),
             fold_left
               (fun acc source =>
                  match own_entries source with
                  | None => acc
                  | Some es =>
                      fold_left (fun acc kv => d <- acc ;; assign_dest (fst kv) (snd kv) d)
                        es acc
                  end)
               sources acc = Throw e ->
             acc = Throw e).
  { induction sources as [|v sources IH]; intros acc H'; [exact H'|].
    simpl in H'. apply IH in H'. destruct (own_entries v) as [es|]; [|exact H'].
    apply (fold_assign_throws (fun d kv => assign_dest (fst kv) (snd kv) d)) in H';
      [exact H'|].
    intros d x. apply assign_dest_throws. }
  unfold Object_assign. intros H.
  apply bind_throws in H as [H | [d [_ H]]]; [|discriminate].
  apply Hgen in H. discriminate.
Qed.

Lemma sortByKeys_throws (src : json) (e : exn) :
  sortByKeys src = Throw e -> is_Error e = false.
Proof. unfold sortByKeys. destruct (own_entries src); [discriminate|]. now intros [= <-]. Qed.

Lemma sort_dependencies_throws (v : json) (e : exn) :
  sort_dependencies v = Throw e -> is_Error e = false.
Proof.
  unfold sort_dependencies. destruct v as [| | | | |o]; try discriminate.
  - now intros [= <-].
  - generalize dependency_categories. intros categories H.
    apply bind_throws in H as [H | [o' [_ H]]]; [|discriminate].
    revert H.
    assert (Hgen : forall acc : result (obj json),
               (forall e', acc = Throw e' -> is_Error e' = false) ->
               fold_left (fun acc key => o <- acc ;; sort_category key o) categories acc
               = Throw e ->
               is_Error e = false).
    { induction categories as [|key categories IH]; intros acc Hacc H; [now apply Hacc|].
      simpl in H. apply IH in H; [exact H|]. intros e' He'.
      apply bind_throws in He' as [He' | [o1 [_ He']]]; [now apply Hacc|].
      unfold sort_category in He'. destruct (obj_get key o1) as [v|]; [|discriminate].
      destruct (truthy v); [|discriminate].
      apply bind_throws in He' as [He' | [sorted [_ He']]]; [|discriminate].
      now apply sortByKeys_throws in He'. }
    apply Hgen. discriminate.
Qed.

Lemma finish_file_throws (path : string) (fileSource : MergedFileInfo.t) (e : exn) :
  finish_file path fileSource = Throw e -> is_Error e = false.
Proof.
  unfold finish_file. destruct (String.eqb path "package.json"); [|discriminate].
  intros H. apply bind_throws in H as [H | [parsed [_ H]]].
  - apply JSON_parse_throws in H. now subst.
  - apply bind_throws in H as [H | [sorted [_ H]]]; [|discriminate].
    now apply sort_dependencies_throws in H.
Qed.

Lemma parse_sources_throws (sources : list SourceFileInfo.t) (e : exn) :
  parse_sources sources = Throw e -> is_Error e = false.
Proof.
  unfold parse_sources. intros H. apply mapM_throws in H as [source [_ H]].
  apply JSON_parse_throws in H. now subst.
Qed.

Lemma mergeCustom_throws (h : Host) (template : LoadedTemplate.t) (m : string)
    (sources : list SourceFileInfo.t) (e : exn) :
  mergeCustom h template m sources = Throw e -> is_Error e = false.
Proof.
  unfold mergeCustom. intros H.
  apply bind_throws in H as [H | [module [_ H]]].
  - destruct (import_default h _); [discriminate | now injection H as <-].
  - destruct module as [|f]; [now injection H as <-|].
    apply bind_throws in H as [H | [[r left] [_ H]]].
    + destruct (f sources); [discriminate | now injection H as <-].
    + cbn [fst snd] in H. destruct r as [v|]; [|now injection H as <-].
      destruct (isValid_customResult v); [|now injection H as <-].
      destruct v; try discriminate; try now injection H as <-.
      apply bind_throws in H as [H | [credited [_ H]]]; [|discriminate].
      unfold variants_left in H. apply mapM_throws in H as [x [_ Hx]].
      destruct x; try discriminate; now injection Hx as <-.
Qed.

Lemma known_method_nonempty (m : string) : known_method m -> m <> EmptyString.
Proof. intros [-> | [-> | [-> | H]]] E; try discriminate. subst m. discriminate. Qed.

(** With a source to merge and only known methods declared, [mergeFiles]
    raises neither of its two internal errors. *)
Lemma mergeFiles_throws (h : Host) (template : LoadedTemplate.t) (path : string)
    (sources : list SourceFileInfo.t) (e : exn) :
  sources <> [] ->
  methods_known template ->
  mergeFiles h template path sources = Throw e -> is_Error e = false.
Proof.
  intros Hne Hknown H.
  destruct sources as [|s0 [|s1 rest]]; [congruence | discriminate |].
  destruct (declared_mergeMethod template path) as [m|] eqn:Hdecl.
  - pose proof (Hknown path m Hdecl) as Hm.
    rewrite (mergeFiles_declared h template path m) in H;
      [| simpl; lia | exact Hdecl | now apply known_method_nonempty].
    unfold merge_by in H.
    destruct (String.eqb m "json") eqn:Ej.
    { apply bind_throws in H as [H | [parsed [_ H]]]; [now apply parse_sources_throws in H|].
      apply bind_throws in H as [H | [merged [_ H]]]; [|discriminate].
      now apply deepmerge_all_throws in H. }
    destruct (String.eqb m "json-shallow") eqn:Es.
    { apply bind_throws in H as [H | [parsed [_ H]]]; [now apply parse_sources_throws in H|].
      apply bind_throws in H as [H | [merged [_ H]]]; [|discriminate].
      now apply Object_assign_throws in H. }
    destruct (String.eqb m "last") eqn:El; [discriminate|].
    destruct (isCustomMergeMethod m) eqn:Ec; [now apply mergeCustom_throws in H|].
    exfalso.
    destruct Hm as [-> | [-> | [-> | Hm]]];
      [vm_compute in Ej | vm_compute in Es | vm_compute in El | ]; congruence.
  - unfold mergeFiles, lookup_mergeMethod in H. unfold declared_mergeMethod in Hdecl.
    destruct (LoadedTemplate.files template) as [files|]; [|now injection H as <-].
    cbn [bind] in H. rewrite Hdecl in H. now injection H as <-.
Qed.

(** ** What a run writes *)




(** Two keys that join to one output path: the run writes that file
    twice, the second text over the first. *)
Lemma run_writes_one_file_twice :
  run Sample.normalising (Sample.output Sample.normalising) Sample.config
    Sample.respelled_template "pkg" []
  = Ok [ OutputFile.mk "a.txt" "packages/pkg/a.txt" (MergedFileInfo.mk [ "base" ] "first");
         OutputFile.mk "./a.txt" "packages/pkg/a.txt"
           (MergedFileInfo.mk [ "base" ] "second") ].
Proof. reflexivity. Qed.



Lemma merge_input_nonempty (config : Config.t) (template : LoadedTemplate.t)
    (packageName : string) (active : list string)
    (entry : string * list SourceFileInfo.t) :
  In entry (collect template active) -> merge_input config packageName entry <> [].
Proof.
  intros Hin. pose proof (nonempty_collect template active) as Hne.
  unfold nonempty_arrays in Hne. rewrite Forall_forall in Hne.
  unfold merge_input.
  destruct (String.eqb (fst entry) "package.json"); [discriminate | now apply Hne].
Qed.

(** What a round throws is thrown by the merge, by the second parse or
    by the file system; none of these is an [Error] of the engine when
    the merge methods are known. *)
Lemma run_throws (h : Host) (out : Output) (config : Config.t)
    (template : LoadedTemplate.t) (packageName : string) (variantIds : list string)
    (e : exn) :
  methods_known template ->
  run h out config template packageName variantIds = Throw e -> is_Error e = false.
Proof.
  intros Hknown H. unfold run in H. apply mapM_throws in H as [[n entry] [Hin H]].
  apply In_rounds, nth_error_In in Hin.
  unfold run_round in H. cbn [fst snd] in H.
  apply bind_throws in H as [H | [merged [_ H]]].
  - unfold run_file in H. apply bind_throws in H as [H | [fileSource [_ H]]].
    + apply mergeFiles_throws in H; [exact H | | exact Hknown].
      exact (merge_input_nonempty config template packageName _ entry Hin).
    + apply bind_throws in H as [H | [w [_ H]]]; [|discriminate].
      now apply finish_file_throws in H.
  - unfold write_file in H. apply bind_throws in H as [H | [u [_ H]]].
    + destruct (mkdir_recursive out n _); [discriminate | now injection H as <-].
    + apply bind_throws in H as [H | [u' [_ H]]]; [|discriminate].
      destruct (writeFile out n _ _); [discriminate | now injection H as <-].
Qed.

(** X17. A run hands [mergeFiles] at least one source for every path,
    and on a template whose declared merge methods are all known it
    raises neither of the two internal errors of [mergeFiles], nor any
    other [Error]: the empty source list and the unknown merge method
    are not reached. *)
Theorem run_raises_no_Error (h : Host) (out : Output) (config : Config.t)
    (template : LoadedTemplate.t) (packageName : string) (variantIds : list string) :
  methods_known template ->
  (forall entry,
     In entry (collect template (getVariantIdsWithRequired variantIds template)) ->
     merge_input config packageName entry <> [])
  /\ forall e,
       run h out config template packageName variantIds = Throw e -> is_Error e = false.
Proof.
  intros Hknown. split.
  - intros entry. apply merge_input_nonempty.
  - intros e. now apply run_throws.
Qed.

Lemma run_raises_no_Error_witness :
  (forall entry,
     In entry (collect (Sample.template (Sample.method "json"))
                 (getVariantIdsWithRequired [] (Sample.template (Sample.method "json")))) ->
     merge_input Sample.config "tools" entry <> [])
  /\ forall e,
       run Sample.bare (Sample.output Sample.bare) Sample.config
         (Sample.template (Sample.method "json")) "tools" []
       = Throw e ->
       is_Error e = false.
Proof.
  apply (run_raises_no_Error Sample.bare (Sample.output Sample.bare) Sample.config
           (Sample.template (Sample.method "json")) "tools" []).
  intros path m H. unfold declared_mergeMethod in H. simpl in H.
  destruct (String.eqb path "package.json"); [|discriminate].
  injection H as <-. now left.
Defined.

(** X18. The manifest has the synthetic source beside those of the
    variants, so the merge method is consulted even when one variant
    alone supplies it: a run in which an active variant supplies
    [package.json] does not succeed unless the template declares a merge
    method for it. *)
Theorem package_json_needs_method (h : Host) (out : Output) (config : Config.t)
    (template : LoadedTemplate.t) (packageName : string) (variantIds : list string)
    (supplied : list SourceFileInfo.t) :
  obj_get "package.json" (collect template (getVariantIdsWithRequired variantIds template))
  = Some supplied ->
  declared_mergeMethod template "package.json" = None ->
  (exists e,
      run_file h config template packageName ("package.json", supplied) = Throw e
      /\ names_path e "package.json")
  /\ forall written, run h out config template packageName variantIds <> Ok written.
Proof.
  intros Hget Hnone.
  assert (Hne : supplied <> []).
  { apply obj_get_In in Hget.
    pose proof (nonempty_collect template (getVariantIdsWithRequired variantIds template))
      as Hall.
    unfold nonempty_arrays in Hall. rewrite Forall_forall in Hall. exact (Hall _ Hget). }
  assert (Hthrow : forall h' : Host, exists e,
             run_file h' config template packageName ("package.json", supplied) = Throw e
             /\ names_path e "package.json").
  { intros h'. unfold run_file, merge_input. cbn [fst snd].
    change (String.eqb "package.json" "package.json") with true. cbn iota.
    destruct supplied as [|s1 rest]; [congruence|].
    unfold mergeFiles, lookup_mergeMethod. unfold declared_mergeMethod in Hnone.
    destruct (LoadedTemplate.files template) as [files|].
    - cbn [bind]. rewrite Hnone. cbn [string_truthy assert bind].
      eexists. split; [reflexivity|].
      exists "Missing merge method for ", EmptyString. reflexivity.
    - cbn [bind]. eexists. split; [reflexivity|].
      exists "Cannot read properties of undefined (reading '", "')". reflexivity. }
  split; [apply Hthrow|].
  intros written H. unfold run in H.
  assert (Hok : exists ws, mapM (run_round h out config template packageName)
                             (rounds (collect template
                                        (getVariantIdsWithRequired variantIds template)))
                           = Ok ws) by eauto.
  apply mapM_ok in Hok. rewrite Forall_forall in Hok.
  apply obj_get_In, In_nth_error in Hget as [n Hn]. apply In_rounds in Hn.
  destruct (Hok _ Hn) as [w Hw]. apply run_round_ok in Hw as (Hmerge & _).
  destruct (Hthrow (host_in_round h out n)) as [e [He _]]. congruence.
Qed.

Lemma package_json_needs_method_witness :
  (exists e,
      run_file Sample.bare Sample.config (Sample.template (Some [])) "tools"
        ("package.json", [ SourceFileInfo.mk "base" Sample.base_manifest ])
      = Throw e
      /\ names_path e "package.json")
  /\ forall written,
       run Sample.bare (Sample.output Sample.bare) Sample.config
         (Sample.template (Some [])) "tools" []
       <> Ok written.
Proof.
  apply (package_json_needs_method Sample.bare (Sample.output Sample.bare) Sample.config
           (Sample.template (Some [])) "tools" []
           [ SourceFileInfo.mk "base" Sample.base_manifest ]); reflexivity.
Defined.

(** ** Merge methods of a loaded template *)

Lemma obj_get_map_values {A B : Type} (f : A -> B) (o : obj A) (k : string) :
  obj_get k (map_values f o) = option_map f (obj_get k o).
Proof.
  induction o as [|[k' v] o IH]; [reflexivity|]. simpl.
  destruct (String.eqb k k'); [reflexivity | exact IH].
Qed.

Lemma valid_mergeMethod_known (m : string) :
  isValid_mergeMethod (JString m) = true -> known_method m.
Proof.
  unfold isValid_mergeMethod, known_method, isCustomMergeMethod.
  destruct (String.eqb m "json") eqn:E1; [apply String.eqb_eq in E1; now left|].
  destruct (String.eqb m "json-shallow") eqn:E2;
    [apply String.eqb_eq in E2; right; now left|].
  destruct (String.eqb m "last") eqn:E3;
    [apply String.eqb_eq in E3; right; right; now left|].
  destruct (startsWith "custom:" m); [intros _; now repeat right | discriminate].
Qed.

Lemma valid_template_methods (definition : json) (t : LoadedTemplate.t) :
  isValid_template definition = true ->
  LoadedTemplate.config t = as_Template definition ->
  methods_known t.
Proof.
  intros Hvalid Hconfig path m Hdecl.
  unfold declared_mergeMethod, LoadedTemplate.files in Hdecl. rewrite Hconfig in Hdecl.
  destruct definition as [| | | | |o]; try discriminate.
  unfold isValid_template in Hvalid. apply andb_prop in Hvalid as [_ Hfiles].
  unfold as_Template in Hdecl. cbn [Template.files] in Hdecl.
  unfold property_ok in Hfiles.
  destruct (obj_get "files" o) as [[| | | | |fs]|]; try discriminate.
  rewrite obj_get_map_values in Hdecl.
  destruct (obj_get path fs) as [v|] eqn:Hget; [|discriminate]. simpl in Hdecl.
  apply obj_get_In in Hget. unfold all_properties in Hfiles.
  rewrite forallb_forall in Hfiles. specialize (Hfiles _ Hget). simpl in Hfiles.
  destruct v as [| | | | |fo]; try discriminate.
  unfold isValid_files, property_ok in Hfiles. unfold get_string in Hdecl.
  destruct (obj_get "mergeMethod" fo) as [[| | |s| |]|]; try discriminate.
  injection Hdecl as ->. now apply valid_mergeMethod_known.
Qed.

(** X19. Every merge method that a loaded template declares is [json],
    [json-shallow], [last] or a [custom:] method, so a run on it raises
    no [Error] of the engine. *)
Theorem readTemplates_methods (h : Host) (dir : string) (loaded : obj LoadedTemplate.t)
    (k : string) (t : LoadedTemplate.t) :
  readTemplates h dir = Ok loaded ->
  In (k, t) loaded ->
  (forall path m,
     declared_mergeMethod t path = Some m ->
     m = "json" \/ m = "json-shallow" \/ m = "last" \/ startsWith "custom:" m = true)
  /\ forall h' out config packageName variantIds e,
       run h' out config t packageName variantIds = Throw e -> is_Error e = false.
Proof.
  unfold readTemplates. intros H Hin.
  apply bind_ok in H as [u [_ H]]. apply bind_ok in H as [ids [_ H]].
  apply bind_ok in H as [[entries used] [Hfold H]]. injection H as <-.
  apply load_templates_entries in Hfold as [Hall _]; [|constructor].
  unfold obj_fromEntries in Hin. apply In_fold_set in Hin. destruct Hin as [[] | Hin].
  rewrite Forall_forall in Hall.
  destruct (Hall _ Hin) as (_ & _ & (definition & Hvalid & Hconfig) & _).
  simpl in Hconfig.
  pose proof (valid_template_methods definition t Hvalid Hconfig) as Hknown.
  split; [exact Hknown|].
  intros h' out config packageName variantIds e.
  now apply run_throws.
Qed.

Lemma readTemplates_methods_witness :
  exists loaded t,
    readTemplates Sample.one_template "templates" = Ok loaded
    /\ In ("lib", t) loaded
    /\ forall path m,
         declared_mergeMethod t path = Some m ->
         m = "json" \/ m = "json-shallow" \/ m = "last" \/ startsWith "custom:" m = true.
Proof.
  destruct (readTemplates Sample.one_template "templates") as [loaded| |] eqn:E;
    [|vm_compute in E; discriminate|vm_compute in E; discriminate].
  destruct loaded as [|[k t] rest]; [vm_compute in E; discriminate|].
  assert (Hk : k = "lib") by (vm_compute in E; congruence).
  exists ((k, t) :: rest), t. split; [reflexivity|].
  assert (Hin : In ("lib", t) ((k, t) :: rest)) by (left; now rewrite Hk).
  split; [exact Hin|].
  exact (proj1 (readTemplates_methods Sample.one_template "templates" _ "lib" t E Hin)).
Defined.

(** ** sortByKeys on any value *)

Lemma named_keys_insert {A : Type} (n : N) (k : string) (v : A) (o : obj A) :
  array_index k = Some n ->
  named_keys (obj_insert_index n k v o) = named_keys o.
Proof.
  intros Hk. unfold named_keys, obj_keys.
  assert (Hnon : non_index k = false) by (unfold non_index; now rewrite Hk).
  induction o as [|[k' v'] o IH]; cbn [obj_insert_index].
  - cbn [map fst filter]. now rewrite Hnon.
  - destruct (array_index k') as [n'|] eqn:E.
    + destruct (n' <? n)%N.
      * cbn [map fst filter]. now rewrite IH.
      * cbn [map fst filter]. now rewrite Hnon.
    + cbn [map fst filter]. now rewrite Hnon.
Qed.

Lemma named_keys_assign {A : Type} (k : string) (v : A) (o : obj A) :
  named_keys (obj_assign k v o) = named_keys o
  \/ (~ In k (obj_keys o) /\ named_keys (obj_assign k v o) = (named_keys o ++ [k])%list).
Proof.
  unfold obj_assign. destruct (String.eqb k "__proto__"); [now left|].
  unfold obj_set. destruct (obj_has k o) eqn:Hhas.
  - left. unfold named_keys. now rewrite obj_keys_replace.
  - destruct (array_index k) as [n|] eqn:E.
    + left. now apply named_keys_insert.
    + right. split; [now apply obj_has_false|].
      unfold named_keys, obj_keys. rewrite map_app, filter_app. simpl.
      unfold non_index. now rewrite E.
Qed.

Lemma obj_keys_assign {A : Type} (k : string) (v : A) (o : obj A) (k' : string) :
  In k' (obj_keys (obj_assign k v o)) -> k' = k \/ In k' (obj_keys o).
Proof.
  unfold obj_assign. destruct (String.eqb k "__proto__"); [now right|].
  apply obj_keys_set.
Qed.

Lemma canonical_assign {A : Type} (k : string) (v : A) (o : obj A) :
  canonical o -> canonical (obj_assign k v o).
Proof.
  unfold obj_assign. destruct (String.eqb k "__proto__"); [trivial|]. apply canonical_set.
Qed.

Lemma obj_get_assign {A : Type} (k k' : string) (v : A) (o : obj A) :
  obj_get k (obj_assign k' v o)
  = if String.eqb k k' && negb (String.eqb k' "__proto__") then Some v else obj_get k o.
Proof.
  unfold obj_assign. destruct (String.eqb k' "__proto__"); simpl.
  - now rewrite andb_false_r.
  - rewrite obj_get_set, andb_true_r. reflexivity.
Qed.

Lemma sorted_snoc (l : list string) (k : string) :
  StronglySorted str_le l -> Forall (fun a => str_le a k) l ->
  StronglySorted str_le (l ++ [k])%list.
Proof.
  induction l as [|a l IH]; intros Hs Hall; simpl.
  - constructor; constructor.
  - inversion Hs as [|? ? Hs' Ha]; subst. inversion Hall as [|? ? Hak Hall']; subst.
    constructor; [now apply IH|].
    apply Forall_app. split; [exact Ha | now constructor].
Qed.

Lemma sort_fold_order (es : obj json) (ks : list string) :
  StronglySorted str_le ks ->
  forall acc,
    canonical acc ->
    StronglySorted str_le (named_keys acc) ->
    (forall a k, In a (obj_keys acc) -> In k ks -> str_le a k) ->
    canonical (fold_left (sort_step es) ks acc)
    /\ StronglySorted str_le (named_keys (fold_left (sort_step es) ks acc)).
Proof.
  induction ks as [|k0 ks IH]; intros Hks acc Hc Hs Hle; [now split|].
  inversion Hks as [|? ? Hks' Hk0]; subst. rewrite Forall_forall in Hk0.
  simpl. apply IH; [exact Hks' | | |].
  - unfold sort_step. destruct (obj_get k0 es); [now apply canonical_assign | exact Hc].
  - unfold sort_step. destruct (obj_get k0 es) as [v|]; [|exact Hs].
    destruct (named_keys_assign k0 v acc) as [-> | [_ ->]]; [exact Hs|].
    apply sorted_snoc; [exact Hs|]. apply Forall_forall. intros a Ha.
    unfold named_keys in Ha. apply filter_In in Ha as [Ha _].
    apply Hle; [exact Ha | now left].
  - intros a k Ha Hk. unfold sort_step in Ha. destruct (obj_get k0 es) as [v|].
    + apply obj_keys_assign in Ha as [-> | Ha]; [now apply Hk0|].
      apply Hle; [exact Ha | now right].
    + apply Hle; [exact Ha | now right].
Qed.

Lemma sort_fold_get (es : obj json) (ks : list string) (k : string) :
  forall acc,
    obj_get k (fold_left (sort_step es) ks acc)
    = if negb (String.eqb k "__proto__") && includes k ks
      then match obj_get k es with
           | Some v => Some v
           | None => obj_get k acc
           end
      else obj_get k acc.
Proof.
  induction ks as [|k0 ks IH]; intros acc.
  - simpl. now rewrite andb_false_r.
  - cbn [fold_left]. rewrite IH. unfold sort_step, includes. cbn [existsb].
    destruct (String.eqb k k0) eqn:E.
    + apply String.eqb_eq in E. subst k0.
      destruct (obj_get k es) as [v|] eqn:Hget.
      * rewrite obj_get_assign, String.eqb_refl.
        destruct (String.eqb k "__proto__"); destruct (existsb (String.eqb k) ks);
          reflexivity.
      * destruct (String.eqb k "__proto__"); destruct (existsb (String.eqb k) ks);
          reflexivity.
    + destruct (obj_get k0 es) as [v0|]; [rewrite obj_get_assign, E|]; reflexivity.
Qed.

(** The object that the loop of [sortByKeys] builds from the sorted keys
    of [es]. *)
Lemma sort_fold_result (es : obj json) :
  let sorted := fold_left (sort_step es) (js_sort (obj_keys es)) [] in
  canonical sorted
  /\ StronglySorted str_le (named_keys sorted)
  /\ forall k,
       obj_get k sorted
       = if String.eqb k "__proto__" then None else obj_get k es.
Proof.
  intros sorted. subst sorted.
  destruct (sort_fold_order es (js_sort (obj_keys es)) (js_sort_sorted _) [])
    as [Hc Hs]; [apply canonical_nil | constructor | intros a k []|].
  split; [exact Hc|]. split; [exact Hs|].
  intros k. rewrite sort_fold_get. simpl.
  destruct (String.eqb k "__proto__"); simpl; [reflexivity|].
  destruct (includes k (js_sort (obj_keys es))) eqn:Hin.
  - now destruct (obj_get k es).
  - symmetry. apply obj_get_none. intros Hk.
    assert (Hin' : includes k (js_sort (obj_keys es)) = true).
    { apply includes_In. eapply Permutation_in; [apply js_sort_perm | exact Hk]. }
    congruence.
Qed.

(** X20. On any value that has properties, [sortByKeys] returns an
    object that holds every property of the value but [__proto__], each
    with the value it had: the keys that are array indices come first in
    ascending numeric order, the other keys follow in ascending code
    unit order.  So an array or a string comes back as an object keyed
    by position. *)
Theorem sortByKeys_any_value (src : json) (es : obj json) :
  own_entries src = Some es ->
  exists sorted,
    sortByKeys src = Ok (JObject sorted)
    /\ canonical sorted
    /\ StronglySorted str_le (named_keys sorted)
    /\ forall k,
         obj_get k sorted
         = if String.eqb k "__proto__" then None else obj_get k es.
Proof.
  intros Hes. exists (fold_left (sort_step es) (js_sort (obj_keys es)) []).
  split; [unfold sortByKeys; rewrite Hes; reflexivity|].
  apply sort_fold_result.
Qed.

Lemma sortByKeys_any_value_witness :
  exists sorted,
    sortByKeys (JArray [ JString "left-pad"; JString "chalk" ]) = Ok (JObject sorted)
    /\ canonical sorted
    /\ StronglySorted str_le (named_keys sorted)
    /\ forall k,
         obj_get k sorted
         = if String.eqb k "__proto__" then None
           else obj_get k [ ("0", JString "left-pad"); ("1", JString "chalk") ].
Proof.
  apply (sortByKeys_any_value (JArray [ JString "left-pad"; JString "chalk" ])).
  reflexivity.
Defined.

(** ** Reading back what the serializer writes *)

(** *** Numbers *)

Lemma parse_digits_delimited (rest : string) (acc : N) :
  delimited rest = true -> parse_digits rest acc = (acc, rest).
Proof.
  destruct rest as [|c r]; [reflexivity|]. unfold delimited. cbn [parse_digits].
  destruct (digit_of c); [discriminate | reflexivity].
Qed.

Lemma parse_digits_uint (d : Decimal.uint) (rest : string) :
  delimited rest = true ->
  forall acc,
    parse_digits (NilEmpty.string_of_uint d ++ rest) acc = (horner d acc, rest).
Proof.
  intros Hrest. induction d; intros acc;
    try (cbn [NilEmpty.string_of_uint append parse_digits horner];
         change (digit_of _) with (Some 0%N) || change (digit_of _) with (Some 1%N)
         || change (digit_of _) with (Some 2%N) || change (digit_of _) with (Some 3%N)
         || change (digit_of _) with (Some 4%N) || change (digit_of _) with (Some 5%N)
         || change (digit_of _) with (Some 6%N) || change (digit_of _) with (Some 7%N)
         || change (digit_of _) with (Some 8%N) || change (digit_of _) with (Some 9%N);
         cbv iota; rewrite ?N.add_0_r; apply IHd).
  simpl. now apply parse_digits_delimited.
Qed.

Lemma horner_pos (d : Decimal.uint) :
  forall a, horner d (N.pos a) = N.pos (Pos.of_uint_acc d a).
Proof.
  induction d; intros a; cbn [horner Pos.of_uint_acc]; [reflexivity|..];
    match goal with
    | |- horner d ?x = N.pos (Pos.of_uint_acc d ?y) =>
        replace x with (N.pos y) by lia; apply IHd
    end.
Qed.

Lemma nzhead_no_zero (d l : Decimal.uint) : Decimal.nzhead d <> Decimal.D0 l.
Proof. induction d; simpl; try discriminate. exact IHd. Qed.

Lemma to_uint_no_zero (p : positive) (l : Decimal.uint) : Pos.to_uint p <> Decimal.D0 l.
Proof.
  intros H. pose proof (DecimalPos.Unsigned.to_of (Pos.to_uint p)) as Hnorm.
  rewrite DecimalPos.Unsigned.of_to in Hnorm. simpl in Hnorm.
  rewrite H in Hnorm. unfold Decimal.unorm in Hnorm. simpl in Hnorm.
  destruct (Decimal.nzhead l) eqn:E; try discriminate.
  - injection Hnorm as ->. apply (DecimalPos.Unsigned.to_uint_nonzero p). exact H.
  - now apply nzhead_no_zero in E.
Qed.

(** The digits of a positive number below the safe bound are read back
    as that number. *)
Lemma parse_number_pos (negative : bool) (p : positive) (rest : string) :
  (N.pos p <= max_safe_integer)%N ->
  delimited rest = true ->
  parse_number negative (NilZero.string_of_uint (Pos.to_uint p) ++ rest)
  = Ok (JNumber (if negative then Z.neg p else Z.pos p), rest).
Proof.
  intros Hsafe Hrest.
  pose proof (DecimalPos.Unsigned.of_to p) as Hvalue.
  pose proof (to_uint_no_zero p) as Hzero.
  pose proof (DecimalPos.Unsigned.to_uint_nonnil p) as Hnil.
  assert (Hdel : starts_fraction rest = false).
  { destruct rest as [|c r]; [reflexivity|]. unfold delimited in Hrest.
    destruct (digit_of c); [discriminate|]. now apply negb_true_iff in Hrest. }
  apply N.leb_le in Hsafe.
  destruct (Pos.to_uint p) as [|l|l|l|l|l|l|l|l|l|l];
    [congruence | exfalso; now apply (Hzero l) | ..];
    unfold NilZero.string_of_uint, parse_number;
    cbn [NilEmpty.string_of_uint append];
    (change (digit_of _) with (Some 1%N) || change (digit_of _) with (Some 2%N)
     || change (digit_of _) with (Some 3%N) || change (digit_of _) with (Some 4%N)
     || change (digit_of _) with (Some 5%N) || change (digit_of _) with (Some 6%N)
     || change (digit_of _) with (Some 7%N) || change (digit_of _) with (Some 8%N)
     || change (digit_of _) with (Some 9%N));
    cbv iota; cbn [N.eqb Pos.eqb];
    rewrite (parse_digits_uint l rest Hrest), Hdel;
    cbn [Pos.of_uint] in Hvalue; rewrite horner_pos, Hvalue, Hsafe;
    destruct negative; reflexivity.
Qed.

(** *** White space and fuel *)

Lemma skip_ws_blank (pre s : string) : blank pre = true -> skip_ws (pre ++ s) = skip_ws s.
Proof.
  induction pre as [|c pre IH]; [reflexivity|]. cbn [blank append skip_ws].
  intros H. apply andb_prop in H as [Hc Hpre]. rewrite Hc. now apply IH.
Qed.

Lemma parse_value_pre (fuel : nat) (pre s : string) :
  blank pre = true -> parse_value fuel (pre ++ s) = parse_value fuel s.
Proof.
  intros Hpre. destruct fuel as [|fuel]; [reflexivity|]. cbn [parse_value].
  pose proof (skip_ws_blank pre s Hpre) as E.
  assert (Hidem : forall t, skip_ws (skip_ws t) = skip_ws t).
  { induction t as [|c t IHt]; [reflexivity|]. cbn [skip_ws].
    destruct (is_ws c) eqn:Ec; [exact IHt|]. cbn [skip_ws]. now rewrite Ec. }
  now rewrite E.
Qed.

Lemma parse_key_pre (pre s : string) :
  blank pre = true -> parse_key (pre ++ s) = parse_key s.
Proof. intros Hpre. unfold parse_key. now rewrite skip_ws_blank. Qed.

(** A result that the parser reaches with some fuel is reached with any
    larger fuel. *)
Lemma parse_mono (fuel : nat) :
  (forall s r, parse_value fuel s = Some r ->
     forall fuel', fuel <= fuel' -> parse_value fuel' s = Some r)
  /\ (forall s acc r, parse_elements fuel s acc = Some r ->
        forall fuel', fuel <= fuel' -> parse_elements fuel' s acc = Some r)
  /\ (forall s acc r, parse_members fuel s acc = Some r ->
        forall fuel', fuel <= fuel' -> parse_members fuel' s acc = Some r).
Proof.
  induction fuel as [|fuel [IHv [IHe IHm]]]; [repeat split; intros; discriminate|].
  split; [|split].
  - intros s r H fuel' Hle. destruct fuel' as [|fuel']; [lia|].
    cbn [parse_value] in *. destruct (skip_ws s) as [|c t]; [exact H|].
    destruct (Ascii.eqb c "{").
    { destruct (after "}" (skip_ws t)); [exact H | apply (IHm _ _ _ H); lia]. }
    destruct (Ascii.eqb c "[").
    { destruct (after "]" (skip_ws t)); [exact H | apply (IHe _ _ _ H); lia]. }
    exact H.
  - intros s acc r H fuel' Hle. destruct fuel' as [|fuel']; [lia|].
    cbn [parse_elements] in *.
    destruct (parse_value fuel s) as [rv|] eqn:Hv; [|discriminate].
    rewrite (IHv _ _ Hv fuel') by lia.
    destruct rv as [[v t]|e|]; [|exact H|exact H].
    destruct (after "," (skip_ws t)); [apply (IHe _ _ _ H); lia | exact H].
  - intros s acc r H fuel' Hle. destruct fuel' as [|fuel']; [lia|].
    cbn [parse_members] in *.
    destruct (parse_key s) as [[k t2]|e|]; [|exact H|exact H].
    destruct (parse_value fuel t2) as [rv|] eqn:Hv; [|discriminate].
    rewrite (IHv _ _ Hv fuel') by lia.
    destruct rv as [[v t3]|e|]; [|exact H|exact H].
    destruct (after "," (skip_ws t3)); [apply (IHm _ _ _ H); lia | exact H].
Qed.

(** *** Scalars *)

Lemma digit_char (c : ascii) (d : N) (r : string) :
  digit_of c = Some d ->
  is_ws c = false
  /\ Ascii.eqb c "{" = false
  /\ Ascii.eqb c "[" = false
  /\ parse_scalar c r = parse_number false (String c r).
Proof.
  destruct c as [[] [] [] [] [] [] [] []]; intros H; try discriminate H;
    repeat split; reflexivity.
Qed.

Lemma string_of_uint_head (p : positive) :
  exists c d r,
    NilZero.string_of_uint (Pos.to_uint p) = String c r /\ digit_of c = Some d.
Proof.
  pose proof (DecimalPos.Unsigned.to_uint_nonnil p) as Hnil.
  destruct (Pos.to_uint p); [congruence|..];
    do 3 eexists; (split; [reflexivity|]); reflexivity.
Qed.

Lemma delimited_fraction (rest : string) :
  delimited rest = true -> starts_fraction rest = false.
Proof.
  destruct rest as [|c r]; [reflexivity|]. unfold delimited.
  destruct (digit_of c); [discriminate|]. now intros H; apply negb_true_iff in H.
Qed.

Lemma parse_value_number (fuel : nat) (n : Z) (rest : string) :
  (Z.abs n <= Z.of_N max_safe_integer)%Z ->
  delimited rest = true ->
  parse_value (S fuel) (number_to_string n ++ rest) = Some (Ok (JNumber n, rest)).
Proof.
  intros Hsafe Hrest. unfold number_to_string. destruct n as [|p|p]; cbn [Z.to_int].
  - change (NilZero.string_of_int (Decimal.Pos Decimal.zero) ++ rest)
      with (String "0" rest).
    change (parse_value (S fuel) (String "0" rest))
      with (Some (parse_number false (String "0" rest))).
    unfold parse_number. change (digit_of "0") with (Some 0%N). cbv iota.
    change (0 =? 0)%N with true. cbv iota.
    now rewrite (delimited_fraction rest Hrest).
  - cbn [NilZero.string_of_int].
    destruct (string_of_uint_head p) as (c & d & r & Hhead & Hdigit).
    destruct (digit_char c d (r ++ rest) Hdigit) as (Hws & Hbrace & Hbracket & Hscalar).
    pose proof (parse_number_pos false p rest) as Hnumber.
    rewrite Hhead in Hnumber |- *. cbn [append parse_value skip_ws].
    rewrite Hws, Hbrace, Hbracket, Hscalar. cbn [append] in Hnumber.
    rewrite Hnumber; [reflexivity | | exact Hrest].
    lia.
  - cbn [NilZero.string_of_int append parse_value skip_ws].
    change (is_ws "-") with false. cbv iota.
    change (Ascii.eqb "-" "{") with false. change (Ascii.eqb "-" "[") with false.
    cbv iota. unfold parse_scalar.
    change (Ascii.eqb "-" dquote) with false. change (Ascii.eqb "-" "-") with true.
    cbv iota. rewrite (parse_number_pos true p rest); [reflexivity | | exact Hrest].
    lia.
Qed.

Lemma expect_literal (lit : string) (v : json) (rest : string) :
  expect lit v (lit ++ rest) = Ok (v, rest).
Proof.
  unfold expect.
  assert (Hprefix : String.prefix lit (lit ++ rest) = true).
  { induction lit as [|a lit IH]; simpl; [now destruct rest|].
    destruct (ascii_dec a a); [exact IH | congruence]. }
  assert (Hrest : substring_from (String.length lit) (lit ++ rest) = rest).
  { clear Hprefix. induction lit as [|a lit IH]; simpl; [now destruct rest | exact IH]. }
  now rewrite Hprefix, Hrest.
Qed.

Lemma parse_value_literal (fuel : nat) (v : json) (rest : string) :
  match v with JNull | JBool _ => True | _ => False end ->
  parse_value (S fuel) (JSON_stringify v ++ rest) = Some (Ok (v, rest)).
Proof.
  destruct v as [|[|]| | | |]; intros [].
  - change (parse_value (S fuel) (JSON_stringify JNull ++ rest))
      with (Some (expect "null" JNull ("null" ++ rest))).
    now rewrite expect_literal.
  - change (parse_value (S fuel) (JSON_stringify (JBool true) ++ rest))
      with (Some (expect "true" (JBool true) ("true" ++ rest))).
    now rewrite expect_literal.
  - change (parse_value (S fuel) (JSON_stringify (JBool false) ++ rest))
      with (Some (expect "false" (JBool false) ("false" ++ rest))).
    now rewrite expect_literal.
Qed.

(** *** Arrays and objects *)

Lemma digit_char_open (c : ascii) (d : N) :
  digit_of c = Some d -> Ascii.eqb c "]" = false /\ Ascii.eqb c "}" = false.
Proof.
  destruct c as [[] [] [] [] [] [] [] []]; intros H; try discriminate H; split; reflexivity.
Qed.

(** A serialized value starts with a character that is neither white
    space nor a closing bracket. *)
Lemma stringify_head (ind : string) (v : json) :
  exists c r,
    stringify_indent ind v = String c r
    /\ is_ws c = false /\ Ascii.eqb c "]" = false /\ Ascii.eqb c "}" = false.
Proof.
  destruct v as [|[|]|n|s|l|o].
  - now exists "n"%char, "ull".
  - now exists "t"%char, "rue".
  - now exists "f"%char, "alse".
  - destruct n as [|p|p].
    + now exists "0"%char, EmptyString.
    + destruct (string_of_uint_head p) as (c & d & r & Hhead & Hdigit).
      exists c, r. split; [exact Hhead|].
      destruct (digit_char c d r Hdigit) as (Hws & _).
      destruct (digit_char_open c d Hdigit) as [H1 H2]. now repeat split.
    + eexists "-"%char, _. split; [reflexivity | now repeat split].
  - eexists dquote, _. split; [reflexivity | now repeat split].
  - destruct l; eexists "["%char, _; (split; [reflexivity | now repeat split]).
  - destruct o; eexists "{"%char, _; (split; [reflexivity | now repeat split]).
Qed.

Lemma skip_ws_value (pre ind : string) (v : json) (rest : string) :
  blank pre = true ->
  skip_ws (pre ++ stringify_indent ind v ++ rest) = stringify_indent ind v ++ rest.
Proof.
  intros Hpre. rewrite skip_ws_blank by exact Hpre.
  destruct (stringify_head ind v) as (c & r & -> & Hws & _).
  cbn [append skip_ws]. now rewrite Hws.
Qed.

Lemma skip_ws_close (ind : string) (c : ascii) (rest : string) :
  blank ind = true -> is_ws c = false ->
  skip_ws (String newline (ind ++ String c rest)) = String c rest.
Proof.
  intros Hind Hc. cbn [skip_ws]. change (is_ws newline) with true. cbv iota.
  rewrite skip_ws_blank by exact Hind. cbn [skip_ws]. now rewrite Hc.
Qed.

Lemma blank_newline (ind : string) : blank ind = true -> blank (String newline ind) = true.
Proof. intros H. cbn [blank]. now rewrite H. Qed.

Lemma blank_deeper (ind : string) : blank ind = true -> blank (ind ++ "  ") = true.
Proof.
  induction ind as [|c ind IH]; [reflexivity|]. cbn [blank append].
  intros H. apply andb_prop in H as [Hc Hind]. now rewrite Hc, IH.
Qed.

Lemma parse_elements_back (ind' ind rest : string) (l : list json) :
  Forall reads_back l -> l <> [] ->
  blank ind' = true -> blank ind = true ->
  forall pre acc, blank pre = true ->
    exists fuel0, forall fuel, fuel0 <= fuel ->
      parse_elements fuel
        (pre ++ join (String "," (String newline ind')) (map (stringify_indent ind') l)
             ++ String newline (ind ++ String "]" rest))
        acc
      = Some (Ok (JArray (acc ++ l)%list, rest)).
Proof.
  intros Hall Hne Hind' Hind.
  induction l as [|x l IH]; [congruence|]. clear Hne.
  inversion Hall as [|? ? Hx Hl]; subst. intros pre acc Hpre.
  destruct l as [|y l'].
  - destruct (Hx ind' (String newline (ind ++ String "]" rest)) Hind' eq_refl)
      as [f0 Hf0].
    exists (S f0). intros fuel Hle. destruct fuel as [|fuel]; [lia|].
    cbn [map join parse_elements]. rewrite parse_value_pre by exact Hpre.
    rewrite Hf0 by lia. rewrite skip_ws_close by (exact Hind || reflexivity).
    reflexivity.
  - destruct (IH Hl ltac:(discriminate) (String newline ind') (acc ++ [x])%list
                (blank_newline _ Hind')) as [f1 Hf1].
    set (tail := join (String "," (String newline ind'))
                   (map (stringify_indent ind') (y :: l'))
                 ++ String newline (ind ++ String "]" rest)) in *.
    destruct (Hx ind' (String "," (String newline ind' ++ tail)) Hind' eq_refl)
      as [f0 Hf0].
    exists (S (Nat.max f0 f1)). intros fuel Hle. destruct fuel as [|fuel]; [lia|].
    assert (Htext : pre ++ join (String "," (String newline ind'))
                             (map (stringify_indent ind') (x :: y :: l'))
                        ++ String newline (ind ++ String "]" rest)
                    = pre ++ stringify_indent ind' x
                          ++ String "," (String newline ind' ++ tail)).
    { unfold tail. cbn [map]. rewrite join_cons by discriminate.
      rewrite !string_app_assoc. reflexivity. }
    rewrite Htext. cbn [parse_elements]. rewrite parse_value_pre by exact Hpre.
    rewrite Hf0 by lia. cbn [skip_ws]. change (is_ws ",") with false. cbv iota.
    cbn [after]. change (Ascii.eqb "," ",") with true. cbv iota.
    rewrite Hf1 by lia. now rewrite <- app_assoc.
Qed.

Lemma parse_members_back (ind' ind rest : string) (o : obj json) :
  Forall (fun kv => reads_back (snd kv)) o -> o <> [] ->
  blank ind' = true -> blank ind = true ->
  forall pre acc, blank pre = true ->
    exists fuel0, forall fuel, fuel0 <= fuel ->
      parse_members fuel
        (pre ++ join (String "," (String newline ind'))
                  (map (fun kv => quote (fst kv) ++ ": " ++ stringify_indent ind' (snd kv)) o)
             ++ String newline (ind ++ String "}" rest))
        acc
      = Some (Ok (JObject (fold_left (fun d kv => obj_set (fst kv) (snd kv) d) o acc), rest)).
Proof.
  intros Hall Hne Hind' Hind.
  induction o as [|[k v] o IH]; [congruence|]. clear Hne.
  inversion Hall as [|? ? Hv Ho]; subst. cbn [snd] in Hv. intros pre acc Hpre.
  destruct o as [|kv' o'].
  - destruct (Hv ind' (String newline (ind ++ String "}" rest)) Hind' eq_refl)
      as [f0 Hf0].
    exists (S f0). intros fuel Hle. destruct fuel as [|fuel]; [lia|].
    cbn [map join fst snd]. rewrite parse_members_eq, parse_key_pre by exact Hpre.
    rewrite !string_app_assoc, quote_quoted.
    change (": " ++ stringify_indent ind' v ++ String newline (ind ++ String "}" rest))
      with (String ":" (" " ++ stringify_indent ind' v
                          ++ String newline (ind ++ String "}" rest))).
    rewrite parse_key_quoted, parse_value_pre by reflexivity.
    rewrite Hf0 by lia. rewrite skip_ws_close by (exact Hind || reflexivity).
    reflexivity.
  - destruct (IH Ho ltac:(discriminate) (String newline ind') (obj_set k v acc)
                (blank_newline _ Hind')) as [f1 Hf1].
    set (tail := join (String "," (String newline ind'))
                   (map (fun kv => quote (fst kv) ++ ": " ++ stringify_indent ind' (snd kv))
                      (kv' :: o'))
                 ++ String newline (ind ++ String "}" rest)) in *.
    destruct (Hv ind' (String "," (String newline ind' ++ tail)) Hind' eq_refl)
      as [f0 Hf0].
    exists (S (Nat.max f0 f1)). intros fuel Hle. destruct fuel as [|fuel]; [lia|].
    assert (Htext : pre ++ join (String "," (String newline ind'))
                             (map (fun kv => quote (fst kv) ++ ": "
                                               ++ stringify_indent ind' (snd kv))
                                ((k, v) :: kv' :: o'))
                        ++ String newline (ind ++ String "}" rest)
                    = pre ++ quoted k
                               (String ":" (" " ++ stringify_indent ind' v
                                  ++ String "," (String newline ind' ++ tail)))).
    { unfold tail. cbn [map fst snd]. rewrite join_cons by discriminate.
      rewrite !string_app_assoc, quote_quoted. reflexivity. }
    rewrite Htext, parse_members_eq, parse_key_pre by exact Hpre.
    rewrite parse_key_quoted, parse_value_pre by reflexivity.
    rewrite Hf0 by lia. cbn [skip_ws]. change (is_ws ",") with false. cbv iota.
    cbn [after]. change (Ascii.eqb "," ",") with true. cbv iota.
    rewrite Hf1 by lia. reflexivity.
Qed.

Lemma safe_array (l : list json) : safe_numbers (JArray l) <-> Forall safe_numbers l.
Proof.
  simpl. induction l as [|x l IH]; [split; constructor|].
  rewrite IH. split.
  - intros [Hx Hl]. now constructor.
  - intros H. now inversion H.
Qed.

Lemma safe_object (o : obj json) :
  safe_numbers (JObject o) <-> Forall (fun kv => safe_numbers (snd kv)) o.
Proof.
  simpl. induction o as [|kv o IH]; [split; constructor|].
  rewrite IH. split.
  - intros [Hx Hl]. now constructor.
  - intros H. now inversion H.
Qed.

(** Every well-formed value whose numbers are safe integers is read
    back from its indented serialization. *)
Lemma stringify_reads_back (v : json) : wf v -> safe_numbers v -> reads_back v.
Proof.
  induction v as [| b | n | s | l IH | o IH] using json_ind'; intros Hwf Hsafe ind rest Hind Hrest.
  - exists 1. intros fuel Hle. destruct fuel; [lia|]. now apply (parse_value_literal fuel JNull).
  - exists 1. intros fuel Hle. destruct fuel; [lia|].
    now apply (parse_value_literal fuel (JBool b)).
  - exists 1. intros fuel Hle. destruct fuel; [lia|]. now apply parse_value_number.
  - exists 1. intros fuel Hle. destruct fuel; [lia|].
    change (stringify_indent ind (JString s)) with (quote s).
    rewrite quote_quoted. apply parse_value_quoted.
  - destruct l as [|x l].
    + exists 1. intros fuel Hle. destruct fuel; [lia|]. reflexivity.
    + assert (Hall : Forall reads_back (x :: l)).
      { apply wf_array in Hwf. apply safe_array in Hsafe.
        rewrite Forall_forall in *. intros y Hy. now apply IH; [|apply Hwf|apply Hsafe]. }
      destruct (parse_elements_back (ind ++ "  ") ind rest (x :: l) Hall
                  ltac:(discriminate) (blank_deeper _ Hind) Hind
                  (String newline (ind ++ "  ")) []
                  (blank_newline _ (blank_deeper _ Hind))) as [f0 Hf0].
      exists (S f0). intros fuel Hle. destruct fuel as [|fuel]; [lia|].
      assert (Htext : stringify_indent ind (JArray (x :: l)) ++ rest
                      = String "["
                          (String newline (ind ++ "  ")
                             ++ join (String "," (String newline (ind ++ "  ")))
                                  (map (stringify_indent (ind ++ "  ")) (x :: l))
                             ++ String newline (ind ++ String "]" rest))).
      { cbn [stringify_indent].
        repeat (progress (cbn [append]; rewrite ?string_app_assoc)). reflexivity. }
      rewrite Htext. cbn [parse_value skip_ws]. change (is_ws "[") with false. cbv iota.
      change (Ascii.eqb "[" "{") with false. change (Ascii.eqb "[" "[") with true.
      cbv iota.
      assert (Hopen : after "]"
                        (skip_ws
                           (String newline (ind ++ "  ")
                              ++ join (String "," (String newline (ind ++ "  ")))
                                   (map (stringify_indent (ind ++ "  ")) (x :: l))
                              ++ String newline (ind ++ String "]" rest)))
                      = None).
      { rewrite skip_ws_blank by (apply blank_newline, blank_deeper, Hind).
        destruct (stringify_head (ind ++ "  ") x) as (c & r & Hc & Hws & Hclose & _).
        destruct l as [|y l'].
        - cbn [map join]. rewrite Hc. cbn [append skip_ws]. rewrite Hws.
          unfold after. now rewrite Hclose.
        - cbn [map]. rewrite join_cons by discriminate. rewrite Hc.
          cbn [append skip_ws]. rewrite Hws. unfold after. now rewrite Hclose. }
      rewrite Hopen. now rewrite Hf0 by lia.
  - destruct o as [|kv o].
    + exists 1. intros fuel Hle. destruct fuel; [lia|]. reflexivity.
    + apply wf_object in Hwf as [Hcanonical Hwf]. apply safe_object in Hsafe.
      assert (Hall : Forall (fun e => reads_back (snd e)) (kv :: o)).
      { rewrite Forall_forall in *. intros e He.
        now apply IH; [|apply Hwf|apply Hsafe]. }
      destruct (parse_members_back (ind ++ "  ") ind rest (kv :: o) Hall
                  ltac:(discriminate) (blank_deeper _ Hind) Hind
                  (String newline (ind ++ "  ")) []
                  (blank_newline _ (blank_deeper _ Hind))) as [f0 Hf0].
      exists (S f0). intros fuel Hle. destruct fuel as [|fuel]; [lia|].
      assert (Htext : stringify_indent ind (JObject (kv :: o)) ++ rest
                      = String "{"
                          (String newline (ind ++ "  ")
                             ++ join (String "," (String newline (ind ++ "  ")))
                                  (map (fun e => quote (fst e) ++ ": "
                                                   ++ stringify_indent (ind ++ "  ") (snd e))
                                     (kv :: o))
                             ++ String newline (ind ++ String "}" rest))).
      { cbn [stringify_indent].
        repeat (progress (cbn [append]; rewrite ?string_app_assoc)). reflexivity. }
      rewrite Htext. cbn [parse_value skip_ws]. change (is_ws "{") with false. cbv iota.
      change (Ascii.eqb "{" "{") with true. cbv iota.
      assert (Hopen : after "}"
                        (skip_ws
                           (String newline (ind ++ "  ")
                              ++ join (String "," (String newline (ind ++ "  ")))
                                   (map (fun e => quote (fst e) ++ ": "
                                                    ++ stringify_indent (ind ++ "  ") (snd e))
                                      (kv :: o))
                              ++ String newline (ind ++ String "}" rest)))
                      = None).
      { rewrite skip_ws_blank by (apply blank_newline, blank_deeper, Hind).
        destruct o as [|kv' o'].
        - cbn [map join]. reflexivity.
        - cbn [map]. rewrite join_cons by discriminate. reflexivity. }
      rewrite Hopen, Hf0 by lia.
      change (fold_left (fun d e => obj_set (fst e) (snd e) d) (kv :: o) [])
        with (obj_fromEntries (kv :: o)).
      now rewrite (obj_fromEntries_canonical (kv :: o) Hcanonical).
Qed.

(** The indented serialization of such a value parses, and parses as
    the value. *)
Lemma JSON_parse_stringify_2 (v : json) :
  wf v -> safe_numbers v -> JSON_parse (JSON_stringify_2 v) = Ok v.
Proof.
  intros Hwf Hsafe.
  destruct (stringify_reads_back v Hwf Hsafe EmptyString EmptyString eq_refl eq_refl)
    as [f0 Hf0].
  rewrite string_app_nil in Hf0. fold (JSON_stringify_2 v) in Hf0.
  unfold JSON_parse.
  set (fuel := 2 * String.length (JSON_stringify_2 v) + 2).
  pose proof (JSON_parse_fuel (JSON_stringify_2 v)) as Hfuel. fold fuel in Hfuel.
  destruct (parse_value fuel (JSON_stringify_2 v)) as [r|] eqn:Hr; [|congruence].
  pose proof (proj1 (parse_mono fuel) _ _ Hr (Nat.max fuel f0) (Nat.le_max_l _ _)) as Hbig.
  rewrite Hf0 in Hbig by apply Nat.le_max_r. injection Hbig as <-. reflexivity.
Qed.

(** ** The manifest that a run writes *)

Lemma parse_number_safe (negative : bool) (s : string) (v : json) (rest : string) :
  parse_number negative s = Ok (v, rest) -> safe_numbers v.
Proof.
  unfold parse_number. destruct s as [|c r]; [discriminate|].
  destruct (digit_of c) as [d|]; [|discriminate].
  destruct (if (d =? 0)%N then (0%N, r) else parse_digits r d) as [n rest0].
  destruct (starts_fraction rest0); [discriminate|].
  destruct (n <=? max_safe_integer)%N eqn:E; [|discriminate].
  intros [= <- _]. apply N.leb_le in E. cbn [safe_numbers]. destruct negative; lia.
Qed.

Lemma parse_scalar_safe (c : ascii) (r : string) (v : json) (rest : string) :
  parse_scalar c r = Ok (v, rest) -> safe_numbers v.
Proof.
  unfold parse_scalar, expect.
  destruct (Ascii.eqb c dquote).
  { intros H. apply bind_ok in H as [[t r'] [_ H]]. now injection H as <- _. }
  destruct (Ascii.eqb c "-"); [apply parse_number_safe|].
  destruct (Ascii.eqb c "t"); [destruct (String.prefix _ _); now intros [= <- _]|].
  destruct (Ascii.eqb c "f"); [destruct (String.prefix _ _); now intros [= <- _]|].
  destruct (Ascii.eqb c "n"); [destruct (String.prefix _ _); now intros [= <- _]|].
  apply parse_number_safe.
Qed.

Lemma parse_safe (fuel : nat) :
  (forall s v r, parse_value fuel s = Some (Ok (v, r)) -> safe_numbers v)
  /\ (forall s acc v r,
        Forall safe_numbers acc ->
        parse_elements fuel s acc = Some (Ok (v, r)) -> safe_numbers v)
  /\ (forall s acc v r,
        Forall (fun kv => safe_numbers (snd kv)) acc ->
        parse_members fuel s acc = Some (Ok (v, r)) -> safe_numbers v).
Proof.
  induction fuel as [|fuel [IHv [IHe IHm]]]; [repeat split; discriminate|].
  split; [|split].
  - intros s v r. cbn [parse_value]. destruct (skip_ws s) as [|c r0]; [discriminate|].
    destruct (Ascii.eqb c "{").
    + destruct (after "}" (skip_ws r0)).
      * now intros [= <- _].
      * apply IHm. constructor.
    + destruct (Ascii.eqb c "[").
      * destruct (after "]" (skip_ws r0)).
        -- now intros [= <- _].
        -- apply IHe. constructor.
      * intros [= H]. now apply parse_scalar_safe in H.
  - intros s acc v r Hacc. cbn [parse_elements].
    destruct (parse_value fuel s) as [[[x r1]|e|]|] eqn:Hx; try discriminate.
    apply IHv in Hx.
    assert (Hacc' : Forall safe_numbers (acc ++ [x])%list)
      by (apply Forall_app; split; [assumption | now constructor]).
    destruct (after "," (skip_ws r1)); [now apply IHe|].
    destruct (after "]" (skip_ws r1)); [|discriminate].
    intros [= <- _]. now apply safe_array.
  - intros s acc v r Hacc. cbn [parse_members].
    destruct (parse_key s) as [[k r2]|e|]; try discriminate.
    destruct (parse_value fuel r2) as [[[x r3]|e|]|] eqn:Hx; try discriminate.
    apply IHv in Hx.
    assert (Hacc' : Forall (fun kv => safe_numbers (snd kv)) (obj_set k x acc))
      by now apply Forall_values_set.
    destruct (after "," (skip_ws r3)); [now apply IHm|].
    destruct (after "}" (skip_ws r3)); [|discriminate].
    intros [= <- _]. now apply safe_object.
Qed.

(** Every number that [JSON.parse] returns is a safe integer. *)
Lemma JSON_parse_safe (text : string) (v : json) :
  JSON_parse text = Ok v -> safe_numbers v.
Proof.
  unfold JSON_parse.
  destruct (parse_value (2 * String.length text + 2) text) as [[[x r]|e|]|] eqn:Hx;
    try discriminate.
  destruct (skip_ws r); [|discriminate].
  intros [= <-]. now apply (proj1 (parse_safe _)) in Hx.
Qed.

Lemma merge_members_safe (merge : json -> json -> json) (eo : obj json)
    (lo : list (string * json)) :
  Forall (fun kv => forall ev, safe_numbers ev -> safe_numbers (merge ev (snd kv))) lo ->
  Forall (fun kv => safe_numbers (snd kv)) eo ->
  Forall (fun kv => safe_numbers (snd kv)) lo ->
  forall acc,
    Forall (fun kv => safe_numbers (snd kv)) acc ->
    Forall (fun kv => safe_numbers (snd kv)) (merge_members merge eo lo acc).
Proof.
  intros Hmerge Heo. induction lo as [|[k lv] lo IH]; intros Hlo acc Hacc; [exact Hacc|].
  inversion Hmerge as [|? ? Hk Hmerge']; subst. inversion Hlo as [|? ? Hlv Hlo']; subst.
  cbn [merge_members]. apply (IH Hmerge' Hlo'). apply Forall_values_set; [|exact Hacc].
  destruct (obj_get k eo) as [ev|] eqn:Hget; [|exact Hlv].
  apply Hk. apply obj_get_In in Hget. rewrite Forall_forall in Heo. exact (Heo _ Hget).
Qed.

Lemma json_merge_safe (later : json) :
  forall earlier,
    safe_numbers earlier -> safe_numbers later -> safe_numbers (json_merge earlier later).
Proof.
  induction later as [| | | |ll IH|lo IH] using json_ind'; intros earlier He Hl;
    try exact Hl.
  - destruct earlier as [| | | |el|eo]; try exact Hl.
    cbn [json_merge]. apply safe_array, Forall_app. split; now apply safe_array.
  - destruct earlier as [| | | |el|eo]; try exact Hl.
    cbn [json_merge]. apply safe_object. apply safe_object in He. apply safe_object in Hl.
    apply merge_members_safe; try assumption.
    rewrite Forall_forall in IH, Hl |- *. intros kv Hkv ev Hev.
    apply IH; [exact Hkv | exact Hev | now apply Hl].
Qed.

(** The deep merge of objects that are well formed, plain and safe is
    such an object again. *)
Lemma fold_merge_objects (objects : list (obj json)) :
  Forall (fun o => wf (JObject o) /\ plain (JObject o) = true /\ safe_numbers (JObject o))
    objects ->
  forall start,
    wf (JObject start) -> plain (JObject start) = true -> safe_numbers (JObject start) ->
    exists m,
      fold_left json_merge (map JObject objects) (JObject start) = JObject m
      /\ wf (JObject m) /\ plain (JObject m) = true /\ safe_numbers (JObject m)
      /\ forall k, obj_get k m = merged_value k objects (obj_get k start).
Proof.
  induction objects as [|o objects IH]; intros Hall start Hwf Hplain Hsafe.
  - exists start. split; [reflexivity|]. split; [exact Hwf|]. split; [exact Hplain|].
    split; [exact Hsafe | reflexivity].
  - inversion Hall as [|? ? (Howf & Hoplain & Hosafe) Hrest]; subst.
    destruct (deepmerge_described (JObject o) Howf Hoplain eq_refl (JObject start) Hwf Hplain)
      as (_ & Hmwf & Hmplain).
    pose proof (json_merge_safe (JObject o) (JObject start) Hsafe Hosafe) as Hmsafe.
    cbn [json_merge] in Hmwf, Hmplain, Hmsafe.
    destruct (IH Hrest _ Hmwf Hmplain Hmsafe) as (m & Hfold & Hw & Hp & Hs & Hget).
    exists m. cbn [map fold_left json_merge]. split; [exact Hfold|].
    split; [exact Hw|]. split; [exact Hp|]. split; [exact Hs|].
    intros k. rewrite Hget. unfold merged_value. cbn [fold_left]. f_equal.
    apply wf_object in Howf as [[Hnd _] _].
    rewrite (merge_members_get json_merge start o start k Hnd).
    now destruct (obj_get k o).
Qed.

Lemma sort_dependencies_object (m : obj json) :
  exists sorted,
    sort_dependencies (JObject m) = Ok (JObject sorted)
    /\ obj_keys sorted = obj_keys m
    /\ forall k,
         obj_get k sorted
         = if includes k dependency_categories then option_map sort_value (obj_get k m)
           else obj_get k m.
Proof.
  assert (Hnd : NoDup dependency_categories).
  { unfold dependency_categories. repeat constructor; simpl; intuition discriminate. }
  destruct (sort_categories_spec dependency_categories m Hnd) as (sorted & Hfold & Hkeys & Hget).
  exists sorted. split; [|split; assumption].
  transitivity (o' <- Ok sorted ;; Ok (JObject o')); [|reflexivity].
  rewrite <- Hfold. reflexivity.
Qed.

Lemma internal_object_good (config : Config.t) (packageName : string) :
  wf (JObject (internal_object config packageName))
  /\ plain (JObject (internal_object config packageName)) = true
  /\ safe_numbers (JObject (internal_object config packageName)).
Proof.
  split; [|split; [reflexivity | simpl; tauto]].
  apply wf_object. split; [|repeat constructor].
  split; [repeat constructor; simpl; intuition discriminate|].
  repeat constructor.
Qed.

Lemma parsed_objects_good (supplied : list SourceFileInfo.t) (objects : list (obj json)) :
  Forall2 (fun source o => JSON_parse (SourceFileInfo.sourceText source) = Ok (JObject o))
    supplied objects ->
  Forall (fun o => plain (JObject o) = true) objects ->
  Forall (fun o => wf (JObject o) /\ plain (JObject o) = true /\ safe_numbers (JObject o))
    objects.
Proof.
  intros Hparse Hplain.
  induction Hparse as [|source o supplied' objects' Ho Hrest IH]; [constructor|].
  inversion Hplain; subst. constructor; [|now apply IH].
  split; [now apply JSON_parse_wf in Ho|]. split; [assumption|].
  now apply JSON_parse_safe in Ho.
Qed.

(** The merge of the manifest under the method [json], before the
    dependency categories are sorted. *)
Lemma manifest_merged (h : Host) (config : Config.t)
    (template : LoadedTemplate.t) (packageName : string)
    (supplied : list SourceFileInfo.t) (objects : list (obj json)) :
  declared_mergeMethod template "package.json" = Some "json" ->
  supplied <> [] ->
  Forall2 (fun source o => JSON_parse (SourceFileInfo.sourceText source) = Ok (JObject o))
    supplied objects ->
  Forall (fun o => plain (JObject o) = true) objects ->
  exists merged,
    fold_left json_merge (map JObject objects)
      (JObject (internal_object config packageName))
    = JObject merged
    /\ wf (JObject merged) /\ safe_numbers (JObject merged)
    /\ (forall k,
          obj_get k merged
          = merged_value k objects (obj_get k (internal_object config packageName)))
    /\ mergeFiles h template "package.json"
         (merge_input config packageName ("package.json", supplied))
       = Ok (MergedFileInfo.mk ("internal.node" :: variants_of supplied)
               (JSON_stringify_2 (JObject merged))).
Proof.
  intros Hdecl Hne Hparse Hplain.
  set (io := internal_object config packageName).
  destruct (internal_object_good config packageName) as (Hiowf & Hioplain & Hiosafe).
  fold io in Hiowf, Hioplain, Hiosafe.
  pose proof (parsed_objects_good supplied objects Hparse Hplain) as Hall.
  destruct (fold_merge_objects objects Hall io Hiowf Hioplain Hiosafe)
    as (merged & Hfold & Hmwf & Hmplain & Hmsafe & Hvalue).
  exists merged. split; [exact Hfold|]. split; [exact Hmwf|]. split; [exact Hmsafe|].
  split; [exact Hvalue|].
  assert (Hparse' : Forall2
                      (fun source o =>
                         JSON_parse (SourceFileInfo.sourceText source) = Ok (JObject o))
                      (internal_node config packageName :: supplied) (io :: objects)).
  { constructor; [apply internal_node_parses | exact Hparse]. }
  destruct (parse_sources_objects _ _ Hparse') as [Hsources _].
  assert (Hmerge : deepmerge_all (map JObject (io :: objects)) = Ok (JObject merged)).
  { unfold deepmerge_all. rewrite deepmerge_all_described.
    - cbn [map fold_left]. rewrite <- Hfold. reflexivity.
    - apply wf_object. split; [apply canonical_nil | constructor].
    - reflexivity.
    - apply Forall_forall. intros v Hv. apply in_map_iff in Hv as [o [<- Ho]].
      destruct Ho as [<- | Ho];
        [split; [exact Hiowf | split; [exact Hioplain | reflexivity]]|].
      rewrite Forall_forall in Hall. destruct (Hall o Ho) as (Hw & Hp & _).
      split; [exact Hw | split; [exact Hp | reflexivity]]. }
  unfold merge_input. cbn [fst snd].
  change (String.eqb "package.json" "package.json") with true. cbn iota.
  rewrite (mergeFiles_declared h template "package.json" "json");
    [| destruct supplied; [congruence | simpl; lia] | exact Hdecl | discriminate].
  unfold merge_by. change (String.eqb "json" "json") with true. cbn iota.
  rewrite Hsources. cbn [bind]. rewrite Hmerge. reflexivity.
Qed.

(** X21. When the manifest is merged by [json] and the manifests of the
    suppliers are objects with plain keys, the run parses back without
    fail what the merge serialized, and writes the deep merge of the
    synthetic object and the suppliers' objects with its dependency
    categories sorted, serialized with an indentation of two; the
    synthetic source is credited first. *)
Theorem package_json_json_written (h : Host) (config : Config.t)
    (template : LoadedTemplate.t) (packageName : string)
    (supplied : list SourceFileInfo.t) (objects : list (obj json)) :
  declared_mergeMethod template "package.json" = Some "json" ->
  supplied <> [] ->
  Forall2 (fun source o => JSON_parse (SourceFileInfo.sourceText source) = Ok (JObject o))
    supplied objects ->
  Forall (fun o => plain (JObject o) = true) objects ->
  exists merged sorted,
    fold_left json_merge (map JObject objects)
      (JObject (internal_object config packageName))
    = JObject merged
    /\ JSON_parse (JSON_stringify_2 (JObject merged)) = Ok (JObject merged)
    /\ run_file h config template packageName ("package.json", supplied)
       = Ok ("package.json",
             MergedFileInfo.mk ("internal.node" :: variants_of supplied)
               (JSON_stringify_2 (JObject sorted)))
    /\ obj_keys sorted = obj_keys merged
    /\ forall k,
         obj_get k sorted
         = if includes k dependency_categories
           then option_map sort_value (obj_get k merged)
           else obj_get k merged.
Proof.
  intros Hdecl Hne Hparse Hplain.
  destruct (manifest_merged h config template packageName supplied objects
              Hdecl Hne Hparse Hplain) as (merged & Hfold & Hwf & Hsafe & _ & Hmerge).
  destruct (sort_dependencies_object merged) as (sorted & Hsort & Hkeys & Hget).
  pose proof (JSON_parse_stringify_2 (JObject merged) Hwf Hsafe) as Hback.
  exists merged, sorted. split; [exact Hfold|]. split; [exact Hback|].
  split; [|split; [exact Hkeys | exact Hget]].
  unfold run_file. cbn [fst]. rewrite Hmerge. cbn [bind].
  unfold finish_file. change (String.eqb "package.json" "package.json") with true.
  cbn iota. cbn [MergedFileInfo.sourceText MergedFileInfo.contributingVariants].
  rewrite Hback. cbn [bind]. rewrite Hsort. reflexivity.
Qed.

Lemma package_json_json_written_witness :
  exists merged sorted,
    fold_left json_merge (map JObject Sample.manifest_objects)
      (JObject (internal_object Sample.config "tools"))
    = JObject merged
    /\ JSON_parse (JSON_stringify_2 (JObject merged)) = Ok (JObject merged)
    /\ run_file Sample.bare Sample.config (Sample.template (Sample.method "json")) "tools"
         ("package.json", Sample.manifest_sources)
       = Ok ("package.json",
             MergedFileInfo.mk ("internal.node" :: variants_of Sample.manifest_sources)
               (JSON_stringify_2 (JObject sorted)))
    /\ obj_keys sorted = obj_keys merged
    /\ forall k,
         obj_get k sorted
         = if includes k dependency_categories
           then option_map sort_value (obj_get k merged)
           else obj_get k merged.
Proof.
  apply (package_json_json_written Sample.bare Sample.config
           (Sample.template (Sample.method "json")) "tools"
           Sample.manifest_sources Sample.manifest_objects).
  - reflexivity.
  - discriminate.
  - repeat constructor.
  - repeat constructor.
Defined.

Lemma merged_value_absent (k : string) (objects : list (obj json)) (start : option json) :
  Forall (fun o => obj_get k o = None) objects -> merged_value k objects start = start.
Proof.
  unfold merged_value. revert start.
  induction objects as [|o objects IH]; intros start Hall; [reflexivity|].
  inversion Hall as [|? ? Ho Hrest]; subst. cbn [fold_left]. rewrite Ho. now apply IH.
Qed.

Lemma merged_value_app (k : string) (before after : list (obj json)) (start : option json) :
  merged_value k (before ++ after) start
  = merged_value k after (merged_value k before start).
Proof. unfold merged_value. apply fold_left_app. Qed.

Lemma merged_value_cons (k : string) (o : obj json) (objects : list (obj json))
    (start : option json) :
  merged_value k (o :: objects) start
  = merged_value k objects
      (match obj_get k o with
       | Some later =>
           Some (match start with
                 | Some earlier => json_merge earlier later
                 | None => later
                 end)
       | None => start
       end).
Proof. reflexivity. Qed.

(** X22. In that manifest the name that was entered, with its scope,
    and the version 0.1.0 are defaults: each stands when no supplier's
    manifest has the key, and gives way to the string that the last
    supplier that has the key holds under it. *)
Theorem package_json_name_is_default (h : Host) (config : Config.t)
    (template : LoadedTemplate.t) (packageName : string)
    (supplied : list SourceFileInfo.t) (objects : list (obj json)) (key : string) :
  declared_mergeMethod template "package.json" = Some "json" ->
  supplied <> [] ->
  Forall2 (fun source o => JSON_parse (SourceFileInfo.sourceText source) = Ok (JObject o))
    supplied objects ->
  Forall (fun o => plain (JObject o) = true) objects ->
  key = "name" \/ key = "version" ->
  exists written,
    run_file h config template packageName ("package.json", supplied)
    = Ok ("package.json",
          MergedFileInfo.mk ("internal.node" :: variants_of supplied)
            (JSON_stringify_2 (JObject written)))
    /\ (Forall (fun o => obj_get key o = None) objects ->
        obj_get key written = obj_get key (internal_object config packageName))
    /\ forall before o later s,
         objects = (before ++ o :: later)%list ->
         obj_get key o = Some (JString s) ->
         Forall (fun o' => obj_get key o' = None) later ->
         obj_get key written = Some (JString s).
Proof.
  intros Hdecl Hne Hparse Hplain Hkey.
  destruct (manifest_merged h config template packageName supplied objects
              Hdecl Hne Hparse Hplain) as (merged & _ & Hwf & Hsafe & Hvalue & Hmerge).
  destruct (sort_dependencies_object merged) as (sorted & Hsort & _ & Hget).
  exists sorted. split.
  { unfold run_file. cbn [fst]. rewrite Hmerge. cbn [bind].
    unfold finish_file. change (String.eqb "package.json" "package.json") with true.
    cbn iota. cbn [MergedFileInfo.sourceText MergedFileInfo.contributingVariants].
    rewrite (JSON_parse_stringify_2 (JObject merged) Hwf Hsafe). cbn [bind].
    rewrite Hsort. reflexivity. }
  assert (Hcat : includes key dependency_categories = false)
    by (destruct Hkey as [-> | ->]; reflexivity).
  split.
  - intros Habsent. rewrite Hget, Hcat, Hvalue. now rewrite merged_value_absent.
  - intros before o later s -> Ho Hlater.
    rewrite Hget, Hcat, Hvalue, merged_value_app, merged_value_cons, Ho.
    rewrite merged_value_absent by exact Hlater.
    now destruct (merged_value key before
                    (obj_get key (internal_object config packageName))).
Qed.

Lemma package_json_name_is_default_witness :
  exists written,
    run_file Sample.bare Sample.config (Sample.template (Sample.method "json")) "tools"
      ("package.json", Sample.manifest_sources)
    = Ok ("package.json",
          MergedFileInfo.mk ("internal.node" :: variants_of Sample.manifest_sources)
            (JSON_stringify_2 (JObject written)))
    /\ (Forall (fun o => obj_get "name" o = None) Sample.manifest_objects ->
        obj_get "name" written = obj_get "name" (internal_object Sample.config "tools"))
    /\ forall before o later s,
         Sample.manifest_objects = (before ++ o :: later)%list ->
         obj_get "name" o = Some (JString s) ->
         Forall (fun o' => obj_get "name" o' = None) later ->
         obj_get "name" written = Some (JString s).
Proof.
  apply (package_json_name_is_default Sample.bare Sample.config
           (Sample.template (Sample.method "json")) "tools"
           Sample.manifest_sources Sample.manifest_objects "name").
  - reflexivity.
  - discriminate.
  - repeat constructor.
  - repeat constructor.
  - now left.
Defined.

(** ** Loading the configuration *)

(** X23. The configuration loads exactly when the search finds a
    configuration directory, the [config.json] in it is accepted, and
    the [templates] directory in it passes the template loader; the
    result then carries the parent of the configuration directory, the
    configuration and the templates.  The configuration file is dealt
    with first: when it fails, its error is the outcome, whatever the
    state of the templates. *)
Theorem loadConfig_loads (h : Host) (p : Process) (fuel : nat) :
  ((exists loaded, loadConfig h p fuel = Some (Ok loaded))
   <-> exists directory,
         findConfig h p fuel = Some (Ok directory)
         /\ (exists config,
               readConfigFile h (path_join h directory "config.json") = Ok config)
         /\ templates_load h (path_join h directory "templates"))
  /\ (forall loaded,
        loadConfig h p fuel = Some (Ok loaded) ->
        exists directory,
          findConfig h p fuel = Some (Ok directory)
          /\ LoadedConfig.directory loaded = path_dirname p directory
          /\ readConfigFile h (path_join h directory "config.json")
             = Ok (LoadedConfig.config loaded)
          /\ readTemplates h (path_join h directory "templates")
             = Ok (LoadedConfig.templates loaded))
  /\ (forall directory e,
        findConfig h p fuel = Some (Ok directory) ->
        readConfigFile h (path_join h directory "config.json") = Throw e ->
        loadConfig h p fuel = Some (Throw e)).
Proof.
  assert (Hinv : forall loaded,
             loadConfig h p fuel = Some (Ok loaded) ->
             exists directory,
               findConfig h p fuel = Some (Ok directory)
               /\ LoadedConfig.directory loaded = path_dirname p directory
               /\ readConfigFile h (path_join h directory "config.json")
                  = Ok (LoadedConfig.config loaded)
               /\ readTemplates h (path_join h directory "templates")
                  = Ok (LoadedConfig.templates loaded)).
  { intros loaded H. unfold loadConfig in H.
    destruct (findConfig h p fuel) as [found|]; [|discriminate].
    injection H as H. apply bind_ok in H as [directory [-> H]].
    apply bind_ok in H as [config [Hconfig H]].
    apply bind_ok in H as [templates [Htemplates H]]. injection H as <-.
    exists directory. now repeat split. }
  split; [|split; [exact Hinv|]].
  - split.
    + intros [loaded H]. destruct (Hinv loaded H) as (directory & Hfind & _ & Hc & Ht).
      exists directory. split; [exact Hfind|]. split; [eauto|].
      apply readTemplates_ok. eauto.
    + intros (directory & Hfind & [config Hconfig] & Htemplates).
      apply readTemplates_ok in Htemplates as [templates Htemplates].
      eexists. unfold loadConfig. rewrite Hfind. cbn [bind].
      rewrite Hconfig. cbn [bind]. rewrite Htemplates. reflexivity.
  - intros directory e Hfind Hconfig. unfold loadConfig. rewrite Hfind. cbn [bind].
    now rewrite Hconfig.
Qed.

Lemma loadConfig_loads_witness :
  exists loaded,
    loadConfig Workspace.host Workspace.process 5 = Some (Ok loaded)
    /\ LoadedConfig.directory loaded = "/ws"
    /\ LoadedConfig.config loaded = Config.mk None (Some "@acme").
Proof.
  destruct (loadConfig Workspace.host Workspace.process 5) as [[loaded| |]|] eqn:E;
    try (vm_compute in E; discriminate).
  exists loaded. split; [reflexivity|].
  destruct (proj1 (proj2 (loadConfig_loads Workspace.host Workspace.process 5)) loaded E)
    as (directory & Hfind & Hdir & Hconfig & _).
  assert (Hd : directory = "/ws/.crpml") by (vm_compute in Hfind; congruence).
  subst directory. split; [exact Hdir|].
  assert (Hread : readConfigFile Workspace.host
                    (path_join Workspace.host "/ws/.crpml" "config.json")
                  = Ok (Config.mk None (Some "@acme"))) by (vm_compute; reflexivity).
  rewrite Hread in Hconfig. now injection Hconfig.
Defined.

(** ** Sorting twice *)

Lemma sorted_unique {A : Type} (R : A -> A -> Prop) (l1 l2 : list A) :
  (forall a b, In a l1 -> In b l1 -> R a b -> R b a -> a = b) ->
  StronglySorted R l1 -> StronglySorted R l2 ->
  NoDup l1 -> NoDup l2 ->
  (forall x, In x l1 <-> In x l2) ->
  l1 = l2.
Proof.
  revert l2. induction l1 as [|a l1 IH]; intros l2 Hanti Hs1 Hs2 Hn1 Hn2 Hsame.
  - destruct l2 as [|b l2]; [reflexivity|]. exfalso. apply (Hsame b). now left.
  - destruct l2 as [|b l2]; [exfalso; apply (Hsame a); now left|].
    inversion Hs1 as [|? ? Hs1' Ha]; subst. inversion Hs2 as [|? ? Hs2' Hb]; subst.
    inversion Hn1 as [|? ? Hfa Hn1']; subst. inversion Hn2 as [|? ? Hfb Hn2']; subst.
    rewrite Forall_forall in Ha, Hb.
    assert (Hab : a = b).
    { destruct (proj1 (Hsame a) (or_introl eq_refl)) as [E | Hin]; [now symmetry|].
      destruct (proj2 (Hsame b) (or_introl eq_refl)) as [E | Hin']; [exact E|].
      apply Hanti; [now left | now right | now apply Ha | ].
      (* [b] is the head of the second list, so it is below [a] there *)
      now apply Hb. }
    subst b. f_equal. apply IH; try assumption.
    + intros x y Hx Hy. apply Hanti; now right.
    + intros x. split; intros Hx.
      * destruct (proj1 (Hsame x) (or_intror Hx)) as [E | Hin]; [|exact Hin].
        subst x. contradiction.
      * destruct (proj2 (Hsame x) (or_intror Hx)) as [E | Hin]; [|exact Hin].
        subst x. contradiction.
Qed.

Lemma key_before_antisym (a b : string) :
  non_index a = false -> key_before a b -> key_before b a -> a = b.
Proof.
  unfold non_index, key_before.
  destruct (array_index a) as [n|] eqn:Ea; [|discriminate]. intros _.
  destruct (array_index b) as [m|] eqn:Eb; [lia | contradiction].
Qed.

(** In an object in enumeration order the array indices come before
    the other keys. *)
Lemma canonical_parts (l : list string) :
  StronglySorted key_before l ->
  l = (filter (fun k => negb (non_index k)) l ++ filter non_index l)%list.
Proof.
  induction l as [|k l IH]; intros Hs; [reflexivity|].
  inversion Hs as [|? ? Hs' Hk]; subst. cbn [filter].
  destruct (non_index k) eqn:E; cbn [negb].
  - assert (Hall : Forall (fun x => non_index x = true) l).
    { eapply Forall_impl; [|exact Hk]. intros x Hx. unfold key_before, non_index in *.
      destruct (array_index k); [discriminate|].
      now destruct (array_index x). }
    assert (Hnone : filter (fun x => negb (non_index x)) l = []).
    { clear -Hall. induction Hall as [|x l Hx _ IHl]; [reflexivity|].
      cbn [filter]. now rewrite Hx. }
    assert (Hself : filter non_index l = l).
    { clear -Hall. induction Hall as [|x l Hx _ IHl]; [reflexivity|].
      cbn [filter]. now rewrite Hx, IHl. }
    now rewrite Hnone, Hself.
  - cbn [app]. f_equal. now apply IH.
Qed.

Lemma StronglySorted_filter {A : Type} (R : A -> A -> Prop) (keep : A -> bool)
    (l : list A) :
  StronglySorted R l -> StronglySorted R (filter keep l).
Proof.
  induction l as [|a l IH]; intros Hs; [constructor|].
  inversion Hs as [|? ? Hs' Ha]; subst. cbn [filter].
  destruct (keep a); [|now apply IH].
  constructor; [now apply IH|].
  rewrite Forall_forall in Ha |- *. intros x Hx. apply filter_In in Hx as [Hx _].
  now apply Ha.
Qed.

(** An object is determined by its properties once its keys are in
    enumeration order with the keys that are no array index ascending. *)
Lemma sorted_object_unique (d1 d2 : obj json) :
  canonical d1 -> canonical d2 ->
  StronglySorted str_le (named_keys d1) -> StronglySorted str_le (named_keys d2) ->
  (forall k, obj_get k d1 = obj_get k d2) ->
  d1 = d2.
Proof.
  intros [Hn1 Hs1] [Hn2 Hs2] Hnamed1 Hnamed2 Hget.
  assert (Hsame : forall k, In k (obj_keys d1) <-> In k (obj_keys d2)).
  { intros k. rewrite <- !obj_has_In. unfold obj_has. now rewrite Hget. }
  assert (Hkeys : obj_keys d1 = obj_keys d2).
  { rewrite (canonical_parts _ Hs1), (canonical_parts _ Hs2). f_equal.
    - apply (sorted_unique key_before).
      + intros a b Ha _. apply filter_In in Ha as [_ Ha]. apply negb_true_iff in Ha.
        now apply key_before_antisym.
      + now apply StronglySorted_filter.
      + now apply StronglySorted_filter.
      + now apply NoDup_filter.
      + now apply NoDup_filter.
      + intros k. rewrite !filter_In, Hsame. tauto.
    - apply (sorted_unique str_le).
      + intros a b _ _. apply String.leb_antisym.
      + exact Hnamed1.
      + exact Hnamed2.
      + now apply NoDup_filter.
      + now apply NoDup_filter.
      + intros k. unfold named_keys. rewrite !filter_In, Hsame. tauto. }
  clear Hsame Hs1 Hs2 Hnamed1 Hnamed2 Hn2. revert d2 Hget Hkeys.
  induction d1 as [|[k v] d1 IH]; intros d2 Hget Hkeys.
  - destruct d2; [reflexivity | discriminate].
  - destruct d2 as [|[k' v'] d2]; [discriminate|].
    cbn [obj_keys map fst] in Hkeys. injection Hkeys as <- Hkeys.
    inversion Hn1 as [|? ? Hfresh Hn1']; subst.
    pose proof (Hget k) as Hk. cbn [obj_get] in Hk. rewrite String.eqb_refl in Hk.
    injection Hk as <-. f_equal. apply IH; [exact Hn1' | | exact Hkeys].
    intros x. specialize (Hget x). cbn [obj_get] in Hget.
    destruct (String.eqb x k) eqn:E; [|exact Hget].
    apply String.eqb_eq in E. subst x.
    assert (H1 : obj_get k d1 = None) by now apply obj_get_none.
    assert (H2 : obj_get k d2 = None).
    { apply obj_get_none. fold (obj_keys d1) in Hkeys. unfold obj_keys in *.
      now rewrite <- Hkeys. }
    now rewrite H1, H2.
Qed.

(** X26. [sortByKeys] is idempotent: applied to what it returned, it
    returns it again. *)
Theorem sortByKeys_idempotent (src once : json) :
  sortByKeys src = Ok once -> sortByKeys once = Ok once.
Proof.
  intros H1. unfold sortByKeys in H1.
  destruct (own_entries src) as [es|] eqn:Hes; [|discriminate].
  injection H1 as <-.
  destruct (sort_fold_result es) as (Hc & Hs & Hget).
  set (sorted := fold_left (sort_step es) (js_sort (obj_keys es)) []) in *.
  destruct (sort_fold_result sorted) as (Hc2 & Hs2 & Hget2).
  unfold sortByKeys. cbn [own_entries]. do 2 f_equal.
  apply sorted_object_unique; try assumption.
  intros k.
  change (obj_get k (fold_left (sort_step sorted) (js_sort (obj_keys sorted)) [])
          = obj_get k sorted).
  rewrite Hget2, Hget.
  now destruct (String.eqb k "__proto__").
Qed.

Lemma sortByKeys_idempotent_witness :
  sortByKeys (JObject [ ("9", JString "y"); ("10", JString "x"); ("a", JString "z");
                        ("b", JNull) ])
  = Ok (JObject [ ("9", JString "y"); ("10", JString "x"); ("a", JString "z");
                  ("b", JNull) ]).
Proof.
  apply (sortByKeys_idempotent
           (JObject [ ("b", JNull); ("a", JString "z"); ("10", JString "x");
                      ("9", JString "y") ])).
  vm_compute. reflexivity.
Defined.
